(** * Upload lifecycle of the file-management dashboard

    A shallow embedding of the upload hook ([useFileUpload], with its
    process-wide registry [activeUploadCancelFunctions] and
    [cancelAllActiveUploads]), of the validators in [lib/validators.ts], of
    the duplicate check ([useCheckDuplicateFilename]) and of
    [handleFileSelect] in [components/FileUpload.tsx].

    Conventions.
    - A JavaScript string is the sequence of its UTF-16 code units, a
      [list N]; [lit] turns a literal into one.
    - React state setters are modelled as immediate writes to the hook's
      state: the value "published" is the last value handed to the setter.
    - The browser's [XMLHttpRequest] is modelled by its ready state and by
      the events it delivers; each handler runs to completion. *)

From Stdlib Require Import ZArith NArith QArith Qround Qpower Lqa List String Ascii Lia Bool
  DecimalString DecimalN Sorted.
From stdpp Require Import base option list gmap.

Import ListNotations.
Local Open Scope N_scope.
Set Warnings "-register-all".

(** ** JavaScript strings *)

Abbreviation JsString := (list N).

Definition lit (s : string) : JsString :=
  List.map N_of_ascii (list_ascii_of_string s).

(** A literal in which each apostrophe stands for a double quote, for
    writing JSON texts. *)
Definition json_lit (s : string) : JsString :=
  List.map (fun c => if c =? 39 then 34 else c) (lit s).

(** [Number.prototype.toString] on a non-negative integer. *)
Definition Number_toString (n : N) : JsString :=
  lit (NilZero.string_of_uint (N.to_uint n)).

Definition JsString_eqb (a b : JsString) : bool :=
  bool_decide (a = b).

(** ECMAScript [WhiteSpace] and [LineTerminator] code units: what
    [String.prototype.trim] strips and what the class [\s] matches. *)
Definition isWhiteSpace (c : N) : bool :=
  (c =? 9) || (c =? 10) || (c =? 11) || (c =? 12) || (c =? 13) || (c =? 32)
  || (c =? 160) || (c =? 5760) || ((8192 <=? c) && (c <=? 8202))
  || (c =? 8232) || (c =? 8233) || (c =? 8239) || (c =? 8287)
  || (c =? 12288) || (c =? 65279).

Fixpoint trimStart (s : JsString) : JsString :=
  match s with
  | [] => []
  | c :: s' => if isWhiteSpace c then trimStart s' else s
  end.

Definition trimEnd (s : JsString) : JsString := rev (trimStart (rev s)).

Definition trim (s : JsString) : JsString := trimEnd (trimStart s).

(** Truthiness of a string: the empty string is the only falsy one. *)
Definition truthy_string (s : JsString) : bool :=
  match s with [] => false | _ => true end.

Fixpoint startsWith (s p : JsString) : bool :=
  match p, s with
  | [], _ => true
  | _ :: _, [] => false
  | a :: p', b :: s' => (a =? b) && startsWith s' p'
  end.

Fixpoint includes (s p : JsString) : bool :=
  startsWith s p ||
  match s with
  | [] => false
  | _ :: s' => includes s' p
  end.

(** ** types/file.ts *)

Definition MAX_FILE_SIZE : N := 52428800.
Definition MAX_FILENAME_LENGTH : N := 255.

Definition isAsciiLetter (c : N) : bool :=
  ((97 <=? c) && (c <=? 122)) || ((65 <=? c) && (c <=? 90)).

Definition isAsciiDigit (c : N) : bool := (48 <=? c) && (c <=? 57).

(** One character of the class [[a-zA-Z0-9._\-\s()]]. *)
Definition allowedFilenameChar (c : N) : bool :=
  isAsciiLetter c || isAsciiDigit c || (c =? 46) || (c =? 95) || (c =? 45)
  || isWhiteSpace c || (c =? 40) || (c =? 41).

(** [ALLOWED_FILENAME_PATTERN.test]: [/^[a-zA-Z0-9._\-\s()]+$/], one or more
    characters of the class, from the start to the end of the input. *)
Definition ALLOWED_FILENAME_PATTERN_test (s : JsString) : bool :=
  truthy_string s && forallb allowedFilenameChar s.

Inductive UploadStatus :=
  | queued | uploading | processing | completed | failed.

Record File := { name : JsString; size : N }.

(** ** lib/validators.ts *)

Record ValidationResult := { valid : bool; error : option JsString }.

Definition ok : ValidationResult := {| valid := true; error := None |}.
Definition invalid (msg : JsString) : ValidationResult :=
  {| valid := false; error := Some msg |}.

(** The messages, named after the error taxonomy of the specification. *)
Definition msg_EmptyFile : JsString := lit "Cannot upload empty file".
Definition msg_TooLarge : JsString :=
  lit "File size exceeds " ++ Number_toString (MAX_FILE_SIZE / (1024 * 1024))
  ++ lit "MB limit".
Definition msg_EmptyName : JsString := lit "Filename cannot be empty".
Definition msg_NameTooLong : JsString :=
  lit "Filename exceeds maximum length of "
  ++ Number_toString MAX_FILENAME_LENGTH ++ lit " characters".
Definition msg_PathTraversal : JsString :=
  lit "Filename cannot contain path traversal sequences (..)".
Definition msg_InvalidCharacters : JsString :=
  lit "Filename contains invalid characters (<, >, "
  ++ [34] ++ lit ", ', `, /, \, newline, tab, null)".
Definition msg_DisallowedPattern : JsString :=
  lit "Filename can only contain letters, numbers, dots, underscores, hyphens, spaces, and parentheses".

Definition validateFileSize (file : File) : ValidationResult :=
  if size file =? 0 then invalid msg_EmptyFile
  else if MAX_FILE_SIZE <? size file then invalid msg_TooLarge
  else ok.

(** One character of the class of [invalidChars]: less-than, greater-than,
    double quote, single quote, backtick, line feed, carriage return, tab,
    NUL, slash and backslash. *)
Definition invalidChar (c : N) : bool :=
  (c =? 60) || (c =? 62) || (c =? 34) || (c =? 39) || (c =? 96)
  || (c =? 10) || (c =? 13) || (c =? 9) || (c =? 0) || (c =? 47) || (c =? 92).

Definition invalidChars_test (s : JsString) : bool := existsb invalidChar s.

Definition validateFilename (filename : JsString) : ValidationResult :=
  if negb (truthy_string filename) || negb (truthy_string (trim filename))
  then invalid msg_EmptyName
  else if MAX_FILENAME_LENGTH <? N.of_nat (length filename)
  then invalid msg_NameTooLong
  else if includes filename (lit "..") then invalid msg_PathTraversal
  else if invalidChars_test filename then invalid msg_InvalidCharacters
  else if negb (ALLOWED_FILENAME_PATTERN_test filename)
  then invalid msg_DisallowedPattern
  else ok.

Definition validateFile (file : File) : ValidationResult :=
  let sizeValidation := validateFileSize file in
  if negb (valid sizeValidation) then sizeValidation
  else
    let filenameValidation := validateFilename (name file) in
    if negb (valid filenameValidation) then filenameValidation
    else ok.

(** ** JavaScript values and [JSON.parse] *)

(** A number is kept as the rational its text denotes. [JSON.parse] rounds
    it to a binary64 value; here only its truthiness is ever used, which
    the rounding changes only for a non-zero text below the smallest
    double (such as [1e-400], read as 0). *)
Inductive JsValue :=
  | JUndefined
  | JNull
  | JBool (b : bool)
  | JNum (q : Q)
  | JStr (s : JsString)
  | JArr (elements : list JsValue)
  | JObj (members : list (JsString * JsValue)).

(** ToBoolean. *)
Definition truthy (v : JsValue) : bool :=
  match v with
  | JUndefined | JNull => false
  | JBool b => b
  | JNum q => negb (Qnum q =? 0)%Z
  | JStr s => truthy_string s
  | JArr _ | JObj _ => true
  end.

(** [a || b]. *)
Definition js_or (a b : JsValue) : JsValue := if truthy a then a else b.

(** The value of an own property; when a key is repeated in a JSON text the
    last member wins. Only the keys [detail], [message], [files] and
    [filename] are ever read, and no prototype defines them, so a value
    that is not an object, or an object without the key, gives
    [undefined]. *)
Fixpoint lookup_member (k : JsString) (members : list (JsString * JsValue))
  : JsValue :=
  match members with
  | [] => JUndefined
  | (k', v) :: rest =>
      match lookup_member k rest with
      | JUndefined => if JsString_eqb k k' then v else JUndefined
      | found => found
      end
  end.

Definition own_property (v : JsValue) (k : JsString) : JsValue :=
  match v with
  | JObj members => lookup_member k members
  | _ => JUndefined
  end.

(** [v.k]: a [TypeError] ([None]) when [v] is [null] or [undefined]. *)
Definition member (v : JsValue) (k : JsString) : option JsValue :=
  match v with
  | JUndefined | JNull => None
  | _ => Some (own_property v k)
  end.

(** [v?.k]. *)
Definition optional_member (v : JsValue) (k : JsString) : JsValue :=
  match v with
  | JUndefined | JNull => JUndefined
  | _ => own_property v k
  end.

Module Json.

Definition is_ws (c : N) : bool :=
  (c =? 32) || (c =? 9) || (c =? 10) || (c =? 13).

Fixpoint skip_ws (s : JsString) : JsString :=
  match s with
  | c :: s' => if is_ws c then skip_ws s' else s
  | [] => []
  end.

Definition hex_digit (c : N) : option N :=
  if isAsciiDigit c then Some (c - 48)
  else if (97 <=? c) && (c <=? 102) then Some (c - 87)
  else if (65 <=? c) && (c <=? 70) then Some (c - 55)
  else None.

Definition hex4 (a b c d : N) : option N :=
  match hex_digit a, hex_digit b, hex_digit c, hex_digit d with
  | Some a, Some b, Some c, Some d => Some (((a * 16 + b) * 16 + c) * 16 + d)
  | _, _, _, _ => None
  end.

(** The characters of a string after its opening quote, up to and
    including the closing one. *)
Fixpoint string_body (s acc : JsString) : option (JsString * JsString) :=
  match s with
  | [] => None
  | c :: r =>
      if c =? 34 then Some (rev acc, r)
      else if c =? 92 then
        match r with
        | [] => None
        | e :: r' =>
            if e =? 34 then string_body r' (34 :: acc)
            else if e =? 92 then string_body r' (92 :: acc)
            else if e =? 47 then string_body r' (47 :: acc)
            else if e =? 98 then string_body r' (8 :: acc)
            else if e =? 102 then string_body r' (12 :: acc)
            else if e =? 110 then string_body r' (10 :: acc)
            else if e =? 114 then string_body r' (13 :: acc)
            else if e =? 116 then string_body r' (9 :: acc)
            else if e =? 117 then
              match r' with
              | h1 :: h2 :: h3 :: h4 :: r'' =>
                  match hex4 h1 h2 h3 h4 with
                  | Some u => string_body r'' (u :: acc)
                  | None => None
                  end
              | _ => None
              end
            else None
        end
      else if c <? 32 then None
      else string_body r (c :: acc)
  end.

Fixpoint digits (s : JsString) : list N * JsString :=
  match s with
  | c :: s' =>
      if isAsciiDigit c
      then let '(ds, r) := digits s' in (c - 48 :: ds, r)
      else ([], s)
  | [] => ([], [])
  end.

Definition digits_value (ds : list N) : Z :=
  fold_left (fun acc d => acc * 10 + Z.of_N d)%Z ds 0%Z.

(** [m * 10 ^ e] as a rational. *)
Definition scale10 (m e : Z) : Q :=
  if (0 <=? e)%Z then Qmake (m * 10 ^ e) 1
  else Qmake m (Z.to_pos (10 ^ (- e))).

Definition exponent (s : JsString) : option (Z * JsString) :=
  match s with
  | c :: r =>
      if (c =? 101) || (c =? 69) then
        let '(neg, r1) :=
          match r with
          | sg :: r' =>
              if sg =? 45 then (true, r')
              else if sg =? 43 then (false, r') else (false, r)
          | [] => (false, r)
          end in
        match digits r1 with
        | ([], _) => None
        | (ds, r2) =>
            Some ((if neg then - digits_value ds else digits_value ds)%Z, r2)
        end
      else Some (0%Z, s)
  | [] => Some (0%Z, s)
  end.

Definition fraction (s : JsString) : option (list N * JsString) :=
  match s with
  | c :: r =>
      if c =? 46 then
        match digits r with
        | ([], _) => None
        | (ds, r') => Some (ds, r')
        end
      else Some ([], s)
  | [] => Some ([], s)
  end.

(** An optional minus sign, an integer part without a leading zero (unless
    it is the single digit 0), an optional fraction of at least one digit
    and an optional exponent. *)
Definition number (s : JsString) : option (Q * JsString) :=
  let '(neg, s1) :=
    match s with
    | c :: r => if c =? 45 then (true, r) else (false, s)
    | [] => (false, s)
    end in
  match digits s1 with
  | ([], _) => None
  | (d :: ds, s2) =>
      if (d =? 0) && negb (length ds =? 0)%nat then None
      else
        match fraction s2 with
        | None => None
        | Some (fs, s3) =>
            match exponent s3 with
            | None => None
            | Some (e, s4) =>
                let m := digits_value ((d :: ds) ++ fs) in
                let m := if neg then (- m)%Z else m in
                Some (scale10 m (e - Z.of_nat (length fs)), s4)
            end
        end
  end.

Definition keyword (w : string) (v : JsValue) (s : JsString)
  : option (JsValue * JsString) :=
  if startsWith s (lit w) then Some (v, drop (length (lit w)) s) else None.

(** Recursive descent; every level of nesting and every element or member
    takes one unit of fuel and at least one character. *)
Fixpoint value (fuel : nat) (s : JsString) : option (JsValue * JsString) :=
  match fuel with
  | O => None
  | S fuel =>
      match skip_ws s with
      | [] => None
      | c :: r =>
          if c =? 123 then
            match skip_ws r with
            | c' :: r' =>
                if c' =? 125 then Some (JObj [], r') else members fuel r []
            | [] => None
            end
          else if c =? 91 then
            match skip_ws r with
            | c' :: r' =>
                if c' =? 93 then Some (JArr [], r') else elements fuel r []
            | [] => None
            end
          else if c =? 34 then
            match string_body r [] with
            | Some (str, r') => Some (JStr str, r')
            | None => None
            end
          else if c =? 116 then keyword "true" (JBool true) (c :: r)
          else if c =? 102 then keyword "false" (JBool false) (c :: r)
          else if c =? 110 then keyword "null" JNull (c :: r)
          else
            match number (c :: r) with
            | Some (q, r') => Some (JNum q, r')
            | None => None
            end
      end
  end
with elements (fuel : nat) (s : JsString) (acc : list JsValue)
  : option (JsValue * JsString) :=
  match fuel with
  | O => None
  | S fuel =>
      match value fuel s with
      | None => None
      | Some (v, r) =>
          match skip_ws r with
          | c :: r' =>
              if c =? 44 then elements fuel r' (v :: acc)
              else if c =? 93 then Some (JArr (rev (v :: acc)), r')
              else None
          | [] => None
          end
      end
  end
with members (fuel : nat) (s : JsString) (acc : list (JsString * JsValue))
  : option (JsValue * JsString) :=
  match fuel with
  | O => None
  | S fuel =>
      match skip_ws s with
      | q :: r =>
          if q =? 34 then
            match string_body r [] with
            | None => None
            | Some (k, r1) =>
                match skip_ws r1 with
                | colon :: r2 =>
                    if colon =? 58 then
                      match value fuel r2 with
                      | None => None
                      | Some (v, r3) =>
                          match skip_ws r3 with
                          | c :: r4 =>
                              if c =? 44 then members fuel r4 ((k, v) :: acc)
                              else if c =? 125
                              then Some (JObj (rev ((k, v) :: acc)), r4)
                              else None
                          | [] => None
                          end
                      end
                    else None
                | [] => None
                end
            end
          else None
      | [] => None
      end
  end.

End Json.

(** [JSON.parse]: [None] stands for the [SyntaxError] it throws. *)
Definition JSON_parse (text : JsString) : option JsValue :=
  match Json.value (2 * length text + 2) text with
  | Some (v, rest) =>
      match Json.skip_ws rest with
      | [] => Some v
      | _ :: _ => None
      end
  | None => None
  end.

(** ** The upload hook: hooks/useFileUpload *)

Record FileUploadProgress := {
  filename : JsString;
  loaded : N;
  total : N;
  percentage : Z;
  status : UploadStatus;
  progress_error : option JsValue
}.

(** The Number type: IEEE 754 binary64 with round to nearest, ties to
    even, on the rationals. The exponent range is taken to be unbounded (no
    overflow to [Infinity], no subnormals), which is exact for the
    magnitudes that occur here. *)
Module Double.

(** The integer nearest to [q], ties to even. *)
Definition rne (q : Q) : Z :=
  let f := Qfloor q in
  match Qcompare (q - inject_Z f) (1 # 2) with
  | Lt => f
  | Gt => (f + 1)%Z
  | Eq => if Z.even f then f else (f + 1)%Z
  end.

(** The exponent [e] with [2 ^ e <= q < 2 ^ (e + 1)], for [q > 0]. *)
Definition binade (q : Q) : Z :=
  let K := (Z.log2 (Z.pos (Qden q)) + 1)%Z in
  (Z.log2 (Qfloor (q * 2 ^ K)) - K)%Z.

(** The nearest multiple of [2 ^ (e - 52)]: 53 significant bits. *)
Definition round_pos (q : Q) : Q :=
  let u := (2 ^ (binade q - 52))%Q in
  (inject_Z (rne (q / u)) * u)%Q.

Definition round (q : Q) : Q :=
  match Qcompare q 0 with
  | Eq => 0%Q
  | Gt => round_pos q
  | Lt => (- round_pos (- q))%Q
  end.

(** [x / y] and [x * y] on Numbers. Division by zero is not modelled: the
    only division is by [e.total] of a progress event whose length is
    computable, and the XMLHttpRequest standard makes the length computable
    only when the total is not 0. *)
Definition div (x y : Q) : Q := round (x / y).
Definition mul (x y : Q) : Q := round (x * y).

End Double.

(** [Math.round (x)]: the integer nearest to [x], halves rounded up. *)
Definition Math_round (x : Q) : Z := Qfloor (x + (1 # 2))%Q.

(** [Math.round((e.loaded / e.total) * 100)]; [e.loaded] and [e.total] are
    the integers the event carries (below [2 ^ 53], so that they are
    Numbers). *)
Definition percentage_of (e_loaded e_total : N) : Z :=
  Math_round
    (Double.mul
       (Double.div (inject_Z (Z.of_N e_loaded)) (inject_Z (Z.of_N e_total)))
       100).

(** The [ProgressEvent] of [xhr.upload]. *)
Record ProgressEvent := {
  lengthComputable : bool;
  e_loaded : N;
  e_total : N
}.

(** The state cells of one instance of the hook: the three [useState]
    cells [progress], [uploading] and [error], and the two refs. *)
Record Hook := {
  st_progress : option FileUploadProgress;
  st_uploading : bool;
  st_error : option JsValue;
  xhrRef : option nat;
  uploadIdRef : option JsString
}.

Definition initial_hook : Hook :=
  {| st_progress := None; st_uploading := false; st_error := None;
     xhrRef := None; uploadIdRef := None |}.

(** The ready states of an [XMLHttpRequest] that [abort()] tells apart:
    [UNSENT]; [SENT] for opened with the send() flag set, headers received
    or loading; [DONE]. [open] and [send] run in one synchronous block, so
    opened without the send() flag is never observed. *)
Inductive ReadyState := UNSENT | SENT | DONE.

(** One request, with what its listeners captured when [upload] created
    it: the hook (its setters, refs and options), [uploadId] and [file].
    [awaitingSession] holds while [getTokenAndSend] is suspended at
    [await supabase.auth.getSession()], before [xhr.open] and [xhr.send]. *)
Record Xhr := {
  xhr_hook : nat;
  xhr_uploadId : JsString;
  xhr_file : File;
  readyState : ReadyState;
  awaitingSession : bool
}.

(** What the outside observes, in order. Calls of the hook's options and
    the settling of the promise returned by [upload] carry the [uploadId]
    of the session that made them; [setProgress] carries it too, or [None]
    when the hook's [cancel] made the call. The callbacks of [options] are
    taken to return normally (so no exception of theirs reaches the [catch]
    of the [load] listener) and not to call back into the hook.
    [onUploadStart] is the callback of the component that owns the hook. *)
Inductive Effect :=
  | setProgress_called (h : nat) (session : option JsString)
      (p : option FileUploadProgress)
  | onProgress (uploadId : JsString) (p : FileUploadProgress)
  | onSuccess (uploadId : JsString) (response : JsValue)
  | onError (uploadId : JsString) (message : JsValue)
  | resolve (uploadId : JsString) (response : JsValue)
  | reject (uploadId : JsString) (message : JsValue)
  | invalidateQueries
  | xhr_send (x : nat) (access_token : option JsString)
  | uncaught_exception (x : nat)
  | onUploadStart.

(** The module state ([activeUploadCancelFunctions], a [Map] in insertion
    order whose values are the [cancel] functions of hook instances, and
    [uploadIdCounter]), every hook instance, every request created so far
    and the effects so far. *)
Record World := {
  activeUploadCancelFunctions : list (JsString * nat);
  uploadIdCounter : N;
  hooks : gmap nat Hook;
  xhrs : list Xhr;
  effects : list Effect
}.

Definition initial_world : World :=
  {| activeUploadCancelFunctions := []; uploadIdCounter := 0; hooks := ∅;
     xhrs := []; effects := [] |}.

Definition hook (w : World) (h : nat) : Hook :=
  default initial_hook (hooks w !! h).

(** *** [Map] operations *)

Fixpoint Map_get (k : JsString) (m : list (JsString * nat)) : option nat :=
  match m with
  | [] => None
  | (k', v) :: m' => if JsString_eqb k k' then Some v else Map_get k m'
  end.

Definition Map_has (k : JsString) (m : list (JsString * nat)) : bool :=
  match Map_get k m with Some _ => true | None => false end.

Fixpoint Map_replace (k : JsString) (v : nat) (m : list (JsString * nat))
  : list (JsString * nat) :=
  match m with
  | [] => []
  | (k', v') :: m' =>
      if JsString_eqb k k' then (k', v) :: m' else (k', v') :: Map_replace k v m'
  end.

Definition Map_set (k : JsString) (v : nat) (m : list (JsString * nat))
  : list (JsString * nat) :=
  if Map_has k m then Map_replace k v m else m ++ [(k, v)].

Definition Map_delete (k : JsString) (m : list (JsString * nat))
  : list (JsString * nat) :=
  List.filter (fun kv => negb (JsString_eqb k (fst kv))) m.

(** *** State updates *)

Definition update_hook (h : nat) (f : Hook -> Hook) (w : World) : World :=
  {| activeUploadCancelFunctions := activeUploadCancelFunctions w;
     uploadIdCounter := uploadIdCounter w;
     hooks := <[h := f (hook w h)]> (hooks w);
     xhrs := xhrs w;
     effects := effects w |}.

Definition emit (e : Effect) (w : World) : World :=
  {| activeUploadCancelFunctions := activeUploadCancelFunctions w;
     uploadIdCounter := uploadIdCounter w;
     hooks := hooks w;
     xhrs := xhrs w;
     effects := effects w ++ [e] |}.

Definition update_registry
  (f : list (JsString * nat) -> list (JsString * nat)) (w : World) : World :=
  {| activeUploadCancelFunctions := f (activeUploadCancelFunctions w);
     uploadIdCounter := uploadIdCounter w;
     hooks := hooks w;
     xhrs := xhrs w;
     effects := effects w |}.

Definition update_xhr (x : nat) (f : Xhr -> Xhr) (w : World) : World :=
  {| activeUploadCancelFunctions := activeUploadCancelFunctions w;
     uploadIdCounter := uploadIdCounter w;
     hooks := hooks w;
     xhrs := match xhrs w !! x with
             | Some r => <[x := f r]> (xhrs w)
             | None => xhrs w
             end;
     effects := effects w |}.

Definition setUploading (h : nat) (b : bool) : World -> World :=
  update_hook h (fun s =>
    {| st_progress := st_progress s; st_uploading := b; st_error := st_error s;
       xhrRef := xhrRef s; uploadIdRef := uploadIdRef s |}).

Definition setError (h : nat) (e : option JsValue) : World -> World :=
  update_hook h (fun s =>
    {| st_progress := st_progress s; st_uploading := st_uploading s;
       st_error := e; xhrRef := xhrRef s; uploadIdRef := uploadIdRef s |}).

Definition setProgress (h : nat) (session : option JsString)
  (p : option FileUploadProgress) (w : World) : World :=
  emit (setProgress_called h session p)
    (update_hook h (fun s =>
       {| st_progress := p; st_uploading := st_uploading s;
          st_error := st_error s; xhrRef := xhrRef s;
          uploadIdRef := uploadIdRef s |}) w).

Definition set_xhrRef (h : nat) (x : option nat) : World -> World :=
  update_hook h (fun s =>
    {| st_progress := st_progress s; st_uploading := st_uploading s;
       st_error := st_error s; xhrRef := x; uploadIdRef := uploadIdRef s |}).

Definition set_uploadIdRef (h : nat) (id : option JsString) : World -> World :=
  update_hook h (fun s =>
    {| st_progress := st_progress s; st_uploading := st_uploading s;
       st_error := st_error s; xhrRef := xhrRef s; uploadIdRef := id |}).

Definition set_readyState (x : nat) (r : ReadyState) : World -> World :=
  update_xhr x (fun q =>
    {| xhr_hook := xhr_hook q; xhr_uploadId := xhr_uploadId q;
       xhr_file := xhr_file q; readyState := r;
       awaitingSession := awaitingSession q |}).

Definition set_awaitingSession (x : nat) (b : bool) : World -> World :=
  update_xhr x (fun q =>
    {| xhr_hook := xhr_hook q; xhr_uploadId := xhr_uploadId q;
       xhr_file := xhr_file q; readyState := readyState q;
       awaitingSession := b |}).

(** Statements in sequence. *)
Definition block (stmts : list (World -> World)) (w : World) : World :=
  fold_left (fun w stmt => stmt w) stmts w.

(** *** Listeners registered by [upload]

    Each takes what its closure captured: the hook [h], [uploadId] and
    [file]. *)

Definition on_progress (h : nat) (uploadId : JsString) (file : File)
  (e : ProgressEvent) : World -> World :=
  if lengthComputable e then
    let percentage := percentage_of (e_loaded e) (e_total e) in
    let progressData :=
      {| filename := name file; loaded := e_loaded e; total := e_total e;
         percentage := percentage; status := uploading;
         progress_error := None |} in
    block [ setProgress h (Some uploadId) (Some progressData);
            emit (onProgress uploadId progressData) ]
  else block [].

Definition on_load (x h : nat) (uploadId : JsString) (file : File)
  (xhr_status : N) (responseText : JsString) : World -> World :=
  if (200 <=? xhr_status) && (xhr_status <? 300) then
    match JSON_parse responseText with
    | Some response =>
        block [ setProgress h (Some uploadId)
                  (Some {| filename := name file; loaded := size file;
                           total := size file; percentage := 100;
                           status := completed; progress_error := None |});
                emit invalidateQueries;
                setUploading h false;
                update_registry (Map_delete uploadId);
                set_uploadIdRef h None;
                emit (onSuccess uploadId response);
                emit (resolve uploadId response) ]
    | None =>
        let errorMsg := JStr (lit "Failed to parse server response") in
        block [ setError h (Some errorMsg);
                setUploading h false;
                setProgress h (Some uploadId)
                  (Some {| filename := name file; loaded := size file;
                           total := size file; percentage := 100;
                           status := failed;
                           progress_error := Some errorMsg |});
                update_registry (Map_delete uploadId);
                set_uploadIdRef h None;
                emit (onError uploadId errorMsg);
                emit (reject uploadId errorMsg) ]
    end
  else
    let errorMsg :=
      JStr (lit "Upload failed with status " ++ Number_toString xhr_status) in
    (* [JSON.parse] is outside any [try] here: its [SyntaxError], and the
       [TypeError] of reading [detail] from [null], leave the listener. *)
    match JSON_parse responseText with
    | None => emit (uncaught_exception x)
    | Some errorResponse =>
        match member errorResponse (lit "detail") with
        | None => emit (uncaught_exception x)
        | Some detail =>
            let errorMsg :=
              js_or (js_or (optional_member detail (lit "message")) detail)
                errorMsg in
            block [ setError h (Some errorMsg);
                    setUploading h false;
                    setProgress h (Some uploadId)
                      (Some {| filename := name file; loaded := 0;
                               total := size file; percentage := 0;
                               status := failed;
                               progress_error := Some errorMsg |});
                    update_registry (Map_delete uploadId);
                    set_uploadIdRef h None;
                    emit (onError uploadId errorMsg);
                    emit (reject uploadId errorMsg) ]
        end
    end.

Definition on_error (h : nat) (uploadId : JsString) (file : File)
  : World -> World :=
  let errorMsg := JStr (lit "Network error during upload") in
  block [ setError h (Some errorMsg);
          setUploading h false;
          setProgress h (Some uploadId)
            (Some {| filename := name file; loaded := 0; total := size file;
                     percentage := 0; status := failed;
                     progress_error := Some errorMsg |});
          update_registry (Map_delete uploadId);
          set_uploadIdRef h None;
          emit (onError uploadId errorMsg);
          emit (reject uploadId errorMsg) ].

Definition on_abort (h : nat) (uploadId : JsString) : World -> World :=
  let errorMsg := JStr (lit "Upload cancelled") in
  block [ setError h (Some errorMsg);
          setUploading h false;
          setProgress h (Some uploadId) None;
          update_registry (Map_delete uploadId);
          set_uploadIdRef h None;
          emit (onError uploadId errorMsg);
          emit (reject uploadId errorMsg) ].

(** [xhr.abort()], as the XMLHttpRequest standard has it: in the state
    [SENT] the request error steps run (the state becomes [DONE] and the
    [abort] listener is called, synchronously); then a [DONE] request goes
    back to [UNSENT]. An [UNSENT] request is left alone: no event fires. *)
Definition xhr_abort (x : nat) (w : World) : World :=
  match xhrs w !! x with
  | Some q =>
      match readyState q with
      | SENT =>
          block [ set_readyState x DONE;
                  on_abort (xhr_hook q) (xhr_uploadId q);
                  set_readyState x UNSENT ] w
      | DONE => set_readyState x UNSENT w
      | UNSENT => w
      end
  | None => w
  end.

(** *** [cancel] *)

Definition cancel (h : nat) (w : World) : World :=
  match xhrRef (hook w h) with
  | Some x =>
      let w :=
        block [ xhr_abort x;
                setUploading h false;
                setError h (Some (JStr (lit "Upload cancelled")));
                setProgress h None None ] w in
      match uploadIdRef (hook w h) with
      | Some id =>
          block [ update_registry (Map_delete id); set_uploadIdRef h None ] w
      | None => w
      end
  | None => w
  end.

(** *** [upload]

    Up to the point where the promise has been created and
    [getTokenAndSend] is suspended; a validation failure throws inside the
    [async] function, which rejects the promise it returns. *)

Definition set_uploadIdCounter (n : N) (w : World) : World :=
  {| activeUploadCancelFunctions := activeUploadCancelFunctions w;
     uploadIdCounter := n;
     hooks := hooks w;
     xhrs := xhrs w;
     effects := effects w |}.

Definition new_XMLHttpRequest (q : Xhr) (w : World) : World :=
  {| activeUploadCancelFunctions := activeUploadCancelFunctions w;
     uploadIdCounter := uploadIdCounter w;
     hooks := hooks w;
     xhrs := xhrs w ++ [q];
     effects := effects w |}.

Definition next_uploadId (w : World) : JsString :=
  lit "upload-" ++ Number_toString (uploadIdCounter w + 1).

Definition upload (h : nat) (file : File) (w : World) : World :=
  let uploadId := next_uploadId w in
  let w :=
    block [ set_uploadIdCounter (uploadIdCounter w + 1);
            set_uploadIdRef h (Some uploadId);
            setUploading h true;
            setError h None;
            setProgress h (Some uploadId)
              (Some {| filename := name file; loaded := 0; total := size file;
                       percentage := 0; status := uploading;
                       progress_error := None |}) ] w in
  let validation := validateFile file in
  if negb (valid validation) then
    let errorMsg :=
      match error validation with
      | Some e => if truthy_string e then e else lit "File validation failed"
      | None => lit "File validation failed"
      end in
    block [ setError h (Some (JStr errorMsg));
            setUploading h false;
            update_registry (Map_delete uploadId);
            set_uploadIdRef h None;
            emit (onError uploadId (JStr errorMsg));
            emit (reject uploadId (JStr errorMsg)) ] w
  else
    let x := length (xhrs w) in
    block [ new_XMLHttpRequest
              {| xhr_hook := h; xhr_uploadId := uploadId; xhr_file := file;
                 readyState := UNSENT; awaitingSession := true |};
            set_xhrRef h (Some x);
            update_registry (Map_set uploadId h) ] w.

(** The rest of [getTokenAndSend], once [getSession] has answered:
    [xhr.open], the [Authorization] header when there is a token, and
    [xhr.send]. *)
Definition getTokenAndSend_resume (x : nat) (access_token : option JsString)
  : World -> World :=
  block [ set_awaitingSession x false;
          set_readyState x SENT;
          emit (xhr_send x access_token) ].

(** *** [cancelAllActiveUploads]

    [Map.prototype.forEach] visits the entries in insertion order and skips
    an entry deleted before its turn; [cancel] never adds one. *)
Fixpoint forEach_cancelFn (keys : list JsString) (w : World) : World :=
  match keys with
  | [] => w
  | k :: keys' =>
      match Map_get k (activeUploadCancelFunctions w) with
      | Some h => forEach_cancelFn keys' (cancel h w)
      | None => forEach_cancelFn keys' w
      end
  end.

Definition cancelAllActiveUploads (w : World) : World :=
  update_registry (fun _ => [])
    (forEach_cancelFn (List.map fst (activeUploadCancelFunctions w)) w).

(** *** The moves of the user and of the browser *)

Inductive Action :=
  | Upload (h : nat) (file : File)
  | Cancel (h : nat)
  | CancelAll
  | SessionReady (x : nat) (access_token : option JsString)
  | UploadProgress (x : nat) (e : ProgressEvent)
  | Load (x : nat) (xhr_status : N) (responseText : JsString)
  | NetworkError (x : nat).

(** The browser delivers [progress], [load] and [error] only to a request
    in flight, and exactly one of [load], [error] and [abort] ends it. *)
Definition deliver (x : nat) (listener : Xhr -> World -> World) (w : World)
  : World :=
  match xhrs w !! x with
  | Some q =>
      match readyState q with
      | SENT => listener q w
      | _ => w
      end
  | None => w
  end.

Definition step (w : World) (a : Action) : World :=
  match a with
  | Upload h file => upload h file w
  | Cancel h => cancel h w
  | CancelAll => cancelAllActiveUploads w
  | SessionReady x access_token =>
      match xhrs w !! x with
      | Some q =>
          if awaitingSession q then getTokenAndSend_resume x access_token w
          else w
      | None => w
      end
  | UploadProgress x e =>
      deliver x (fun q => on_progress (xhr_hook q) (xhr_uploadId q) (xhr_file q) e) w
  | Load x xhr_status responseText =>
      deliver x (fun q =>
        block [ set_readyState x DONE;
                on_load x (xhr_hook q) (xhr_uploadId q) (xhr_file q)
                  xhr_status responseText ]) w
  | NetworkError x =>
      deliver x (fun q =>
        block [ set_readyState x DONE;
                on_error (xhr_hook q) (xhr_uploadId q) (xhr_file q) ]) w
  end.

Definition run (w : World) (actions : list Action) : World :=
  fold_left step actions w.

(** ** The duplicate check and [handleFileSelect] *)

(** How a promise settles. *)
Inductive Settled (A : Type) :=
  | fulfilled (a : A)
  | rejected (reason : JsValue).
Arguments fulfilled {A} a.
Arguments rejected {A} reason.

Section DuplicateCheck.

(** [String.prototype.toLowerCase]. *)
Variable toLowerCase : JsString -> JsString.

(** The callback given to [find]; [None] when it throws a [TypeError]
    ([f] is [null], or [f.filename] is not a string). *)
Definition same_filename (filename : JsString) (f : JsValue) : option bool :=
  match member f (lit "filename") with
  | Some (JStr s) => Some (JsString_eqb (toLowerCase s) (toLowerCase filename))
  | _ => None
  end.

(** [Array.prototype.find]; the outer [None] when the callback throws. *)
Fixpoint Array_find (p : JsValue -> option bool) (l : list JsValue)
  : option (option JsValue) :=
  match l with
  | [] => Some None
  | f :: l' =>
      match p f with
      | None => None
      | Some true => Some (Some f)
      | Some false => Array_find p l'
      end
  end.

(** The [mutationFn] of [useCheckDuplicateFilename], given how
    [apiClient.get] settled: the file found, or [None] for [null]. Every
    exception ends in the [catch], which returns [null]. *)
Definition checkDuplicate_mutationFn (listing : Settled JsValue)
  (filename : JsString) : option JsValue :=
  match listing with
  | rejected _ => None
  | fulfilled response =>
      match member response (lit "files") with
      | Some (JArr files) =>
          match Array_find (same_filename filename) files with
          | Some (Some existingFile) => Some existingFile
          | _ => None
          end
      | _ => None
      end
  end.

End DuplicateCheck.

(** The state cells of the [FileUpload] component that [handleFileSelect]
    writes. *)
Record FileUploadComponent := {
  selectedFile : option File;
  showDuplicateDialog : bool;
  duplicateFile : option JsValue;
  validationError : option JsString
}.

(** [handleFileSelect] up to [await checkDuplicate.mutateAsync(file.name)];
    the flag tells whether it got there, or returned on a validation
    error. *)
Definition handleFileSelect_begin (file : File) (c : FileUploadComponent)
  : FileUploadComponent * bool :=
  let validation := validateFile file in
  if negb (valid validation) then
    ({| selectedFile := selectedFile c;
        showDuplicateDialog := showDuplicateDialog c;
        duplicateFile := duplicateFile c;
        validationError :=
          Some match error validation with
               | Some e => if truthy_string e then e
                           else lit "File validation failed"
               | None => lit "File validation failed"
               end |}, false)
  else
    ({| selectedFile := Some file;
        showDuplicateDialog := showDuplicateDialog c;
        duplicateFile := duplicateFile c;
        validationError := None |}, true).

(** [handleFileSelect] from the point where [mutateAsync] has settled, up
    to [await upload(file)]; [h] is the hook of the component. A rejection
    lands in the [catch] block. *)
Definition handleFileSelect_resume (h : nat) (file : File)
  (existing : Settled (option JsValue)) (c : FileUploadComponent) (w : World)
  : FileUploadComponent * World :=
  match existing with
  | fulfilled (Some existing) =>
      ({| selectedFile := selectedFile c;
          showDuplicateDialog := true;
          duplicateFile := Some existing;
          validationError := validationError c |}, w)
  | fulfilled None => (c, upload h file (emit onUploadStart w))
  | rejected _ => (c, upload h file (emit onUploadStart w))
  end.

(** The [catch] block also receives the rejection of [await upload(file)]
    in the [try] block: it starts the upload once more. *)
Definition handleFileSelect_upload_rejected (h : nat) (file : File)
  (w : World) : World :=
  upload h file (emit onUploadStart w).

(** ** The validator, as the specification words it *)

Inductive Violation :=
  | EmptyFile | TooLarge | EmptyName | NameTooLong | PathTraversal
  | InvalidCharacters | DisallowedPattern.

(** Each rule on its own. *)
Definition violates (v : Violation) (file : File) : bool :=
  match v with
  | EmptyFile => size file =? 0
  | TooLarge => MAX_FILE_SIZE <? size file
  | EmptyName =>
      negb (truthy_string (name file))
      || negb (truthy_string (trim (name file)))
  | NameTooLong => MAX_FILENAME_LENGTH <? N.of_nat (length (name file))
  | PathTraversal => includes (name file) (lit "..")
  | InvalidCharacters => invalidChars_test (name file)
  | DisallowedPattern => negb (ALLOWED_FILENAME_PATTERN_test (name file))
  end.

Definition message (v : Violation) : JsString :=
  match v with
  | EmptyFile => msg_EmptyFile
  | TooLarge => msg_TooLarge
  | EmptyName => msg_EmptyName
  | NameTooLong => msg_NameTooLong
  | PathTraversal => msg_PathTraversal
  | InvalidCharacters => msg_InvalidCharacters
  | DisallowedPattern => msg_DisallowedPattern
  end.

Definition precedence : list Violation :=
  [EmptyFile; TooLarge; EmptyName; NameTooLong; PathTraversal;
   InvalidCharacters; DisallowedPattern].

(** The first rule of [precedence] that the file violates, if any. *)
Definition first_violation (file : File) : option Violation :=
  List.find (fun v => violates v file) precedence.

Definition report (v : option Violation) : ValidationResult :=
  match v with
  | Some v => invalid (message v)
  | None => ok
  end.

(** ** What the properties are stated with *)

Definition preserves (P : World -> Prop) (f : World -> World) : Prop :=
  forall w, P w -> P (f w).

Definition assigned_status (s : UploadStatus) : Prop :=
  s = uploading \/ s = completed \/ s = failed.

Definition progress_ok (p : option FileUploadProgress) : Prop :=
  match p with
  | Some p => assigned_status (status p)
  | None => True
  end.

Definition effect_ok (e : Effect) : Prop :=
  match e with
  | setProgress_called _ _ p => progress_ok p
  | onProgress _ p => assigned_status (status p)
  | _ => True
  end.

Definition statuses_ok (w : World) : Prop :=
  Forall effect_ok (effects w) /\
  forall h, progress_ok (st_progress (hook w h)).

(** The progress a session last handed to [setProgress], if it has
    published any. *)
Definition last_published (id : JsString) (es : list Effect)
  : option (option FileUploadProgress) :=
  fold_left
    (fun acc e =>
       match e with
       | setProgress_called _ (Some id') p =>
           if JsString_eqb id id' then Some p else acc
       | _ => acc
       end) es None.

Definition published_status (w : World) (id : JsString) : option UploadStatus :=
  match last_published id (effects w) with
  | Some (Some p) => Some (status p)
  | _ => None
  end.

Definition registered (w : World) (id : JsString) : bool :=
  Map_has id (activeUploadCancelFunctions w).




Definition report_pdf : File := {| name := lit "report.pdf"; size := 1000 |}.


Definition in_flight (w : World) (x h : nat) (id : JsString) (file : File)
  : Prop :=
  xhrs w !! x =
  Some {| xhr_hook := h; xhr_uploadId := id; xhr_file := file;
          readyState := SENT; awaitingSession := false |}.

Definition progressData (file : File) (e : ProgressEvent) : FileUploadProgress :=
  {| filename := name file; loaded := e_loaded e; total := e_total e;
     percentage := percentage_of (e_loaded e) (e_total e);
     status := uploading; progress_error := None |}.

Definition progress_effects (h : nat) (id : JsString) (file : File)
  (e : ProgressEvent) : list Effect :=
  if lengthComputable e
  then [ setProgress_called h (Some id) (Some (progressData file e));
         onProgress id (progressData file e) ]
  else [].

(** The browser events addressed to one request. *)
Definition addressed_to (x : nat) (a : Action) : Prop :=
  match a with
  | SessionReady x' _ | UploadProgress x' _ | Load x' _ _ | NetworkError x' =>
      x' = x
  | _ => False
  end.

Definition report_response : JsString :=
  json_lit "{'file':{'filename':'report.pdf'},'message':'File uploaded'}".


Definition is_callback_of (id : JsString) (e : Effect) : bool :=
  match e with
  | onSuccess id' _ | onError id' _ => JsString_eqb id id'
  | _ => false
  end.

(** The calls of [options.onSuccess] and [options.onError] a session made. *)
Definition callbacks (id : JsString) (es : list Effect) : list Effect :=
  List.filter (is_callback_of id) es.

Definition is_settlement_of (id : JsString) (e : Effect) : bool :=
  match e with
  | resolve id' _ | reject id' _ => JsString_eqb id id'
  | _ => false
  end.

Definition bad_gateway : list Action :=
  [ Upload 0 report_pdf; SessionReady 0 None;
    Load 0 502 (lit "<html>502 Bad Gateway</html>") ].

Definition too_large (responseText : JsString) : list Action :=
  [ Upload 0 report_pdf; SessionReady 0 None; Load 0 413 responseText ].

Definition completed_upload : list Action :=
  [ Upload 0 report_pdf; SessionReady 0 None; Load 0 200 report_response ].

(** ** types/file.ts and FileCard: the kind of a file *)

(** [String.prototype.split] with a separator of one code unit: the
    segments between the separators, at least one. *)
Fixpoint split (sep : N) (s : JsString) : list JsString :=
  match s with
  | [] => [[]]
  | c :: s' =>
      if c =? sep then [] :: split sep s'
      else
        match split sep s' with
        | seg :: segs => (c :: seg) :: segs
        | [] => [[c]]
        end
  end.

(** [Array.prototype.pop]: the last element, [None] for [undefined]. *)
Definition Array_pop (l : list JsString) : option JsString := last l.

(** [Array.prototype.includes] on strings. *)
Definition Array_includes (l : list JsString) (x : JsString) : bool :=
  existsb (JsString_eqb x) l.

Definition IMAGE_EXTENSIONS : list JsString :=
  [lit ".jpg"; lit ".jpeg"; lit ".png"; lit ".gif"; lit ".webp"; lit ".bmp"].

Section FileKind.

(** [String.prototype.toLowerCase]. *)
Variable toLowerCase : JsString -> JsString.

Definition isImageFile (filename : JsString) : bool :=
  match Array_pop (split 46 (toLowerCase filename)) with
  | Some ext =>
      if truthy_string ext then Array_includes IMAGE_EXTENSIONS (lit "." ++ ext)
      else false
  | None => false
  end.

Definition getFileType (filename : JsString) : JsString :=
  let ext :=
    match Array_pop (split 46 (toLowerCase filename)) with
    | Some e => if truthy_string e then e else []
    | None => []
    end in
  if Array_includes
       [lit "jpg"; lit "jpeg"; lit "png"; lit "gif"; lit "webp"; lit "bmp"] ext
  then lit "image"
  else if Array_includes [lit "pdf"] ext then lit "pdf"
  else if Array_includes [lit "doc"; lit "docx"] ext then lit "document"
  else if Array_includes [lit "zip"; lit "rar"; lit "7z"; lit "tar"; lit "gz"] ext
  then lit "archive"
  else if Array_includes [lit "mp4"; lit "avi"; lit "mkv"; lit "mov"] ext
  then lit "video"
  else if Array_includes [lit "mp3"; lit "wav"; lit "flac"; lit "aac"] ext
  then lit "audio"
  else lit "file".

End FileKind.

(** ** lib/api.ts *)

(** What [fetch] hands back: the status, the status text and the body. *)
Record Response := {
  resp_status : N;
  statusText : JsString;
  resp_body : JsString
}.

(** [response.ok]: the status is in the range 200 to 299. *)
Definition Response_ok (r : Response) : bool :=
  (200 <=? resp_status r) && (resp_status r <=? 299).

(** [response.json()]: [None] when the promise rejects with a
    [SyntaxError]. *)
Definition Response_json (r : Response) : option JsValue :=
  JSON_parse (resp_body r).

Record ApiError := {
  api_message : JsValue;
  api_code : JsValue;
  api_details : JsValue
}.

(** [ApiClient.handleError]. Reading [errorData.message] from [null] throws
    inside the [try], before anything is assigned, and lands in the [catch]
    like a body that is not JSON. *)
Definition handleError (response : Response) : ApiError :=
  let errorMessage :=
    JStr (lit "Request failed with status " ++ Number_toString (resp_status response)) in
  let caught :=
    {| api_message := js_or (JStr (statusText response)) errorMessage;
       api_code := JUndefined;
       api_details := JUndefined |} in
  match Response_json response with
  | Some errorData =>
      match member errorData (lit "message") with
      | Some message =>
          {| api_message :=
               js_or (js_or message (own_property errorData (lit "error")))
                 errorMessage;
             api_code := own_property errorData (lit "code");
             api_details := own_property errorData (lit "details") |}
      | None => caught
      end
  | None => caught
  end.

(** The object that [get] throws. *)
Definition ApiError_value (e : ApiError) : JsValue :=
  JObj [ (lit "message", api_message e); (lit "code", api_code e);
         (lit "details", api_details e) ].

(** How the request ended: [getAuthHeaders] or [fetch] rejected (no
    response), or [fetch] answered. *)
Inductive FetchOutcome :=
  | fetch_failed (reason : JsValue)
  | responded (response : Response).

Definition SyntaxError : JsValue := JObj [(lit "name", JStr (lit "SyntaxError"))].

(** [ApiClient.get], given how its [fetch] ended. *)
Definition ApiClient_get (o : FetchOutcome) : Settled JsValue :=
  match o with
  | fetch_failed reason => rejected reason
  | responded response =>
      if negb (Response_ok response)
      then rejected (ApiError_value (handleError response))
      else
        match Response_json response with
        | Some v => fulfilled v
        | None => rejected SyntaxError
        end
  end.

(** ** components/FileUpload.tsx: the other handlers *)

Definition handleConfirmOverwrite (h : nat) (c : FileUploadComponent) (w : World)
  : FileUploadComponent * World :=
  match selectedFile c with
  | None => (c, w)
  | Some file =>
      ({| selectedFile := selectedFile c;
          showDuplicateDialog := false;
          duplicateFile := None;
          validationError := validationError c |},
       upload h file (emit onUploadStart w))
  end.

Definition handleCancelOverwrite (c : FileUploadComponent) : FileUploadComponent :=
  {| selectedFile := None;
     showDuplicateDialog := false;
     duplicateFile := None;
     validationError := validationError c |}.

(** [handleRetry] up to the duplicate check of the file it retries:
    [None] when there is no selected file, and nothing happens. *)
Definition handleRetry (c : FileUploadComponent)
  : option (File * (FileUploadComponent * bool)) :=
  match selectedFile c with
  | Some file =>
      Some (file,
            handleFileSelect_begin file
              {| selectedFile := selectedFile c;
                 showDuplicateDialog := showDuplicateDialog c;
                 duplicateFile := duplicateFile c;
                 validationError := None |})
  | None => None
  end.

Definition listing_response : Response :=
  {| resp_status := 200; statusText := lit "OK";
     resp_body :=
       json_lit "{'files':[{'filename':'a.txt'},{'filename':'report.pdf'}],'total':2}" |}.


(** ** Sessions of the upload hook *)

(** The id of the [n]-th upload of the process. *)
Definition upload_id (n : N) : JsString := lit "upload-" ++ Number_toString n.

(** A request that can still deliver an event to its listeners: it is in
    flight, or [getTokenAndSend] has yet to send it. *)
Definition live (q : Xhr) : bool :=
  match readyState q with
  | SENT => true
  | _ => awaitingSession q
  end.

(** The calls of [onSuccess] and [onError] and the settlements of the
    promise of one session, in order. *)
Definition outcomes (id : JsString) (es : list Effect) : list Effect :=
  List.filter (fun e => is_callback_of id e || is_settlement_of id e) es.

(** A callback and the settlement that goes with it. *)
Definition outcome_pair (id : JsString) (cb st : Effect) : Prop :=
  (exists response, cb = onSuccess id response /\ st = resolve id response) \/
  (exists message, cb = onError id message /\ st = reject id message).

(** What holds of the sessions after every move: the requests carry
    distinct identifiers that the counter issued, only such identifiers
    have outcomes, a request that is still live has none, a request in
    flight no longer waits for the session token, and the outcomes of one
    identifier are none or one pair. *)
Record sessions_ok (w : World) : Prop := {
  ids_issued :
    forall x q, xhrs w !! x = Some q ->
      exists n, 1 <= n <= uploadIdCounter w /\ xhr_uploadId q = upload_id n;
  ids_distinct :
    forall x x' q q', xhrs w !! x = Some q -> xhrs w !! x' = Some q' ->
      xhr_uploadId q = xhr_uploadId q' -> x = x';
  outcomes_issued :
    forall id, outcomes id (effects w) <> [] ->
      exists n, 1 <= n <= uploadIdCounter w /\ id = upload_id n;
  live_pending :
    forall x q, xhrs w !! x = Some q -> live q = true ->
      outcomes (xhr_uploadId q) (effects w) = [];
  sent_not_awaiting :
    forall x q, xhrs w !! x = Some q -> readyState q = SENT ->
      awaitingSession q = false;
  settled_once :
    forall id,
      outcomes id (effects w) = [] \/
      exists cb st, outcomes id (effects w) = [cb; st] /\ outcome_pair id cb st
}.

(** How the requests of one world come from those of an earlier one when
    no request is created: the same ids at the same places, and no request
    becomes live again. *)
Definition xhrs_evolve (l l' : list Xhr) : Prop :=
  forall y q', l' !! y = Some q' ->
    exists q, l !! y = Some q /\ xhr_uploadId q' = xhr_uploadId q /\
              (live q' = true -> live q = true) /\
              (readyState q' = SENT -> awaitingSession q' = false).

(** What the [load] listener announces, by the status and the body. *)
Definition load_effects (x h : nat) (uploadId : JsString) (file : File)
  (xhr_status : N) (responseText : JsString) : list Effect :=
  if (200 <=? xhr_status) && (xhr_status <? 300) then
    match JSON_parse responseText with
    | Some response =>
        [ setProgress_called h (Some uploadId)
            (Some {| filename := name file; loaded := size file;
                     total := size file; percentage := 100;
                     status := completed; progress_error := None |});
          invalidateQueries;
          onSuccess uploadId response;
          resolve uploadId response ]
    | None =>
        let errorMsg := JStr (lit "Failed to parse server response") in
        [ setProgress_called h (Some uploadId)
            (Some {| filename := name file; loaded := size file;
                     total := size file; percentage := 100;
                     status := failed; progress_error := Some errorMsg |});
          onError uploadId errorMsg;
          reject uploadId errorMsg ]
    end
  else
    match JSON_parse responseText with
    | None => [uncaught_exception x]
    | Some errorResponse =>
        match member errorResponse (lit "detail") with
        | None => [uncaught_exception x]
        | Some detail =>
            let errorMsg :=
              js_or (js_or (optional_member detail (lit "message")) detail)
                (JStr (lit "Upload failed with status "
                       ++ Number_toString xhr_status)) in
            [ setProgress_called h (Some uploadId)
                (Some {| filename := name file; loaded := 0;
                         total := size file; percentage := 0;
                         status := failed; progress_error := Some errorMsg |});
              onError uploadId errorMsg;
              reject uploadId errorMsg ]
        end
    end.

(** A step that creates no request and only adds effects. *)
Definition appends (w w' : World) (new : list Effect) : Prop :=
  xhrs w' = xhrs w /\ uploadIdCounter w' = uploadIdCounter w /\
  effects w' = effects w ++ new.

(** ** hooks/usePagination.ts *)

(** [Math.ceil]. *)
Definition Math_ceil (x : Q) : Z := Qceiling x.

(** The state cells of [usePagination]. The Numbers in them are integers:
    [page] starts at 1 and moves by 1 or to a bound, and [pageSize] and
    [totalItems] count items. *)
Record Pagination := {
  page : Z;
  pageSize : N;
  totalItems : N
}.

Definition usePagination (initialPageSize : N) : Pagination :=
  {| page := 1; pageSize := initialPageSize; totalItems := 0 |}.

(** [Math.max(1, Math.ceil(totalItems / pageSize))], the division being
    the one of Numbers. *)
Definition totalPages (s : Pagination) : Z :=
  Z.max 1
    (Math_ceil (Double.div (inject_Z (Z.of_N (totalItems s)))
                  (inject_Z (Z.of_N (pageSize s))))).

Definition setPageState (p : Z) (s : Pagination) : Pagination :=
  {| page := p; pageSize := pageSize s; totalItems := totalItems s |}.

Definition setPage (newPage : Z) (s : Pagination) : Pagination :=
  let boundedPage := Z.max 1 (Z.min newPage (totalPages s)) in
  setPageState boundedPage s.

Definition nextPage (s : Pagination) : Pagination :=
  if (page s <? totalPages s)%Z then setPageState (page s + 1) s else s.

Definition previousPage (s : Pagination) : Pagination :=
  if (1 <? page s)%Z then setPageState (page s - 1) s else s.

Definition firstPage (s : Pagination) : Pagination := setPageState 1 s.

Definition lastPage (s : Pagination) : Pagination :=
  setPageState (totalPages s) s.

Definition setTotalItems (total : N) (s : Pagination) : Pagination :=
  {| page := page s; pageSize := pageSize s; totalItems := total |}.

Definition canGoNext (s : Pagination) : bool := (page s <? totalPages s)%Z.

Definition canGoPrevious (s : Pagination) : bool := (1 <? page s)%Z.

(** The moves that [usePagination] returns, other than [setTotalItems]. *)
Inductive PagerMove :=
  | GoFirst | GoPrevious | GoNext | GoLast | GoTo (newPage : Z).

Definition pager_move (m : PagerMove) (s : Pagination) : Pagination :=
  match m with
  | GoFirst => firstPage s
  | GoPrevious => previousPage s
  | GoNext => nextPage s
  | GoLast => lastPage s
  | GoTo newPage => setPage newPage s
  end.

Definition getOffset (page : Z) (pageSize : N) : Z :=
  ((page - 1) * Z.of_N pageSize)%Z.

(** The text of an integer in a template literal. *)
Definition Integer_toString (z : Z) : JsString :=
  match z with
  | Zneg p => lit "-" ++ Number_toString (Npos p)
  | _ => Number_toString (Z.to_N z)
  end.

Definition range_start (page : Z) (pageSize : N) : Z :=
  ((page - 1) * Z.of_N pageSize + 1)%Z.

Definition range_end (page : Z) (pageSize totalItems : N) : Z :=
  Z.min (page * Z.of_N pageSize) (Z.of_N totalItems).

Definition getPageRangeText (page : Z) (pageSize totalItems : N) : JsString :=
  if totalItems =? 0 then lit "No items"
  else
    let start := range_start page pageSize in
    let end_ := range_end page pageSize totalItems in
    Integer_toString start ++ lit "-" ++ Integer_toString end_ ++ lit " of "
    ++ Number_toString totalItems ++ lit " items".

(** What happens to the pager: a move of the user, or a new total from the
    listing ([FileList] hands [data.total] to [setTotalItems]). *)
Inductive PagerEvent :=
  | Moved (m : PagerMove)
  | TotalChanged (total : N).

Definition pager_step (s : Pagination) (ev : PagerEvent) : Pagination :=
  match ev with
  | Moved m => pager_move m s
  | TotalChanged total => setTotalItems total s
  end.

Definition within_bounds (s : Pagination) : Prop :=
  (1 <= page s <= totalPages s)%Z.

(** ** lib/api.ts: [uploadFile] *)


(** ** pages/Dashboard.tsx: the count of active uploads *)

(** The updater functions handed to [setActiveUploads]. *)
Definition handleUploadStart (prev : Z) : Z := (prev + 1)%Z.
Definition handleUploadSuccess (prev : Z) : Z := Z.max 0 (prev - 1).
Definition handleUploadError (prev : Z) : Z := Z.max 0 (prev - 1).

(** What reaches the dashboard: the three callbacks it hands to
    [FileUpload], and the confirmation of a logout, which sets the count
    to 0. *)
Inductive DashboardEvent :=
  | UploadStarted | UploadSucceeded | UploadFailed | LogoutConfirmed.

Definition dashboard_step (activeUploads : Z) (ev : DashboardEvent) : Z :=
  match ev with
  | UploadStarted => handleUploadStart activeUploads
  | UploadSucceeded => handleUploadSuccess activeUploads
  | UploadFailed => handleUploadError activeUploads
  | LogoutConfirmed => 0%Z
  end.

(** [activeUploads] after the events, from the initial [useState(0)]. *)
Definition activeUploads (evs : list DashboardEvent) : Z :=
  fold_left dashboard_step evs 0%Z.

Definition is_start (ev : DashboardEvent) : bool :=
  match ev with UploadStarted => true | _ => false end.

Definition is_finish (ev : DashboardEvent) : bool :=
  match ev with UploadSucceeded | UploadFailed => true | _ => false end.

Definition is_logout (ev : DashboardEvent) : bool :=
  match ev with LogoutConfirmed => true | _ => false end.

Definition started (evs : list DashboardEvent) : Z :=
  Z.of_nat (length (List.filter is_start evs)).

Definition finished (evs : list DashboardEvent) : Z :=
  Z.of_nat (length (List.filter is_finish evs)).

(** ** The refs of the hooks and the registry *)

(** The hook and the identifier of every request, in the order of
    creation. *)
Definition requests (w : World) : list (nat * JsString) :=
  (fun q => (xhr_hook q, xhr_uploadId q)) <$> xhrs w.

Definition issued (w : World) (id : JsString) : Prop :=
  exists n, 1 <= n <= uploadIdCounter w /\ id = upload_id n.

(** What holds of the refs and the registry after every move: an
    identifier in [uploadIdRef] is registered under its own hook if at
    all, [xhrRef] holds a request that the hook created, a registered
    identifier belongs to requests of the registered hook, and every
    identifier around was issued by the counter. *)
Record refs_ok (w : World) : Prop := {
  uploadIdRef_registered : forall h h' id,
    uploadIdRef (hook w h) = Some id ->
    Map_get id (activeUploadCancelFunctions w) = Some h' -> h' = h;
  xhrRef_created : forall h x,
    xhrRef (hook w h) = Some x -> exists id, requests w !! x = Some (h, id);
  registered_creator : forall x h h' id,
    requests w !! x = Some (h, id) ->
    Map_get id (activeUploadCancelFunctions w) = Some h' -> h' = h;
  registered_issued : forall id h,
    Map_get id (activeUploadCancelFunctions w) = Some h -> issued w id;
  uploadIdRef_issued : forall h id,
    uploadIdRef (hook w h) = Some id -> issued w id;
  requests_issued : forall x h id,
    requests w !! x = Some (h, id) -> issued w id }.

(** The request [x] is in flight. *)
Definition sent (w : World) (x : nat) : Prop :=
  exists q, xhrs w !! x = Some q /\ readyState q = SENT.

(** * Properties *)

(** ** Strings *)

Lemma trimStart_nonempty (s : JsString) :
  existsb (fun c => negb (isWhiteSpace c)) s = true ->
  existsb (fun c => negb (isWhiteSpace c)) (trimStart s) = true.
Proof.
  induction s as [|c s IH]; simpl; [done|].
  destruct (isWhiteSpace c) eqn:Hc; simpl; [exact IH|].
  intros _. by rewrite Hc.
Qed.

Lemma existsb_rev {A} (f : A -> bool) (l : list A) :
  existsb f (rev l) = existsb f l.
Proof.
  induction l as [|a l IH]; simpl; [done|].
  rewrite existsb_app, IH. simpl. rewrite orb_false_r. apply orb_comm.
Qed.

Lemma trim_truthy (s : JsString) :
  existsb (fun c => negb (isWhiteSpace c)) s = true ->
  truthy_string (trim s) = true.
Proof.
  intros H. unfold trim, trimEnd.
  apply trimStart_nonempty in H.
  rewrite <- existsb_rev in H. apply trimStart_nonempty in H.
  rewrite <- existsb_rev in H.
  destruct (rev (trimStart (rev (trimStart s)))); [discriminate|done].
Qed.

Lemma includes_head (s p : JsString) (a : N) :
  includes s (a :: p) = true -> existsb (N.eqb a) s = true.
Proof.
  induction s as [|c s IH]; [discriminate|].
  cbn [includes startsWith existsb]. intros H.
  apply orb_true_iff in H as [H|H].
  - apply andb_true_iff in H as [H _]. by rewrite H.
  - rewrite (IH H). apply orb_true_r.
Qed.

Lemma includes_dots_not_blank (s : JsString) :
  includes s (lit "..") = true ->
  existsb (fun c => negb (isWhiteSpace c)) s = true.
Proof.
  intros H. apply (includes_head s [46] 46) in H.
  apply existsb_exists in H as (c & Hin & Hc).
  apply N.eqb_eq in Hc. subst c.
  apply existsb_exists. by exists 46.
Qed.

(** ** Validation *)

Lemma validateFile_first_violation (file : File) :
  validateFile file = report (first_violation file).
Proof.
  unfold validateFile, validateFileSize, validateFilename, first_violation.
  simpl.
  destruct (size file =? 0); [done|].
  destruct (MAX_FILE_SIZE <? size file); [done|]. simpl.
  destruct (negb (truthy_string (name file))
            || negb (truthy_string (trim (name file)))); [done|].
  destruct (MAX_FILENAME_LENGTH <? N.of_nat (length (name file))); [done|].
  destruct (includes (name file) (lit "..")); [done|].
  destruct (invalidChars_test (name file)); [done|].
  destruct (negb (ALLOWED_FILENAME_PATTERN_test (name file))); done.
Qed.

(** C6, as stated, fails: a name containing [..] is not reported as a path
    traversal when an earlier rule applies. Here the file is empty. *)
Lemma C6_counterexample :
  ~ (forall file : File,
       includes (name file) (lit "..") = true ->
       validateFile file = invalid msg_PathTraversal).
Proof.
  intros H.
  specialize (H {| name := lit "a..b"; size := 0 |} eq_refl).
  vm_compute in H. discriminate H.
Qed.

(** C6, amended: [validateFile] reports the first violated rule in the order
    empty file, too large, empty name, name too long, path traversal,
    invalid characters, disallowed pattern; and a name that contains [..]
    is reported as a path traversal whatever later rule it also violates,
    provided the size is accepted and the name has at most 255 code units. *)
Theorem C6_validate_precedence (file : File) :
  validateFile file = report (first_violation file) /\
  (size file <> 0 -> size file <= MAX_FILE_SIZE ->
   N.of_nat (length (name file)) <= MAX_FILENAME_LENGTH ->
   includes (name file) (lit "..") = true ->
   validateFile file = invalid msg_PathTraversal).
Proof.
  split; [apply validateFile_first_violation|].
  intros Hsize Hmax Hlen Hdots.
  rewrite validateFile_first_violation.
  unfold first_violation. simpl.
  apply N.eqb_neq in Hsize. rewrite Hsize.
  apply N.ltb_ge in Hmax. rewrite Hmax.
  rewrite (trim_truthy _ (includes_dots_not_blank _ Hdots)).
  destruct (name file) as [|c s] eqn:Hname; [discriminate Hdots|].
  simpl truthy_string. simpl negb. simpl orb.
  apply N.ltb_ge in Hlen. rewrite Hlen.
  rewrite Hdots. done.
Qed.

Lemma C6_validate_precedence_witness :
  validateFile {| name := lit "../<etc>"; size := 10 |}
  = invalid msg_PathTraversal.
Proof.
  apply (C6_validate_precedence {| name := lit "../<etc>"; size := 10 |}).
  - simpl. lia.
  - vm_compute. discriminate.
  - vm_compute. discriminate.
  - vm_compute. reflexivity.
Defined.

(** ** Reading the state after an update *)

Lemma hook_update_hook_eq (h : nat) (f : Hook -> Hook) (w : World) :
  hook (update_hook h f w) h = f (hook w h).
Proof. unfold hook, update_hook. simpl. by rewrite lookup_insert_eq. Qed.

Lemma hook_update_hook_ne (h h' : nat) (f : Hook -> Hook) (w : World) :
  h <> h' -> hook (update_hook h f w) h' = hook w h'.
Proof.
  intros Hne. unfold hook, update_hook. simpl. by rewrite lookup_insert_ne.
Qed.

Lemma hook_update_hook (h h' : nat) (f : Hook -> Hook) (w : World) :
  hook (update_hook h f w) h' = if decide (h = h') then f (hook w h) else hook w h'.
Proof.
  case_decide as Heq.
  - subst h'. apply hook_update_hook_eq.
  - by apply hook_update_hook_ne.
Qed.

Lemma hook_emit (e : Effect) (w : World) (h : nat) :
  hook (emit e w) h = hook w h.
Proof. reflexivity. Qed.

Lemma hook_update_registry f (w : World) (h : nat) :
  hook (update_registry f w) h = hook w h.
Proof. reflexivity. Qed.

Lemma hook_update_xhr (x : nat) f (w : World) (h : nat) :
  hook (update_xhr x f w) h = hook w h.
Proof. reflexivity. Qed.

Lemma hook_set_uploadIdCounter (n : N) (w : World) (h : nat) :
  hook (set_uploadIdCounter n w) h = hook w h.
Proof. reflexivity. Qed.

Lemma hook_new_XMLHttpRequest (q : Xhr) (w : World) (h : nat) :
  hook (new_XMLHttpRequest q w) h = hook w h.
Proof. reflexivity. Qed.

(** Unfolds the statements of a handler down to the primitive updates. *)
Ltac unfold_updates :=
  unfold on_abort, on_error, getTokenAndSend_resume,
    setProgress, setUploading, setError, set_xhrRef,
    set_uploadIdRef, set_readyState, set_awaitingSession in *;
  cbn [block fold_left] in *.

(** Reads a field of a world, or a hook of it, through the updates. *)
Ltac read_state :=
  unfold_updates;
  repeat first
    [ rewrite hook_update_hook_eq
    | rewrite hook_emit
    | rewrite hook_update_registry
    | rewrite hook_update_xhr
    | rewrite hook_set_uploadIdCounter
    | rewrite hook_new_XMLHttpRequest
    | progress cbn [activeUploadCancelFunctions uploadIdCounter hooks xhrs
                    effects update_hook emit update_registry update_xhr
                    set_uploadIdCounter new_XMLHttpRequest
                    st_progress st_uploading st_error xhrRef uploadIdRef] ].

Lemma validateFile_empty (file : File) :
  size file = 0 -> validateFile file = invalid msg_EmptyFile.
Proof.
  intros H. unfold validateFile, validateFileSize. by rewrite H.
Qed.

(** The validation-failure branch of [upload]. *)
Lemma upload_invalid (h : nat) (file : File) (w : World) (msg : JsString) :
  validateFile file = invalid msg -> truthy_string msg = true ->
  upload h file w =
  block [ set_uploadIdCounter (uploadIdCounter w + 1);
          set_uploadIdRef h (Some (next_uploadId w));
          setUploading h true;
          setError h None;
          setProgress h (Some (next_uploadId w))
            (Some {| filename := name file; loaded := 0; total := size file;
                     percentage := 0; status := uploading;
                     progress_error := None |});
          setError h (Some (JStr msg));
          setUploading h false;
          update_registry (Map_delete (next_uploadId w));
          set_uploadIdRef h None;
          emit (onError (next_uploadId w) (JStr msg));
          emit (reject (next_uploadId w) (JStr msg)) ] w.
Proof.
  intros Hv Hmsg. unfold upload. rewrite Hv. simpl valid. simpl error.
  cbn [negb]. rewrite Hmsg. reflexivity.
Qed.

(** The branch of [upload] taken by a file that passes validation. *)
Lemma upload_valid (h : nat) (file : File) (w : World) :
  valid (validateFile file) = true ->
  upload h file w =
  block [ set_uploadIdCounter (uploadIdCounter w + 1);
          set_uploadIdRef h (Some (next_uploadId w));
          setUploading h true;
          setError h None;
          setProgress h (Some (next_uploadId w))
            (Some {| filename := name file; loaded := 0; total := size file;
                     percentage := 0; status := uploading;
                     progress_error := None |});
          new_XMLHttpRequest
            {| xhr_hook := h; xhr_uploadId := next_uploadId w; xhr_file := file;
               readyState := UNSENT; awaitingSession := true |};
          set_xhrRef h (Some (length (xhrs w)));
          update_registry (Map_set (next_uploadId w) h) ] w.
Proof.
  intros Hv. unfold upload. rewrite Hv. reflexivity.
Qed.

Lemma Map_delete_nil (k : JsString) : Map_delete k [] = [].
Proof. reflexivity. Qed.

(** C8: a file of declared size 0 fails validation with the empty-file
    message before anything else happens: no request is created and nothing
    is sent, the only effects are the initial progress, the error callback
    and the rejection of the promise with that message, no entry is added to
    the registry (an empty registry stays empty), and the hook ends with the
    message as its error and not uploading. *)
Theorem C8_empty_file_rejected (h : nat) (file : File) (w : World) :
  size file = 0 ->
  let w' := upload h file w in
  let uploadId := next_uploadId w in
  validateFile file = invalid msg_EmptyFile /\
  xhrs w' = xhrs w /\
  effects w' =
    effects w ++
    [ setProgress_called h (Some uploadId)
        (Some {| filename := name file; loaded := 0; total := size file;
                 percentage := 0; status := uploading;
                 progress_error := None |});
      onError uploadId (JStr msg_EmptyFile);
      reject uploadId (JStr msg_EmptyFile) ] /\
  activeUploadCancelFunctions w' =
    Map_delete uploadId (activeUploadCancelFunctions w) /\
  (activeUploadCancelFunctions w = [] -> activeUploadCancelFunctions w' = []) /\
  st_error (hook w' h) = Some (JStr msg_EmptyFile) /\
  st_uploading (hook w' h) = false.
Proof.
  intros Hsize w' uploadId. subst w' uploadId.
  pose proof (validateFile_empty file Hsize) as Hv.
  rewrite (upload_invalid h file w msg_EmptyFile Hv eq_refl).
  split; [exact Hv|].
  split; [reflexivity|].
  split; [read_state; by rewrite <- !app_assoc|].
  split; [reflexivity|].
  split; [intros Hempty; read_state; by rewrite Hempty|].
  split; read_state; reflexivity.
Qed.

Lemma C8_empty_file_rejected_witness :
  xhrs (upload 0 {| name := lit "empty.txt"; size := 0 |} initial_world) = [] /\
  activeUploadCancelFunctions
    (upload 0 {| name := lit "empty.txt"; size := 0 |} initial_world) = [].
Proof.
  destruct (C8_empty_file_rejected 0 {| name := lit "empty.txt"; size := 0 |}
              initial_world eq_refl)
    as (_ & Hx & _ & _ & Hreg & _).
  split; [exact Hx | exact (Hreg eq_refl)].
Defined.

(** ** Invariants of [step] *)

Lemma preserves_block (P : World -> Prop) (stmts : list (World -> World)) :
  Forall (preserves P) stmts -> preserves P (block stmts).
Proof.
  unfold block. induction 1 as [|f stmts Hf _ IH]; intros w Hw; simpl.
  - exact Hw.
  - apply IH, Hf, Hw.
Qed.

(** One goal for each statement of a block. *)
Ltac each_statement :=
  repeat match goal with
         | |- Forall _ (_ :: _) => apply List.Forall_cons
         | |- Forall _ [] => apply List.Forall_nil
         end.

Lemma preserves_forEach_cancelFn (P : World -> Prop) :
  (forall h, preserves P (cancel h)) ->
  forall keys, preserves P (forEach_cancelFn keys).
Proof.
  intros Hcancel keys. induction keys as [|k keys IH]; intros w Hw; simpl.
  - exact Hw.
  - destruct (Map_get k (activeUploadCancelFunctions w)) as [h|].
    + apply IH, Hcancel, Hw.
    + apply IH, Hw.
Qed.

Lemma preserves_run (P : World -> Prop) :
  (forall a, preserves P (fun w => step w a)) ->
  forall actions w, P w -> P (run w actions).
Proof.
  intros Hstep actions. unfold run.
  induction actions as [|a actions IH]; intros w Hw; simpl.
  - exact Hw.
  - apply IH, Hstep, Hw.
Qed.

(** An invariant kept by the primitive updates the handlers are made of is
    an invariant of every move. The premises say in which form each
    primitive is used. *)
Section StepInvariant.

Variable P : World -> Prop.

Hypothesis P_setUploading : forall h b, preserves P (setUploading h b).
Hypothesis P_setError : forall h e, preserves P (setError h e).
Hypothesis P_set_uploadIdRef_None :
  forall h, preserves P (set_uploadIdRef h None).
Hypothesis P_set_readyState : forall x r, preserves P (set_readyState x r).
Hypothesis P_set_awaitingSession :
  forall x b, preserves P (set_awaitingSession x b).
Hypothesis P_emit_callback :
  forall e,
    match e with setProgress_called _ _ _ | onProgress _ _ => False | _ => True end ->
    preserves P (emit e).
Hypothesis P_clear : preserves P (update_registry (fun _ => [])).

(** A session publishes a progress value with status [uploading] while it
    runs. *)
Hypothesis P_publish_uploading :
  forall h id p, status p = uploading ->
    preserves P (setProgress h (Some id) (Some p)).
Hypothesis P_onProgress :
  forall id p, status p = uploading -> preserves P (emit (onProgress id p)).
(** It publishes [completed], [failed] or [null] only together with its
    removal from the registry. *)
Hypothesis P_publish_terminal :
  forall h id p,
    match p with
    | Some p => status p = completed \/ status p = failed
    | None => True
    end ->
    preserves P (fun w =>
      update_registry (Map_delete id) (setProgress h (Some id) p w)).
Hypothesis P_delete : forall id, preserves P (update_registry (Map_delete id)).
(** [cancel] publishes [null] on behalf of the hook. *)
Hypothesis P_publish_cancel : forall h, preserves P (setProgress h None None).
(** [upload] starts a session, and registers it if the file is valid. *)
Hypothesis P_start :
  forall h file w, P w ->
    P (block [ set_uploadIdCounter (uploadIdCounter w + 1);
               set_uploadIdRef h (Some (next_uploadId w));
               setUploading h true;
               setError h None;
               setProgress h (Some (next_uploadId w))
                 (Some {| filename := name file; loaded := 0;
                          total := size file; percentage := 0;
                          status := uploading; progress_error := None |}) ] w).
Hypothesis P_register :
  forall h file w, P w ->
    let w1 :=
      block [ set_uploadIdCounter (uploadIdCounter w + 1);
              set_uploadIdRef h (Some (next_uploadId w));
              setUploading h true;
              setError h None;
              setProgress h (Some (next_uploadId w))
                (Some {| filename := name file; loaded := 0;
                         total := size file; percentage := 0;
                         status := uploading; progress_error := None |}) ] w in
    P (block [ new_XMLHttpRequest
                 {| xhr_hook := h; xhr_uploadId := next_uploadId w;
                    xhr_file := file; readyState := UNSENT;
                    awaitingSession := true |};
               set_xhrRef h (Some (length (xhrs w1)));
               update_registry (Map_set (next_uploadId w) h) ] w1).

Lemma P_on_terminal h id p (e1 e2 : Effect) e :
  match p with
  | Some p => status p = completed \/ status p = failed
  | None => True
  end ->
  match e1 with setProgress_called _ _ _ | onProgress _ _ => False | _ => True end ->
  match e2 with setProgress_called _ _ _ | onProgress _ _ => False | _ => True end ->
  preserves P (block [ setError h e; setUploading h false;
                       setProgress h (Some id) p;
                       update_registry (Map_delete id);
                       set_uploadIdRef h None; emit e1; emit e2 ]).
Proof.
  intros Hp He1 He2 w Hw. cbn [block fold_left].
  apply P_emit_callback; [exact He2|].
  apply P_emit_callback; [exact He1|].
  apply P_set_uploadIdRef_None.
  apply (P_publish_terminal h id p Hp).
  apply P_setUploading, P_setError, Hw.
Qed.

Lemma P_on_abort h id : preserves P (on_abort h id).
Proof. unfold on_abort. by apply P_on_terminal. Qed.

Lemma P_on_error h id file : preserves P (on_error h id file).
Proof. unfold on_error. apply P_on_terminal; simpl; auto. Qed.

Lemma P_on_progress h id file e : preserves P (on_progress h id file e).
Proof.
  unfold on_progress. destruct (lengthComputable e).
  - intros w Hw. cbn [block fold_left].
    apply P_onProgress; [reflexivity|].
    apply P_publish_uploading; [reflexivity|exact Hw].
  - intros w Hw. exact Hw.
Qed.

Lemma P_on_load x h id file st text : preserves P (on_load x h id file st text).
Proof.
  unfold on_load.
  destruct ((200 <=? st) && (st <? 300)).
  - destruct (JSON_parse text) as [response|].
    + intros w Hw. cbn [block fold_left].
      apply P_emit_callback; [exact I|].
      apply P_emit_callback; [exact I|].
      apply P_set_uploadIdRef_None.
      pose proof (P_publish_terminal h id
        (Some {| filename := name file; loaded := size file;
                 total := size file; percentage := 100;
                 status := completed; progress_error := None |})) as Hterm.
      (* the two statements between the publication and the removal do not
         touch what the other reads *)
      change (P (update_registry (Map_delete id)
                   (setUploading h false
                      (emit invalidateQueries
                         (setProgress h (Some id)
                            (Some {| filename := name file;
                                     loaded := size file; total := size file;
                                     percentage := 100; status := completed;
                                     progress_error := None |}) w))))).
      replace (update_registry (Map_delete id)
                 (setUploading h false
                    (emit invalidateQueries
                       (setProgress h (Some id)
                          (Some {| filename := name file;
                                   loaded := size file; total := size file;
                                   percentage := 100; status := completed;
                                   progress_error := None |}) w))))
        with (setUploading h false
                (emit invalidateQueries
                   (update_registry (Map_delete id)
                      (setProgress h (Some id)
                         (Some {| filename := name file;
                                  loaded := size file; total := size file;
                                  percentage := 100; status := completed;
                                  progress_error := None |}) w))))
        by reflexivity.
      apply P_setUploading. apply P_emit_callback; [exact I|].
      apply Hterm; [simpl; auto | exact Hw].
    + apply P_on_terminal; simpl; auto.
  - destruct (JSON_parse text) as [errorResponse|].
    + destruct (member errorResponse (lit "detail")) as [detail|].
      * apply P_on_terminal; simpl; auto.
      * by apply P_emit_callback.
    + by apply P_emit_callback.
Qed.

Lemma P_xhr_abort x : preserves P (xhr_abort x).
Proof.
  intros w Hw. unfold xhr_abort.
  destruct (xhrs w !! x) as [q|]; [|exact Hw].
  destruct (readyState q).
  - exact Hw.
  - cbn [block fold_left].
    apply P_set_readyState, P_on_abort, P_set_readyState, Hw.
  - apply P_set_readyState, Hw.
Qed.

Lemma P_cancel h : preserves P (cancel h).
Proof.
  intros w Hw. unfold cancel.
  destruct (xhrRef (hook w h)) as [x|]; [|exact Hw].
  cbn [block fold_left].
  assert (P (setProgress h None None
               (setError h (Some (JStr (lit "Upload cancelled")))
                  (setUploading h false (xhr_abort x w))))) as Hw'.
  { apply P_publish_cancel, P_setError, P_setUploading, P_xhr_abort, Hw. }
  destruct (uploadIdRef _) as [id|]; [|exact Hw'].
  apply P_set_uploadIdRef_None, P_delete, Hw'.
Qed.

Lemma P_upload h file : preserves P (upload h file).
Proof.
  intros w Hw.
  destruct (valid (validateFile file)) eqn:Hv.
  - rewrite (upload_valid h file w Hv).
    exact (P_register h file w Hw).
  - unfold upload. rewrite Hv. cbn [negb].
    set (msg := match error (validateFile file) with
                | Some e => if truthy_string e then e
                            else lit "File validation failed"
                | None => lit "File validation failed"
                end).
    pose proof (P_start h file w Hw) as Hw1. revert Hw1.
    generalize (block [ set_uploadIdCounter (uploadIdCounter w + 1);
               set_uploadIdRef h (Some (next_uploadId w));
               setUploading h true;
               setError h None;
               setProgress h (Some (next_uploadId w))
                 (Some {| filename := name file; loaded := 0;
                          total := size file; percentage := 0;
                          status := uploading; progress_error := None |}) ] w).
    intros w1 Hw1. cbn [block fold_left].
    apply P_emit_callback; [exact I|].
    apply P_emit_callback; [exact I|].
    apply P_set_uploadIdRef_None, P_delete, P_setUploading, P_setError, Hw1.
Qed.

Lemma P_step a : preserves P (fun w => step w a).
Proof.
  intros w Hw. destruct a as [h file|h| |x tok|x e|x st text|x]; simpl.
  - by apply P_upload.
  - by apply P_cancel.
  - unfold cancelAllActiveUploads.
    apply P_clear. apply preserves_forEach_cancelFn; [apply P_cancel|exact Hw].
  - destruct (xhrs w !! x) as [q|]; [|exact Hw].
    destruct (awaitingSession q); [|exact Hw].
    unfold getTokenAndSend_resume. cbn [block fold_left].
    apply P_emit_callback; [exact I|].
    apply P_set_readyState, P_set_awaitingSession, Hw.
  - unfold deliver. destruct (xhrs w !! x) as [q|]; [|exact Hw].
    destruct (readyState q); try exact Hw. by apply P_on_progress.
  - unfold deliver. destruct (xhrs w !! x) as [q|]; [|exact Hw].
    destruct (readyState q); try exact Hw.
    cbn [block fold_left]. apply P_on_load, P_set_readyState, Hw.
  - unfold deliver. destruct (xhrs w !! x) as [q|]; [|exact Hw].
    destruct (readyState q); try exact Hw.
    cbn [block fold_left]. apply P_on_error, P_set_readyState, Hw.
Qed.

Lemma P_run actions w : P w -> P (run w actions).
Proof. apply preserves_run. exact P_step. Qed.

End StepInvariant.

(** ** Statuses that are ever assigned *)

Lemma statuses_ok_update_hook (h : nat) (f : Hook -> Hook) :
  (forall s, progress_ok (st_progress s) -> progress_ok (st_progress (f s))) ->
  preserves statuses_ok (update_hook h f).
Proof.
  intros Hf w [He Hh]. split; [exact He|].
  intros h'. rewrite hook_update_hook. case_decide; [apply Hf|]; apply Hh.
Qed.

Lemma statuses_ok_emit (e : Effect) :
  effect_ok e -> preserves statuses_ok (emit e).
Proof.
  intros Hok w [He Hh]. split; [|exact Hh].
  simpl. apply Forall_app. split; [exact He|]. by constructor.
Qed.

Lemma statuses_ok_setProgress h s p :
  progress_ok p -> preserves statuses_ok (setProgress h s p).
Proof.
  intros Hp w Hw. unfold setProgress.
  apply statuses_ok_emit; [exact Hp|].
  apply statuses_ok_update_hook; [|exact Hw]. intros; exact Hp.
Qed.

Lemma statuses_ok_same (f : World -> World) :
  (forall w, effects (f w) = effects w) ->
  (forall w h, hook (f w) h = hook w h) ->
  preserves statuses_ok f.
Proof.
  intros He Hh w [H1 H2]. split.
  - by rewrite He.
  - intros h. rewrite Hh. apply H2.
Qed.

Lemma statuses_ok_start (h : nat) (file : File) (w : World) :
  statuses_ok w ->
  statuses_ok
    (block [ set_uploadIdCounter (uploadIdCounter w + 1);
             set_uploadIdRef h (Some (next_uploadId w));
             setUploading h true;
             setError h None;
             setProgress h (Some (next_uploadId w))
               (Some {| filename := name file; loaded := 0;
                        total := size file; percentage := 0;
                        status := uploading; progress_error := None |}) ] w).
Proof.
  intros Hw. apply preserves_block; [|exact Hw]. each_statement.
  - by apply statuses_ok_same.
  - unfold set_uploadIdRef. by apply statuses_ok_update_hook.
  - unfold setUploading. by apply statuses_ok_update_hook.
  - unfold setError. by apply statuses_ok_update_hook.
  - apply statuses_ok_setProgress. simpl. by left.
Qed.

Lemma statuses_ok_step (a : Action) : preserves statuses_ok (fun w => step w a).
Proof.
  apply P_step.
  - intros h b. unfold setUploading. by apply statuses_ok_update_hook.
  - intros h e. unfold setError. by apply statuses_ok_update_hook.
  - intros h. unfold set_uploadIdRef. by apply statuses_ok_update_hook.
  - intros x r. by apply statuses_ok_same.
  - intros x b. by apply statuses_ok_same.
  - intros e He. apply statuses_ok_emit. by destruct e.
  - by apply statuses_ok_same.
  - intros h id p Hp. apply statuses_ok_setProgress. simpl. left. exact Hp.
  - intros id p Hp. apply statuses_ok_emit. simpl. left. exact Hp.
  - intros h id p Hp w Hw.
    apply (statuses_ok_same (update_registry (Map_delete id))); try done.
    apply statuses_ok_setProgress; [|exact Hw].
    destruct p as [p|]; [|exact I]. simpl. right. exact Hp.
  - intros id. by apply statuses_ok_same.
  - intros h. by apply statuses_ok_setProgress.
  - intros h file w Hw. by apply statuses_ok_start.
  - intros h file w Hw w1.
    assert (statuses_ok w1) as Hw1 by (by apply statuses_ok_start).
    revert Hw1. generalize w1. clear w1 Hw. intros w1 Hw1.
    apply preserves_block; [|exact Hw1]. each_statement.
    + by apply statuses_ok_same.
    + unfold set_xhrRef. by apply statuses_ok_update_hook.
    + by apply statuses_ok_same.
Qed.

Lemma statuses_ok_initial : statuses_ok initial_world.
Proof. split; [constructor|]. intros h. exact I. Qed.

(** C10: no move ever assigns [queued] or [processing]: every progress
    value handed to [setProgress] or to [onProgress], and so every published
    progress of every hook, has status [uploading], [completed] or [failed].
    Every call of [upload] publishes status [uploading] with percentage 0 as
    its first effect, whatever the file; and when validation fails that
    value is still the hook's progress when [upload] is over. *)
Theorem C10_only_uploading_before_terminal :
  (forall actions,
     let w := run initial_world actions in
     (forall h p, st_progress (hook w h) = Some p ->
        status p <> queued /\ status p <> processing) /\
     (forall h s p, In (setProgress_called h s (Some p)) (effects w) ->
        status p <> queued /\ status p <> processing) /\
     (forall id p, In (onProgress id p) (effects w) ->
        status p <> queued /\ status p <> processing)) /\
  (forall h file w,
     let initial :=
       {| filename := name file; loaded := 0; total := size file;
          percentage := 0; status := uploading; progress_error := None |} in
     (exists rest,
        effects (upload h file w) =
        effects w ++
        setProgress_called h (Some (next_uploadId w)) (Some initial) :: rest) /\
     (valid (validateFile file) = false ->
      st_progress (hook (upload h file w) h) = Some initial)).
Proof.
  assert (forall s, assigned_status s -> s <> queued /\ s <> processing) as Hne.
  { intros s [-> | [-> | ->]]; split; discriminate. }
  split.
  - intros actions w.
    assert (statuses_ok w) as [He Hh].
    { subst w. apply preserves_run; [apply statuses_ok_step|].
      apply statuses_ok_initial. }
    rewrite List.Forall_forall in He.
    split; [|split].
    + intros h p Hp. specialize (Hh h). rewrite Hp in Hh. by apply Hne.
    + intros h s p Hin. apply Hne. apply (He _ Hin).
    + intros id p Hin. apply Hne. apply (He _ Hin).
  - intros h file w initial. split.
    + destruct (valid (validateFile file)) eqn:Hv.
      * rewrite (upload_valid h file w Hv). eexists. read_state.
        reflexivity.
      * unfold upload. rewrite Hv. cbn [negb]. eexists. read_state.
        rewrite <- !app_assoc. reflexivity.
    + intros Hv. unfold upload. rewrite Hv. cbn [negb]. read_state.
      reflexivity.
Qed.

Lemma C10_only_uploading_before_terminal_witness :
  st_progress
    (hook (upload 0 {| name := lit "a..b"; size := 7 |} initial_world) 0)
  = Some {| filename := lit "a..b"; loaded := 0; total := 7; percentage := 0;
            status := uploading; progress_error := None |}.
Proof.
  destruct C10_only_uploading_before_terminal as [_ H].
  destruct (H 0%nat {| name := lit "a..b"; size := 7 |} initial_world) as [_ H'].
  apply H'. vm_compute. reflexivity.
Defined.

(** ** The registry and the published status of a task *)

Lemma JsString_eqb_eq (a b : JsString) : JsString_eqb a b = true <-> a = b.
Proof. unfold JsString_eqb. apply bool_decide_eq_true. Qed.

Lemma JsString_eqb_refl (a : JsString) : JsString_eqb a a = true.
Proof. by apply JsString_eqb_eq. Qed.




Lemma Map_has_delete (k k' : JsString) (m : list (JsString * nat)) :
  Map_has k' (Map_delete k m) = true -> k' <> k /\ Map_has k' m = true.
Proof.
  unfold Map_has. induction m as [|[k0 v] m IH]; simpl; [discriminate|].
  destruct (JsString_eqb k k0) eqn:Hk; simpl.
  - intros H. destruct (IH H) as [Hne Hm]. split; [exact Hne|].
    by destruct (JsString_eqb k' k0).
  - destruct (JsString_eqb k' k0) eqn:Hk'; [|exact IH].
    intros _. split; [|reflexivity].
    apply JsString_eqb_eq in Hk'. subst k0. intros ->.
    by rewrite JsString_eqb_refl in Hk.
Qed.











(** ** Numbers and percentages *)

Module DoubleFacts.
Import Double.
Local Open Scope Q_scope.

Lemma rne_floor (q : Q) : rne q = Qfloor q \/ rne q = (Qfloor q + 1)%Z.
Proof.
  unfold rne. destruct (Qcompare _ _); [destruct (Z.even _)|..]; auto.
Qed.

Lemma rne_inject_Z (z : Z) : rne (inject_Z z) = z.
Proof.
  unfold rne. rewrite Qfloor_Z.
  destruct (Qcompare_spec (inject_Z z - inject_Z z) (1 # 2)) as [H|H|H];
    [lra | reflexivity | lra].
Qed.

Lemma rne_mono (a b : Q) : a <= b -> (rne a <= rne b)%Z.
Proof.
  intros Hab.
  pose proof (Qfloor_resp_le a b Hab) as Hf.
  pose proof (Qfloor_le a) as Ha. pose proof (Qlt_floor a) as Ha'.
  pose proof (Qfloor_le b) as Hb. pose proof (Qlt_floor b) as Hb'.
  destruct (Z.eq_dec (Qfloor a) (Qfloor b)) as [Heq|Hne].
  - unfold rne. rewrite <- Heq.
    destruct (Qcompare_spec (a - inject_Z (Qfloor a)) (1 # 2)) as [H1|H1|H1];
      destruct (Qcompare_spec (b - inject_Z (Qfloor a)) (1 # 2)) as [H2|H2|H2];
      try destruct (Z.even (Qfloor a)); try lia; lra.
  - destruct (rne_floor a) as [-> | ->], (rne_floor b) as [-> | ->]; lia.
Qed.

Lemma pow2_pos (e : Z) : 0 < 2 ^ e.
Proof. apply Qpower_0_lt. reflexivity. Qed.

Lemma pow2_plus (a b : Z) : 2 ^ (a + b) == 2 ^ a * 2 ^ b.
Proof. apply Qpower_plus. discriminate. Qed.

Lemma pow2_inject (a : Z) : (0 <= a)%Z -> inject_Z (2 ^ a) == 2 ^ a.
Proof. intros H. apply (Zpower_Qpower 2 a H). Qed.

Lemma binade_spec (q : Q) :
  0 < q -> 2 ^ binade q <= q /\ q < 2 ^ (binade q + 1).
Proof.
  intros Hq. unfold binade.
  set (K := (Z.log2 (Z.pos (Qden q)) + 1)%Z).
  set (m := Qfloor (q * 2 ^ K)).
  assert (0 <= K)%Z as HK by (pose proof (Z.log2_nonneg (Z.pos (Qden q))); lia).
  assert (1 <= q * 2 ^ K) as Hone.
  { rewrite <- (pow2_inject K HK).
    pose proof (Z.log2_spec (Z.pos (Qden q)) eq_refl) as [_ Hd].
    fold (Z.succ (Z.log2 (Z.pos (Qden q)))) in K.
    change (Z.succ (Z.log2 (Z.pos (Qden q)))) with K in Hd.
    destruct q as [n d]. unfold Qlt in Hq. simpl in *.
    unfold Qle, Qmult, inject_Z. simpl. nia. }
  assert (1 <= m)%Z as Hm.
  { change 1%Z with (Qfloor 1). apply Qfloor_resp_le. exact Hone. }
  pose proof (Z.log2_spec m ltac:(lia)) as [Hlo Hhi].
  pose proof (Z.log2_nonneg m) as Ha.
  set (a := Z.log2 m) in *.
  pose proof (Qfloor_le (q * 2 ^ K)) as Hfl.
  pose proof (Qlt_floor (q * 2 ^ K)) as Hfl'.
  fold m in Hfl, Hfl'.
  assert (2 ^ a <= q * 2 ^ K) as H1.
  { rewrite <- (pow2_inject a Ha).
    apply (Qle_trans _ (inject_Z m)); [|exact Hfl].
    rewrite <- Zle_Qle. exact Hlo. }
  assert (q * 2 ^ K < 2 ^ (a + 1)) as H2.
  { rewrite <- (pow2_inject (a + 1)) by lia.
    apply (Qlt_le_trans _ (inject_Z (m + 1))); [exact Hfl'|].
    rewrite <- Zle_Qle. unfold Z.succ in Hhi. lia. }
  pose proof (pow2_pos K) as HpK.
  split.
  - apply (Qmult_le_r _ _ (2 ^ K) HpK).
    rewrite <- pow2_plus. replace (a - K + K)%Z with a by lia. exact H1.
  - apply (Qmult_lt_r _ _ (2 ^ K) HpK).
    rewrite <- pow2_plus. replace (a - K + 1 + K)%Z with (a + 1)%Z by lia.
    exact H2.
Qed.

Lemma pow2_le_inv (a b : Z) : 2 ^ a < 2 ^ (b + 1) -> (a <= b)%Z.
Proof.
  intros H. apply Qpower_lt_compat_l_inv in H; [lia|reflexivity].
Qed.

Lemma round_pos_bounds (q : Q) :
  0 < q -> 2 ^ binade q <= round_pos q /\ round_pos q <= 2 ^ (binade q + 1).
Proof.
  intros Hq. destruct (binade_spec q Hq) as [Hlo Hhi].
  unfold round_pos. set (e := binade q) in *.
  pose proof (pow2_pos (e - 52)) as Hu.
  assert (2 ^ e == inject_Z (2 ^ 52) * 2 ^ (e - 52)) as He.
  { rewrite (pow2_inject 52) by lia. rewrite <- pow2_plus.
    replace (52 + (e - 52))%Z with e by lia. reflexivity. }
  assert (2 ^ (e + 1) == inject_Z (2 ^ 53) * 2 ^ (e - 52)) as He'.
  { rewrite (pow2_inject 53) by lia. rewrite <- pow2_plus.
    replace (53 + (e - 52))%Z with (e + 1)%Z by lia. reflexivity. }
  split.
  - rewrite He. apply Qmult_le_compat_r; [|apply Qlt_le_weak, Hu].
    rewrite <- Zle_Qle. rewrite <- (rne_inject_Z (2 ^ 52)) at 1.
    apply rne_mono. apply Qle_shift_div_l; [exact Hu|].
    rewrite <- He. exact Hlo.
  - rewrite He'. apply Qmult_le_compat_r; [|apply Qlt_le_weak, Hu].
    rewrite <- Zle_Qle. rewrite <- (rne_inject_Z (2 ^ 53)) at 1.
    apply rne_mono. apply Qle_shift_div_r; [exact Hu|].
    rewrite <- He'. apply Qlt_le_weak, Hhi.
Qed.

Lemma round_pos_mono (x y : Q) :
  0 < x -> x <= y -> round_pos x <= round_pos y.
Proof.
  intros Hx Hxy.
  assert (0 < y) as Hy by lra.
  destruct (binade_spec x Hx) as [Hxlo Hxhi].
  destruct (binade_spec y Hy) as [Hylo Hyhi].
  assert (binade x <= binade y)%Z as He.
  { apply pow2_le_inv. lra. }
  destruct (Z.eq_dec (binade x) (binade y)) as [Heq|Hne].
  - unfold round_pos. rewrite Heq.
    pose proof (pow2_pos (binade y - 52)) as Hu.
    apply Qmult_le_compat_r; [|apply Qlt_le_weak, Hu].
    rewrite <- Zle_Qle. apply rne_mono.
    apply Qmult_le_compat_r; [exact Hxy|].
    apply Qlt_le_weak, Qinv_lt_0_compat, Hu.
  - apply (Qle_trans _ (2 ^ (binade x + 1))).
    + apply round_pos_bounds, Hx.
    + apply (Qle_trans _ (2 ^ binade y)).
      * apply Qpower_le_compat_l; [lia|discriminate].
      * apply round_pos_bounds, Hy.
Qed.

Lemma round_0 (q : Q) : q == 0 -> round q == 0.
Proof.
  intros H. unfold round.
  destruct (Qcompare_spec q 0) as [H'|H'|H']; [reflexivity|lra|lra].
Qed.

Lemma round_nonneg (q : Q) : 0 <= q -> 0 <= round q.
Proof.
  intros H. unfold round.
  destruct (Qcompare_spec q 0) as [H'|H'|H']; [lra|lra|].
  apply (Qle_trans _ (2 ^ binade q)).
  - apply Qlt_le_weak, pow2_pos.
  - apply round_pos_bounds, H'.
Qed.

(** Rounding to nearest is monotone. *)
Lemma round_mono (x y : Q) : 0 <= x -> x <= y -> round x <= round y.
Proof.
  intros Hx Hxy.
  destruct (Qcompare_spec x 0) as [H|H|H]; [|lra|].
  - rewrite (round_0 x H). apply round_nonneg. lra.
  - unfold round.
    destruct (Qcompare_spec x 0) as [H1|H1|H1]; [lra|lra|].
    destruct (Qcompare_spec y 0) as [H2|H2|H2]; [lra|lra|].
    by apply round_pos_mono.
Qed.

End DoubleFacts.

Lemma Math_round_mono (x y : Q) : (x <= y)%Q -> (Math_round x <= Math_round y)%Z.
Proof.
  intros H. unfold Math_round. apply Qfloor_resp_le.
  by apply Qplus_le_l.
Qed.

Lemma quotient_nonneg (l t : N) :
  (0 <= inject_Z (Z.of_N l) / inject_Z (Z.of_N t))%Q.
Proof.
  unfold Qdiv. apply Qmult_le_0_compat.
  - rewrite <- (Zle_Qle 0). lia.
  - apply Qinv_le_0_compat. rewrite <- (Zle_Qle 0). lia.
Qed.


Lemma percentage_of_nonneg (l t : N) : (0 <= percentage_of l t)%Z.
Proof.
  unfold percentage_of, Double.mul, Double.div.
  apply (Z.le_trans _ (Math_round 0)); [vm_compute; discriminate|].
  apply Math_round_mono.
  apply DoubleFacts.round_nonneg.
  apply Qmult_le_0_compat; [|discriminate].
  apply DoubleFacts.round_nonneg, quotient_nonneg.
Qed.

Lemma percentage_of_le_100 (l t : N) :
  0 < t -> l <= t -> (percentage_of l t <= 100)%Z.
Proof.
  intros Ht Hl. unfold percentage_of, Double.mul, Double.div.
  apply (Z.le_trans _ (Math_round (Double.round (Double.round 1 * 100))));
    [|vm_compute; discriminate].
  apply Math_round_mono, DoubleFacts.round_mono.
  - apply Qmult_le_0_compat; [|discriminate].
    apply DoubleFacts.round_nonneg, quotient_nonneg.
  - apply Qmult_le_compat_r; [|discriminate].
    apply DoubleFacts.round_mono; [apply quotient_nonneg|].
    apply Qle_shift_div_r.
    + rewrite <- (Zlt_Qlt 0). lia.
    + rewrite Qmult_1_l. rewrite <- Zle_Qle. lia.
Qed.

(** ** The progress stream of one session *)

Lemma on_progress_effects h id file e w :
  effects (on_progress h id file e w) = effects w ++ progress_effects h id file e
  /\ xhrs (on_progress h id file e w) = xhrs w.
Proof.
  unfold on_progress, progress_effects.
  destruct (lengthComputable e); read_state.
  - by rewrite <- app_assoc.
  - by rewrite app_nil_r.
Qed.








Lemma DONE_is_final (w : World) (x : nat) (q : Xhr) (a : Action) :
  xhrs w !! x = Some q -> readyState q = DONE -> awaitingSession q = false ->
  addressed_to x a -> step w a = w.
Proof.
  intros Hq Hdone Hawait Ha.
  destruct a as [| | |x' tok|x' e|x' st text|x']; simpl in Ha; try contradiction;
    subst x'; simpl; unfold deliver; rewrite Hq; by rewrite ?Hdone, ?Hawait.
Qed.

Lemma lookup_update_xhr (x : nat) (f : Xhr -> Xhr) (w : World) (q : Xhr) :
  xhrs w !! x = Some q -> xhrs (update_xhr x f w) !! x = Some (f q).
Proof.
  intros Hq. unfold update_xhr. simpl. rewrite Hq.
  apply list_lookup_insert_eq. by apply lookup_lt_Some in Hq.
Qed.

(** The state in which [upload] leaves a file that passes validation: a
    new request, not yet sent, referenced by the hook and registered. *)
Lemma upload_valid_state (h : nat) (file : File) (w : World) :
  valid (validateFile file) = true ->
  let w1 := upload h file w in
  xhrs w1 !! length (xhrs w) =
    Some {| xhr_hook := h; xhr_uploadId := next_uploadId w; xhr_file := file;
            readyState := UNSENT; awaitingSession := true |} /\
  effects w1 =
    effects w ++
    [ setProgress_called h (Some (next_uploadId w))
        (Some {| filename := name file; loaded := 0; total := size file;
                 percentage := 0; status := uploading;
                 progress_error := None |}) ] /\
  activeUploadCancelFunctions w1 =
    Map_set (next_uploadId w) h (activeUploadCancelFunctions w) /\
  xhrRef (hook w1 h) = Some (length (xhrs w)) /\
  uploadIdRef (hook w1 h) = Some (next_uploadId w).
Proof.
  intros Hv w1. subst w1. rewrite (upload_valid h file w Hv).
  split; [|split; [|split; [|split]]]; read_state; try reflexivity.
  by rewrite list_lookup_middle.
Qed.





(** ** The duplicate check *)

(** C9: a failed lookup is absorbed. When [apiClient.get] rejects, the
    duplicate check answers [null]; and when the check itself rejects,
    [handleFileSelect] does exactly what it does when no duplicate is found:
    it leaves the component as it is (no validation error, no dialog), calls
    [onUploadStart] and starts the upload, which creates and registers a
    request for the file and reports no error. *)
Theorem C9_failed_lookup_is_absorbed
  (toLowerCase : JsString -> JsString) (h : nat) (file : File)
  (c : FileUploadComponent) (w : World) (reason : JsValue) :
  snd (handleFileSelect_begin file c) = true ->
  let c1 := fst (handleFileSelect_begin file c) in
  let w0 := emit onUploadStart w in
  let id := next_uploadId w in
  checkDuplicate_mutationFn toLowerCase (rejected reason) (name file) = None /\
  handleFileSelect_resume h file (rejected reason) c1 w =
    handleFileSelect_resume h file (fulfilled None) c1 w /\
  handleFileSelect_resume h file (rejected reason) c1 w = (c1, upload h file w0) /\
  validationError c1 = None /\
  effects (upload h file w0) =
    effects w ++
    [ onUploadStart;
      setProgress_called h (Some id)
        (Some {| filename := name file; loaded := 0; total := size file;
                 percentage := 0; status := uploading;
                 progress_error := None |}) ] /\
  xhrs (upload h file w0) !! length (xhrs w) =
    Some {| xhr_hook := h; xhr_uploadId := id; xhr_file := file;
            readyState := UNSENT; awaitingSession := true |} /\
  activeUploadCancelFunctions (upload h file w0) =
    Map_set id h (activeUploadCancelFunctions w) /\
  st_error (hook (upload h file w0) h) = None /\
  st_uploading (hook (upload h file w0) h) = true.
Proof.
  intros Hbegin c1 w0 id.
  assert (valid (validateFile file) = true) as Hv.
  { unfold handleFileSelect_begin in Hbegin.
    destruct (valid (validateFile file)); [reflexivity|discriminate Hbegin]. }
  assert (validationError c1 = None) as Hc1.
  { subst c1. unfold handleFileSelect_begin. by rewrite Hv. }
  destruct (upload_valid_state h file w0 Hv) as (Hx & He & Hr & _).
  repeat split; try done.
  - rewrite He. subst w0. simpl. by rewrite <- app_assoc.
  - rewrite (upload_valid h file w0 Hv). read_state. reflexivity.
  - rewrite (upload_valid h file w0 Hv). read_state. reflexivity.
Qed.

Lemma C9_failed_lookup_is_absorbed_witness :
  handleFileSelect_resume 0 report_pdf (rejected (JStr (lit "Failed to fetch")))
    (fst (handleFileSelect_begin report_pdf
            {| selectedFile := None; showDuplicateDialog := false;
               duplicateFile := None; validationError := None |}))
    initial_world =
  handleFileSelect_resume 0 report_pdf (fulfilled None)
    (fst (handleFileSelect_begin report_pdf
            {| selectedFile := None; showDuplicateDialog := false;
               duplicateFile := None; validationError := None |}))
    initial_world.
Proof.
  refine (proj1 (proj2
    (C9_failed_lookup_is_absorbed (fun s => s) 0 report_pdf
       {| selectedFile := None; showDuplicateDialog := false;
          duplicateFile := None; validationError := None |}
       initial_world (JStr (lit "Failed to fetch")) _))).
  vm_compute. reflexivity.
Defined.

(** ** Callbacks of a session *)

(** Splits a conjunction into its parts, and nothing else. *)
Ltac conjuncts :=
  repeat match goal with
         | |- _ /\ _ => split
         end.

(** A non-2xx response whose body is not JSON ends the [load] listener with
    an uncaught exception before it has done anything. *)
Lemma load_rejection_not_JSON (w : World) (x : nat) (q : Xhr) (xhr_status : N)
  (responseText : JsString) :
  xhrs w !! x = Some q -> readyState q = SENT ->
  (200 <=? xhr_status) && (xhr_status <? 300) = false ->
  JSON_parse responseText = None ->
  step w (Load x xhr_status responseText) =
  emit (uncaught_exception x) (set_readyState x DONE w).
Proof.
  intros Hq Hsent Hst Hparse. simpl. unfold deliver. rewrite Hq, Hsent.
  cbn [block fold_left]. unfold on_load. by rewrite Hst, Hparse.
Qed.

(** C1 fails on the code: when the server answers 502 with a body that is
    not JSON, the session calls neither [onSuccess] nor [onError], its
    promise is neither resolved nor rejected, and the request is over, so
    no later browser event can make up for it. *)
Theorem C1_no_callback_after_rejection_that_is_not_JSON :
  let w := run initial_world bad_gateway in
  JSON_parse (lit "<html>502 Bad Gateway</html>") = None /\
  callbacks (lit "upload-1") (effects w) = [] /\
  List.filter (is_settlement_of (lit "upload-1")) (effects w) = [] /\
  effects w =
    [ setProgress_called 0 (Some (lit "upload-1"))
        (Some {| filename := name report_pdf; loaded := 0;
                 total := size report_pdf; percentage := 0;
                 status := uploading; progress_error := None |});
      xhr_send 0 None;
      uncaught_exception 0 ] /\
  (forall a, addressed_to 0 a -> step w a = w).
Proof.
  intros w.
  do 4 (split; [vm_compute; reflexivity|]).
  intros a Ha.
  apply (DONE_is_final w 0
           {| xhr_hook := 0; xhr_uploadId := lit "upload-1";
              xhr_file := report_pdf; readyState := DONE;
              awaitingSession := false |} a); try done.
Qed.

(** C2 fails on the code. With the body [{'detail':'too large'}] (in double
    quotes) a 413 ends the task as failed with the message [too large], and
    with the body [{}] as failed with the message derived from the status;
    with a body that is not JSON, or with the body [null], the same 413
    leaves the task as it was: still uploading, still registered, no error,
    no failed status published, no callback. *)
Theorem C2_rejection_that_is_not_JSON_is_not_reported :
  let id := lit "upload-1" in
  let w_detail := run initial_world (too_large (json_lit "{'detail':'too large'}")) in
  let w_empty := run initial_world (too_large (lit "{}")) in
  let w_text := run initial_world (too_large (lit "Request Entity Too Large")) in
  let w_null := run initial_world (too_large (lit "null")) in
  (st_error (hook w_detail 0) = Some (JStr (lit "too large")) /\
   published_status w_detail id = Some failed /\
   st_uploading (hook w_detail 0) = false /\
   registered w_detail id = false /\
   callbacks id (effects w_detail) = [onError id (JStr (lit "too large"))]) /\
  (st_error (hook w_empty 0) = Some (JStr (lit "Upload failed with status 413")) /\
   published_status w_empty id = Some failed /\
   callbacks id (effects w_empty) =
     [onError id (JStr (lit "Upload failed with status 413"))]) /\
  (JSON_parse (lit "Request Entity Too Large") = None /\
   st_error (hook w_text 0) = None /\
   published_status w_text id = Some uploading /\
   st_uploading (hook w_text 0) = true /\
   registered w_text id = true /\
   callbacks id (effects w_text) = []) /\
  (JSON_parse (lit "null") = Some JNull /\
   st_error (hook w_null 0) = None /\
   published_status w_null id = Some uploading /\
   st_uploading (hook w_null 0) = true /\
   registered w_null id = true /\
   callbacks id (effects w_null) = []).
Proof. cbv zeta. conjuncts; vm_compute; reflexivity. Qed.

(** Before the hook has created any request, [cancel] does nothing. *)
Lemma cancel_without_request (w : World) (h : nat) :
  xhrRef (hook w h) = None -> cancel h w = w.
Proof. intros H. unfold cancel. by rewrite H. Qed.

(** X15: once the hook has created a request, [cancel] always writes the three
    state cells, whatever has become of the request: when the request is
    over ([DONE]) or not yet sent, [abort()] fires no event, and the only
    effect is [setProgress(null)]. *)
Lemma cancel_without_abort_event (w : World) (h x : nat) (q : Xhr) :
  xhrRef (hook w h) = Some x -> xhrs w !! x = Some q ->
  readyState q <> SENT ->
  effects (cancel h w) = effects w ++ [setProgress_called h None None] /\
  st_progress (hook (cancel h w) h) = None /\
  st_uploading (hook (cancel h w) h) = false /\
  st_error (hook (cancel h w) h) = Some (JStr (lit "Upload cancelled")) /\
  activeUploadCancelFunctions (cancel h w) =
    match uploadIdRef (hook w h) with
    | Some id => Map_delete id (activeUploadCancelFunctions w)
    | None => activeUploadCancelFunctions w
    end.
Proof.
  intros Href Hq Hstate. unfold cancel. rewrite Href. cbn [block fold_left].
  set (w1 := xhr_abort x w).
  assert (effects w1 = effects w /\
          activeUploadCancelFunctions w1 = activeUploadCancelFunctions w /\
          hook w1 h = hook w h) as (He & Hr & Hh).
  { subst w1. unfold xhr_abort. rewrite Hq.
    destruct (readyState q); [done|contradiction|done]. }
  clearbody w1.
  assert (uploadIdRef
            (hook (setProgress h None None
                     (setError h (Some (JStr (lit "Upload cancelled")))
                        (setUploading h false w1))) h) =
          uploadIdRef (hook w h)) as ->.
  { read_state. by rewrite Hh. }
  destruct (uploadIdRef (hook w h)) as [id|];
    conjuncts; read_state; rewrite ?He, ?Hr; done.
Qed.

(** C3 fails on the code: [xhrRef] still holds the request after the task
    has completed, so a later [cancel] is not a no-op. It replaces the
    completed progress by [null] and sets the error to [Upload cancelled];
    only the registry and the callbacks are left alone. A second [cancel]
    then changes nothing more. *)
Theorem C3_cancel_after_completion_changes_state :
  let w := run initial_world completed_upload in
  published_status w (lit "upload-1") = Some completed /\
  registered w (lit "upload-1") = false /\
  xhrRef (hook w 0) = Some 0%nat /\
  st_progress (hook w 0) =
    Some {| filename := name report_pdf; loaded := size report_pdf;
            total := size report_pdf; percentage := 100;
            status := completed; progress_error := None |} /\
  st_error (hook w 0) = None /\
  st_progress (hook (cancel 0 w) 0) = None /\
  st_error (hook (cancel 0 w) 0) = Some (JStr (lit "Upload cancelled")) /\
  activeUploadCancelFunctions (cancel 0 w) = activeUploadCancelFunctions w /\
  callbacks (lit "upload-1") (effects (cancel 0 w)) =
    callbacks (lit "upload-1") (effects w) /\
  hook (cancel 0 (cancel 0 w)) 0 = hook (cancel 0 w) 0 /\
  activeUploadCancelFunctions (cancel 0 (cancel 0 w)) =
    activeUploadCancelFunctions (cancel 0 w).
Proof. cbv zeta. conjuncts; vm_compute; reflexivity. Qed.

Lemma cancelAllActiveUploads_registry (w : World) :
  activeUploadCancelFunctions (cancelAllActiveUploads w) = [].
Proof. reflexivity. Qed.

Lemma xhr_abort_in_flight (w : World) (x h : nat) (id : JsString) (file : File) :
  in_flight w x h id file ->
  xhr_abort x w =
  block [ set_readyState x DONE; on_abort h id; set_readyState x UNSENT ] w.
Proof. intros Hx. unfold xhr_abort. by rewrite Hx. Qed.

(** X14: cancelling a request in flight: the [abort] listener runs inside
    [xhr.abort()], so the session calls [onError] once and its promise is
    rejected, and the task leaves the registry. *)
Lemma cancel_in_flight (w : World) (h x : nat) (id : JsString) (file : File) :
  xhrRef (hook w h) = Some x -> in_flight w x h id file ->
  effects (cancel h w) =
    effects w ++
    [ setProgress_called h (Some id) None;
      onError id (JStr (lit "Upload cancelled"));
      reject id (JStr (lit "Upload cancelled"));
      setProgress_called h None None ] /\
  activeUploadCancelFunctions (cancel h w) =
    Map_delete id (activeUploadCancelFunctions w) /\
  st_progress (hook (cancel h w) h) = None /\
  st_uploading (hook (cancel h w) h) = false /\
  st_error (hook (cancel h w) h) = Some (JStr (lit "Upload cancelled")).
Proof.
  intros Href Hx. unfold cancel. rewrite Href. cbn [block fold_left].
  rewrite (xhr_abort_in_flight w x h id file Hx).
  set (w1 := block [ set_readyState x DONE; on_abort h id;
                     set_readyState x UNSENT ] w).
  assert (effects w1 =
            effects w ++
            [ setProgress_called h (Some id) None;
              onError id (JStr (lit "Upload cancelled"));
              reject id (JStr (lit "Upload cancelled")) ] /\
          activeUploadCancelFunctions w1 =
            Map_delete id (activeUploadCancelFunctions w) /\
          uploadIdRef (hook w1 h) = None) as (He & Hr & Hid).
  { subst w1. conjuncts; read_state; try reflexivity.
    by rewrite <- !app_assoc. }
  clearbody w1.
  assert (uploadIdRef
            (hook (setProgress h None None
                     (setError h (Some (JStr (lit "Upload cancelled")))
                        (setUploading h false w1))) h) = None) as ->.
  { read_state. exact Hid. }
  conjuncts; read_state; try done.
  rewrite He. by rewrite <- !app_assoc.
Qed.

(** C4 fails on the code: [cancelAllActiveUploads] empties the registry,
    and a task whose request is in flight is aborted, with one call of
    [onError]; but a task whose request has not been sent yet (it still
    waits for the session) is not brought to failed: [abort()] on an unsent
    request fires no event, so [onError] is not called, and the request is
    sent afterwards all the same and completes. *)
Theorem C4_cancelAll_misses_unsent_request :
  let w0 :=
    run initial_world
      [Upload 0 report_pdf; SessionReady 0 None; Upload 1 report_pdf] in
  let w1 := step w0 CancelAll in
  let w2 := run w1 [SessionReady 1 None; Load 1 200 report_response] in
  (registered w0 (lit "upload-1") = true /\
   registered w0 (lit "upload-2") = true) /\
  activeUploadCancelFunctions w1 = [] /\
  callbacks (lit "upload-1") (effects w1) =
    [onError (lit "upload-1") (JStr (lit "Upload cancelled"))] /\
  callbacks (lit "upload-2") (effects w1) = [] /\
  xhrs w1 !! 1%nat =
    Some {| xhr_hook := 1; xhr_uploadId := lit "upload-2";
            xhr_file := report_pdf; readyState := UNSENT;
            awaitingSession := true |} /\
  In (xhr_send 1 None) (effects w2) /\
  published_status w2 (lit "upload-2") = Some completed /\
  (exists response,
     callbacks (lit "upload-2") (effects w2) =
     [onSuccess (lit "upload-2") response]).
Proof.
  cbv zeta. conjuncts; try (vm_compute; reflexivity).
  - vm_compute. tauto.
  - eexists. vm_compute. reflexivity.
Qed.

(** ** Acceptance and rejection by the validator *)

Lemma trimStart_blank (s : JsString) :
  existsb (fun c => negb (isWhiteSpace c)) s = false -> trimStart s = [].
Proof.
  induction s as [|c s IH]; simpl; [done|].
  destruct (isWhiteSpace c); simpl; [exact IH|discriminate].
Qed.

Lemma trim_truthy_iff (s : JsString) :
  truthy_string (trim s) = true <->
  existsb (fun c => negb (isWhiteSpace c)) s = true.
Proof.
  split; [|apply trim_truthy].
  destruct (existsb (fun c => negb (isWhiteSpace c)) s) eqn:H; [done|].
  unfold trim, trimEnd. by rewrite (trimStart_blank s H).
Qed.

(** X1: a file is accepted exactly when its size is between 1 and the maximum,
    its name has at most 255 code units, at least one of them not white
    space, does not contain [..], and every code unit is in the allowed
    class and not one of the invalid characters. *)
Theorem validateFile_accepts (file : File) :
  valid (validateFile file) = true <->
  (0 < size file <= MAX_FILE_SIZE /\
   N.of_nat (length (name file)) <= MAX_FILENAME_LENGTH /\
   existsb (fun c => negb (isWhiteSpace c)) (name file) = true /\
   includes (name file) (lit "..") = false /\
   forallb (fun c => allowedFilenameChar c && negb (invalidChar c)) (name file)
   = true).
Proof.
  unfold validateFile, validateFileSize, validateFilename.
  destruct (N.eqb_spec (size file) 0) as [Hz|Hz]; simpl.
  { split; [discriminate|]. intros [[H _] _]. lia. }
  destruct (N.ltb_spec MAX_FILE_SIZE (size file)) as [Hm|Hm]; simpl.
  { split; [discriminate|]. intros [[_ H] _]. lia. }
  pose proof (trim_truthy_iff (name file)) as Htrim.
  destruct (truthy_string (trim (name file))) eqn:Ht.
  2:{ rewrite orb_true_r. simpl. split; [discriminate|].
      intros (_ & _ & H & _). apply Htrim in H. discriminate. }
  assert (truthy_string (name file) = true) as Hn.
  { destruct (name file); [discriminate Ht|done]. }
  rewrite Hn. simpl.
  destruct (N.ltb_spec MAX_FILENAME_LENGTH (N.of_nat (length (name file))))
    as [Hl|Hl]; simpl.
  { split; [discriminate|]. intros (_ & H & _). lia. }
  destruct (includes (name file) (lit "..")) eqn:Hd; simpl.
  { split; [discriminate|]. intros (_ & _ & _ & H & _). discriminate. }
  assert (forallb (fun c => allowedFilenameChar c && negb (invalidChar c))
            (name file)
          = ALLOWED_FILENAME_PATTERN_test (name file)
            && negb (invalidChars_test (name file))) as ->.
  { unfold ALLOWED_FILENAME_PATTERN_test, invalidChars_test. rewrite Hn. simpl.
    clear. induction (name file) as [|c s IH]; [done|].
    cbn [forallb existsb]. rewrite IH.
    destruct (allowedFilenameChar c), (invalidChar c),
      (forallb allowedFilenameChar s), (existsb invalidChar s); done. }
  destruct (invalidChars_test (name file)); simpl.
  { rewrite andb_false_r. split; [discriminate|]. intros (_ & _ & _ & _ & H).
    discriminate. }
  rewrite andb_true_r.
  destruct (ALLOWED_FILENAME_PATTERN_test (name file)); simpl.
  - split; [|done]. intros _. repeat split; try done; try lia.
    by apply Htrim.
  - split; [discriminate|]. intros (_ & _ & _ & _ & H). discriminate.
Qed.

Lemma message_truthy (v : Violation) : truthy_string (message v) = true.
Proof. by destruct v. Qed.

(** X2: every rejection names the rule that was violated, with a message that
    is not empty, so the default [File validation failed] is never used:
    [upload] hands that message to [onError] and rejects with it, and
    [handleFileSelect] shows it and goes no further. *)
Theorem rejection_is_reported (h : nat) (file : File) (w : World)
  (c : FileUploadComponent) :
  valid (validateFile file) = false ->
  exists v,
    first_violation file = Some v /\
    error (validateFile file) = Some (message v) /\
    truthy_string (message v) = true /\
    (exists before,
       effects (upload h file w) =
       before ++ [ onError (next_uploadId w) (JStr (message v));
                   reject (next_uploadId w) (JStr (message v)) ]) /\
    xhrs (upload h file w) = xhrs w /\
    handleFileSelect_begin file c =
      ({| selectedFile := selectedFile c;
          showDuplicateDialog := showDuplicateDialog c;
          duplicateFile := duplicateFile c;
          validationError := Some (message v) |}, false).
Proof.
  intros Hv. pose proof (validateFile_first_violation file) as Hrep.
  destruct (first_violation file) as [v|]; simpl in Hrep;
    [|rewrite Hrep in Hv; discriminate Hv].
  exists v. pose proof (message_truthy v) as Hm.
  split; [reflexivity|]. split; [by rewrite Hrep|]. split; [exact Hm|].
  rewrite (upload_invalid h file w (message v) Hrep Hm).
  split; [|split].
  - exists (effects w ++
            [setProgress_called h (Some (next_uploadId w))
               (Some {| filename := name file; loaded := 0;
                        total := size file; percentage := 0;
                        status := uploading; progress_error := None |})]).
    read_state. by rewrite <- !app_assoc.
  - reflexivity.
  - unfold handleFileSelect_begin. rewrite Hrep. simpl. by rewrite Hm.
Qed.

Lemma rejection_is_reported_witness :
  exists v,
    first_violation {| name := lit "a/b"; size := 5 |} = Some v /\
    error (validateFile {| name := lit "a/b"; size := 5 |}) = Some (message v).
Proof.
  destruct (rejection_is_reported 0 {| name := lit "a/b"; size := 5 |}
              initial_world
              {| selectedFile := None; showDuplicateDialog := false;
                 duplicateFile := None; validationError := None |})
    as (v & H1 & H2 & _).
  - vm_compute. reflexivity.
  - exists v. by split.
Defined.

(** ** The kind of a file *)

Lemma JsString_eqb_cons (a : N) (x y : JsString) :
  JsString_eqb (a :: x) (a :: y) = JsString_eqb x y.
Proof.
  unfold JsString_eqb. apply bool_decide_ext. split; [by intros [= ->]|by intros ->].
Qed.

(** X3: [isImageFile] and [getFileType] agree: a name is an image file exactly
    when its type is [image]. Both look only at what follows the last dot
    of the lower-cased name (the whole name when it has no dot), so a name
    that ends in a dot is no image and has type [file]. *)
Theorem isImageFile_iff_getFileType
  (toLowerCase : JsString -> JsString) (filename : JsString) :
  (isImageFile toLowerCase filename = true <->
   getFileType toLowerCase filename = lit "image") /\
  (Array_pop (split 46 (toLowerCase filename)) = Some [] ->
   isImageFile toLowerCase filename = false /\
   getFileType toLowerCase filename = lit "file").
Proof.
  unfold isImageFile, getFileType.
  destruct (Array_pop (split 46 (toLowerCase filename))) as [ext|] eqn:Hpop.
  2:{ split; [|discriminate]. split; [discriminate|].
      intros H. vm_compute in H. discriminate H. }
  destruct (truthy_string ext) eqn:Hext.
  - split; [|intros [= ->]; discriminate Hext].
    assert (Array_includes IMAGE_EXTENSIONS (lit "." ++ ext) =
            Array_includes
              [lit "jpg"; lit "jpeg"; lit "png"; lit "gif"; lit "webp";
               lit "bmp"] ext) as ->.
    { unfold IMAGE_EXTENSIONS, Array_includes. cbn [existsb].
      change (lit "." ++ ext) with (46 :: ext).
      change (lit ".jpg") with (46 :: lit "jpg").
      change (lit ".jpeg") with (46 :: lit "jpeg").
      change (lit ".png") with (46 :: lit "png").
      change (lit ".gif") with (46 :: lit "gif").
      change (lit ".webp") with (46 :: lit "webp").
      change (lit ".bmp") with (46 :: lit "bmp").
      by rewrite !JsString_eqb_cons. }
    destruct (Array_includes
                [lit "jpg"; lit "jpeg"; lit "png"; lit "gif"; lit "webp";
                 lit "bmp"] ext); [done|].
    split; [discriminate|].
    repeat match goal with
           | |- context [if ?b then _ else _] => destruct b
           end;
      intros H; vm_compute in H; discriminate H.
  - split.
    + split; [discriminate|]. intros H. vm_compute in H. discriminate H.
    + intros _. split; [reflexivity|]. vm_compute. reflexivity.
Qed.

Lemma isImageFile_iff_getFileType_witness :
  isImageFile (fun s => s) (lit "notes.") = false /\
  getFileType (fun s => s) (lit "notes.") = lit "file".
Proof.
  apply (isImageFile_iff_getFileType (fun s => s) (lit "notes.")).
  vm_compute. reflexivity.
Defined.

(** ** lib/api.ts *)

Lemma js_or_truthy (a b : JsValue) : truthy b = true -> truthy (js_or a b) = true.
Proof. intros H. unfold js_or. by destruct (truthy a) eqn:Ha. Qed.

(** X4: [handleError] always produces a message, whatever the response: the
    message is truthy. When the body is not JSON, or is [null], the message
    is the status text, or the text derived from the status when the status
    text is empty, and there is no code and no details. *)
Theorem handleError_always_has_a_message (response : Response) :
  truthy (api_message (handleError response)) = true /\
  (Response_json response = None \/ Response_json response = Some JNull ->
   handleError response =
   {| api_message :=
        if truthy_string (statusText response)
        then JStr (statusText response)
        else JStr (lit "Request failed with status "
                   ++ Number_toString (resp_status response));
      api_code := JUndefined;
      api_details := JUndefined |}).
Proof.
  split.
  - unfold handleError.
    destruct (Response_json response) as [errorData|];
      [destruct (member errorData (lit "message"))|]; cbn [api_message];
      by apply js_or_truthy.
  - unfold handleError. intros [-> | ->]; reflexivity.
Qed.

Lemma handleError_always_has_a_message_witness :
  api_message
    (handleError {| resp_status := 502; statusText := [];
                    resp_body := lit "<html>Bad Gateway</html>" |})
  = JStr (lit "Request failed with status 502").
Proof.
  destruct (handleError_always_has_a_message
              {| resp_status := 502; statusText := [];
                 resp_body := lit "<html>Bad Gateway</html>" |}) as [_ H].
  rewrite H; [reflexivity|]. left. vm_compute. reflexivity.
Defined.

(** ** The duplicate check, end to end *)

Lemma Array_find_Some (p : JsValue -> option bool) (l : list JsValue) (f : JsValue) :
  Array_find p l = Some (Some f) ->
  exists before after,
    l = before ++ f :: after /\ p f = Some true /\
    Forall (fun g => p g = Some false) before.
Proof.
  induction l as [|g l IH]; [discriminate|]. simpl.
  destruct (p g) as [[|]|] eqn:Hg; [| |discriminate].
  - intros [= ->]. exists [], l. by repeat split.
  - intros H. destruct (IH H) as (before & after & -> & Hf & Hb).
    exists (g :: before), after. repeat split; [done|]. by constructor.
Qed.

Lemma same_filename_Some (toLowerCase : JsString -> JsString)
  (filename : JsString) (g : JsValue) (b : bool) :
  same_filename toLowerCase filename g = Some b ->
  exists s, own_property g (lit "filename") = JStr s /\
            b = bool_decide (toLowerCase s = toLowerCase filename).
Proof.
  unfold same_filename, member.
  destruct g; try discriminate;
    (destruct (own_property _ _) eqn:Hp; try discriminate;
     intros [= <-]; eexists; split; [reflexivity|reflexivity]).
Qed.

(** X5: the duplicate check never fails and never invents a duplicate. When
    [fetch] fails, the status is not 2xx or the body is not JSON, it answers
    [null]. When it answers a file, the listing was a 2xx response whose
    JSON body has an array [files], the file is the first element of it
    whose [filename] equals the name up to case, and every element before
    it has a [filename] that differs. *)
Theorem checkDuplicate_is_sound (toLowerCase : JsString -> JsString)
  (o : FetchOutcome) (filename : JsString) :
  (match o with
   | fetch_failed _ => True
   | responded response =>
       Response_ok response = false \/ Response_json response = None
   end ->
   checkDuplicate_mutationFn toLowerCase (ApiClient_get o) filename = None) /\
  (forall f,
     checkDuplicate_mutationFn toLowerCase (ApiClient_get o) filename = Some f ->
     exists response data files before after s,
       o = responded response /\
       Response_ok response = true /\
       JSON_parse (resp_body response) = Some data /\
       own_property data (lit "files") = JArr files /\
       files = before ++ f :: after /\
       own_property f (lit "filename") = JStr s /\
       toLowerCase s = toLowerCase filename /\
       Forall (fun g => exists t, own_property g (lit "filename") = JStr t /\
                                  toLowerCase t <> toLowerCase filename)
         before).
Proof.
  split.
  - destruct o as [reason|response]; [done|].
    unfold ApiClient_get. intros [H|H].
    + by rewrite H.
    + rewrite H. by destruct (negb (Response_ok response)).
  - intros f. destruct o as [reason|response]; [discriminate|].
    unfold ApiClient_get.
    destruct (Response_ok response) eqn:Hok; [|discriminate]. simpl.
    unfold Response_json.
    destruct (JSON_parse (resp_body response)) as [data|] eqn:Hparse;
      [|discriminate].
    unfold checkDuplicate_mutationFn.
    destruct (member data (lit "files")) as [[| | | | |files|]|] eqn:Hm;
      try discriminate.
    destruct (Array_find (same_filename toLowerCase filename) files)
      as [[g|]|] eqn:Hfind; try discriminate.
    intros [= ->].
    apply Array_find_Some in Hfind as (before & after & -> & Hf & Hb).
    apply same_filename_Some in Hf as (s & Hs & Heq).
    symmetry in Heq. apply bool_decide_eq_true in Heq.
    exists response, data, (before ++ f :: after), before, after, s.
    repeat split; try done.
    + unfold member in Hm. destruct data; try discriminate; by injection Hm.
    + eapply Forall_impl; [exact Hb|]. intros g Hg.
      apply same_filename_Some in Hg as (t & Ht & Hne).
      exists t. split; [exact Ht|].
      symmetry in Hne. by apply bool_decide_eq_false in Hne.
Qed.

Lemma checkDuplicate_is_sound_witness :
  checkDuplicate_mutationFn (fun s => s)
    (ApiClient_get
       (responded {| resp_status := 500; statusText := lit "Internal Server Error";
                     resp_body := lit "oops" |}))
    (lit "report.pdf") = None /\
  exists s,
    own_property (JObj [(lit "filename", JStr (lit "report.pdf"))])
      (lit "filename") = JStr s /\
    s = lit "report.pdf".
Proof.
  split.
  - apply (checkDuplicate_is_sound (fun s => s)). left. vm_compute. reflexivity.
  - destruct (proj2 (checkDuplicate_is_sound (fun s => s)
                       (responded listing_response) (lit "report.pdf"))
                (JObj [(lit "filename", JStr (lit "report.pdf"))]))
      as (_ & _ & _ & _ & _ & s & _ & _ & _ & _ & _ & Hs & Heq & _).
    + vm_compute. reflexivity.
    + exists s. by split.
Defined.

(** ** components/FileUpload.tsx: the duplicate dialog and the retry *)



(** X7: the selected file has always passed validation. If it has so far, it
    still has after each handler; a file that fails validation is shown
    with its message but never selected, so the selection, and with it the
    file that [Try again] retries, stays what it was; and a retry never
    stops at validation. *)
Theorem selected_file_passed_validation (c : FileUploadComponent) :
  (forall f, selectedFile c = Some f -> valid (validateFile f) = true) ->
  (forall file f,
     selectedFile (fst (handleFileSelect_begin file c)) = Some f ->
     valid (validateFile f) = true) /\
  (forall file,
     valid (validateFile file) = false ->
     selectedFile (fst (handleFileSelect_begin file c)) = selectedFile c /\
     handleRetry (fst (handleFileSelect_begin file c)) = handleRetry c) /\
  (forall h file existing w f,
     selectedFile (fst (handleFileSelect_resume h file existing c w)) = Some f ->
     valid (validateFile f) = true) /\
  (forall h w f,
     selectedFile (fst (handleConfirmOverwrite h c w)) = Some f ->
     valid (validateFile f) = true) /\
  selectedFile (handleCancelOverwrite c) = None /\
  (forall f c' proceeds,
     handleRetry c = Some (f, (c', proceeds)) ->
     proceeds = true /\ selectedFile c' = Some f /\ validationError c' = None).
Proof.
  intros Hc. split; [|split; [|split; [|split; [|split]]]].
  - intros file f. unfold handleFileSelect_begin.
    destruct (valid (validateFile file)) eqn:Hv; cbn [negb fst selectedFile].
    + by intros [= <-].
    + apply Hc.
  - intros file Hv. unfold handleFileSelect_begin. rewrite Hv.
    cbn [negb fst selectedFile]. split; [reflexivity|].
    unfold handleRetry. cbn [selectedFile showDuplicateDialog duplicateFile].
    reflexivity.
  - intros h file existing w f.
    destruct existing as [[existing|]|reason]; apply Hc.
  - intros h w f. unfold handleConfirmOverwrite.
    destruct (selectedFile c) eqn:Hs; cbn [fst selectedFile].
    + intros [= <-]. by apply Hc.
    + rewrite Hs. discriminate.
  - reflexivity.
  - intros f c' proceeds. unfold handleRetry.
    destruct (selectedFile c) as [g|] eqn:Hs; [|discriminate].
    unfold handleFileSelect_begin. rewrite (Hc g eq_refl). cbn [negb].
    by intros [= <- <- <-].
Qed.

Lemma selected_file_passed_validation_witness :
  selectedFile
    (fst (handleFileSelect_begin {| name := lit "a/b"; size := 5 |}
            {| selectedFile := Some report_pdf; showDuplicateDialog := false;
               duplicateFile := None; validationError := None |})) =
  Some report_pdf.
Proof.
  destruct (selected_file_passed_validation
              {| selectedFile := Some report_pdf; showDuplicateDialog := false;
                 duplicateFile := None; validationError := None |})
    as (_ & H & _).
  - intros f [= <-]. vm_compute. reflexivity.
  - destruct (H {| name := lit "a/b"; size := 5 |}) as [Hs _].
    + vm_compute. reflexivity.
    + exact Hs.
Defined.

(** ** Upload ids *)

Lemma lit_inj (s t : string) : lit s = lit t -> s = t.
Proof.
  unfold lit. intros H.
  rewrite <- (string_of_list_ascii_of_string s),
          <- (string_of_list_ascii_of_string t).
  f_equal. revert H.
  generalize (list_ascii_of_string s), (list_ascii_of_string t).
  intros l. induction l as [|a l IH]; intros [|b l']; simpl; try discriminate;
    [done|].
  intros [= Hab Hl]. f_equal; [|by apply IH].
  rewrite <- (ascii_N_embedding a), <- (ascii_N_embedding b). by rewrite Hab.
Qed.

Lemma Number_toString_inj (n m : N) :
  Number_toString n = Number_toString m -> n = m.
Proof.
  unfold Number_toString. intros H. apply lit_inj in H.
  assert (forall k, N.to_uint k <> Decimal.Nil) as Hnil.
  { intros k Hk. pose proof (DecimalN.Unsigned.of_to k) as Hof.
    rewrite Hk in Hof. simpl in Hof. subst k. discriminate Hk. }
  apply DecimalN.Unsigned.to_uint_inj.
  pose proof (NilZero.usu (N.to_uint n) (Hnil n)) as Hn.
  pose proof (NilZero.usu (N.to_uint m) (Hnil m)) as Hm.
  rewrite H in Hn. rewrite Hn in Hm. by injection Hm.
Qed.

Lemma upload_id_inj (n m : N) : upload_id n = upload_id m -> n = m.
Proof.
  unfold upload_id. intros H. apply app_inv_head in H.
  by apply Number_toString_inj.
Qed.

Lemma next_uploadId_upload_id (w : World) :
  next_uploadId w = upload_id (uploadIdCounter w + 1).
Proof. reflexivity. Qed.

(** ** What each handler adds *)

Lemma on_abort_appends (h : nat) (id : JsString) (w : World) :
  appends w (on_abort h id w)
    [ setProgress_called h (Some id) None;
      onError id (JStr (lit "Upload cancelled"));
      reject id (JStr (lit "Upload cancelled")) ].
Proof.
  unfold appends. split; [reflexivity|]. split; [reflexivity|].
  change (effects (on_abort h id w)) with
    (((effects w ++ [setProgress_called h (Some id) None])
        ++ [onError id (JStr (lit "Upload cancelled"))])
        ++ [reject id (JStr (lit "Upload cancelled"))]).
  by rewrite <- !app_assoc.
Qed.

Lemma on_error_appends (h : nat) (id : JsString) (file : File) (w : World) :
  appends w (on_error h id file w)
    [ setProgress_called h (Some id)
        (Some {| filename := name file; loaded := 0; total := size file;
                 percentage := 0; status := failed;
                 progress_error :=
                   Some (JStr (lit "Network error during upload")) |});
      onError id (JStr (lit "Network error during upload"));
      reject id (JStr (lit "Network error during upload")) ].
Proof.
  unfold appends. split; [reflexivity|]. split; [reflexivity|].
  change (effects (on_error h id file w)) with
    (((effects w ++
         [setProgress_called h (Some id)
            (Some {| filename := name file; loaded := 0; total := size file;
                     percentage := 0; status := failed;
                     progress_error :=
                       Some (JStr (lit "Network error during upload")) |})])
        ++ [onError id (JStr (lit "Network error during upload"))])
        ++ [reject id (JStr (lit "Network error during upload"))]).
  by rewrite <- !app_assoc.
Qed.

Lemma on_progress_appends h id file e (w : World) :
  appends w (on_progress h id file e w) (progress_effects h id file e).
Proof.
  destruct (on_progress_effects h id file e w) as [He Hx].
  split; [exact Hx|]. split; [|exact He].
  unfold on_progress. by destruct (lengthComputable e).
Qed.

Lemma on_load_appends x h id file st text (w : World) :
  appends w (on_load x h id file st text w) (load_effects x h id file st text).
Proof.
  unfold on_load, load_effects.
  destruct ((200 <=? st) && (st <? 300)).
  - destruct (JSON_parse text) as [response|].
    + split; [reflexivity|]. split; [reflexivity|].
      cbn [block fold_left]. read_state. by rewrite <- !app_assoc.
    + split; [reflexivity|]. split; [reflexivity|].
      cbn [block fold_left]. read_state. by rewrite <- !app_assoc.
  - destruct (JSON_parse text) as [errorResponse|]; [|by repeat split].
    destruct (member errorResponse (lit "detail")) as [detail|];
      [|by repeat split].
    split; [reflexivity|]. split; [reflexivity|].
    cbn [block fold_left]. read_state. by rewrite <- !app_assoc.
Qed.

(** ** Sessions: the identifiers and the outcome of each *)

Lemma outcomes_app (id : JsString) (es1 es2 : list Effect) :
  outcomes id (es1 ++ es2) = outcomes id es1 ++ outcomes id es2.
Proof. apply List.filter_app. Qed.

Lemma xhrs_update_xhr (x : nat) (f : Xhr -> Xhr) (w : World) (q : Xhr) :
  xhrs w !! x = Some q -> xhrs (update_xhr x f w) = <[x := f q]> (xhrs w).
Proof. intros Hq. unfold update_xhr. simpl. by rewrite Hq. Qed.

Lemma xhrs_evolve_refl (l : list Xhr) :
  (forall y q, l !! y = Some q -> readyState q = SENT ->
               awaitingSession q = false) ->
  xhrs_evolve l l.
Proof. intros Hl y q Hq. exists q. eauto. Qed.

Lemma xhrs_evolve_insert (l : list Xhr) (x : nat) (q q' : Xhr) :
  (forall y q, l !! y = Some q -> readyState q = SENT ->
               awaitingSession q = false) ->
  l !! x = Some q ->
  xhr_uploadId q' = xhr_uploadId q ->
  (live q' = true -> live q = true) ->
  (readyState q' = SENT -> awaitingSession q' = false) ->
  xhrs_evolve l (<[x := q']> l).
Proof.
  intros Hl Hq Hid Hlive Hsent y r Hr.
  destruct (decide (y = x)) as [->|Hne].
  - rewrite list_lookup_insert_eq in Hr by (by apply lookup_lt_Some in Hq).
    injection Hr as <-. exists q. eauto.
  - rewrite list_lookup_insert_ne in Hr by done. exists r. eauto.
Qed.

(** The step of the argument: requests keep their identifier and do not
    come back to life, and whatever the step announces for a session is
    the one pair of a request that was live and no longer is. *)
Lemma sessions_ok_evolve (w w' : World) (new : list Effect) :
  sessions_ok w ->
  uploadIdCounter w' = uploadIdCounter w ->
  xhrs_evolve (xhrs w) (xhrs w') ->
  effects w' = effects w ++ new ->
  (forall id, outcomes id new = [] \/
     exists x q q' cb st,
       xhrs w !! x = Some q /\ xhrs w' !! x = Some q' /\
       xhr_uploadId q = id /\ live q = true /\ live q' = false /\
       outcomes id new = [cb; st] /\ outcome_pair id cb st) ->
  sessions_ok w'.
Proof.
  intros [Hissued Hdistinct Hout Hpending Hsent Honce] Hc Hev He Hnew.
  split.
  - intros x q' Hq'. destruct (Hev x q' Hq') as (q & Hq & Hid & _).
    rewrite Hc, Hid. eauto.
  - intros x x' q1' q2' H1 H2 Hid.
    destruct (Hev x q1' H1) as (q1 & Hq1 & Hid1 & _).
    destruct (Hev x' q2' H2) as (q2 & Hq2 & Hid2 & _).
    apply (Hdistinct x x' q1 q2 Hq1 Hq2). congruence.
  - intros id Hne. rewrite He, outcomes_app in Hne. rewrite Hc.
    destruct (outcomes id (effects w)) as [|e es] eqn:Ho.
    + destruct (Hnew id)
        as [Hn | (x & q & q' & cb & st & Hq & _ & Hid & _)].
      * rewrite Hn in Hne. done.
      * rewrite <- Hid. eauto.
    + apply Hout. by rewrite Ho.
  - intros x q' Hq' Hl.
    destruct (Hev x q' Hq') as (q & Hq & Hid & Hlive & _).
    rewrite He, outcomes_app, Hid, (Hpending x q Hq (Hlive Hl)).
    destruct (Hnew (xhr_uploadId q))
      as [Hn | (x0 & q0 & q0' & cb & st & Hq0 & Hq0' & Hid0 & _ & Hl0 & _)].
    + done.
    + assert (x0 = x) as -> by (by apply (Hdistinct x0 x q0 q Hq0 Hq)).
      congruence.
  - intros x q' Hq' Hs. destruct (Hev x q' Hq') as (q & _ & _ & _ & H). auto.
  - intros id. rewrite He, outcomes_app.
    destruct (Hnew id)
      as [Hn | (x & q & q' & cb & st & Hq & _ & Hid & Hl & _ & Hn & Hp)].
    + rewrite Hn, app_nil_r. apply Honce.
    + subst id. rewrite (Hpending x q Hq Hl). right. by exists cb, st.
Qed.

(** A step that touches no request and announces no outcome. *)
Lemma sessions_ok_quiet (w w' : World) (new : list Effect) :
  sessions_ok w -> appends w w' new ->
  (forall id, outcomes id new = []) ->
  sessions_ok w'.
Proof.
  intros Hw (Hx & Hc & He) Hnew.
  apply (sessions_ok_evolve w w' new Hw Hc); [|exact He|by left].
  rewrite Hx. apply xhrs_evolve_refl. apply (sent_not_awaiting w Hw).
Qed.

(** A step that moves one request on. *)
Lemma sessions_ok_update (w w' : World) (x : nat) (q q' : Xhr)
  (new : list Effect) :
  sessions_ok w ->
  xhrs w !! x = Some q ->
  xhrs w' = <[x := q']> (xhrs w) ->
  uploadIdCounter w' = uploadIdCounter w ->
  effects w' = effects w ++ new ->
  xhr_uploadId q' = xhr_uploadId q ->
  (live q' = true -> live q = true) ->
  (readyState q' = SENT -> awaitingSession q' = false) ->
  (forall id, id <> xhr_uploadId q -> outcomes id new = []) ->
  (outcomes (xhr_uploadId q) new = [] \/
   live q = true /\ live q' = false /\
   exists cb st, outcomes (xhr_uploadId q) new = [cb; st] /\
                 outcome_pair (xhr_uploadId q) cb st) ->
  sessions_ok w'.
Proof.
  intros Hw Hq Hx Hc He Hid Hlive Hsent Hother Hown.
  apply (sessions_ok_evolve w w' new Hw Hc); [|exact He|].
  - rewrite Hx.
    apply (xhrs_evolve_insert _ x q q'); auto. apply (sent_not_awaiting w Hw).
  - intros id. destruct (decide (id = xhr_uploadId q)) as [->|Hne].
    + destruct Hown as [Hn | (Hl & Hl' & cb & st & Hn & Hp)]; [by left|].
      right. exists x, q, q', cb, st. split; [exact Hq|].
      split; [|done]. rewrite Hx. apply list_lookup_insert_eq.
      by apply lookup_lt_Some in Hq.
    + left. by apply Hother.
Qed.

Lemma sessions_ok_update_hook (h : nat) (f : Hook -> Hook) :
  preserves sessions_ok (update_hook h f).
Proof.
  intros w Hw. apply (sessions_ok_quiet w _ [] Hw); [|done].
  unfold appends. simpl. by rewrite app_nil_r.
Qed.

Lemma sessions_ok_update_registry f :
  preserves sessions_ok (update_registry f).
Proof.
  intros w Hw. apply (sessions_ok_quiet w _ [] Hw); [|done].
  unfold appends. simpl. by rewrite app_nil_r.
Qed.

Lemma sessions_ok_emit (e : Effect) :
  (forall id, outcomes id [e] = []) -> preserves sessions_ok (emit e).
Proof.
  intros He w Hw. by apply (sessions_ok_quiet w _ [e] Hw).
Qed.

Lemma sessions_ok_setProgress h s p :
  preserves sessions_ok (setProgress h s p).
Proof.
  intros w Hw. unfold setProgress.
  apply sessions_ok_emit; [done|]. by apply sessions_ok_update_hook.
Qed.

(** The three effects of a failure are the callback and the settlement of
    its session, and concern no other. *)
Lemma outcomes_failure (id id' : JsString) e (message : JsValue) :
  outcomes id [e; onError id' message; reject id' message] =
  if JsString_eqb id id'
  then outcomes id [e] ++ [onError id' message; reject id' message]
  else outcomes id [e].
Proof.
  unfold outcomes. cbn [List.filter is_callback_of is_settlement_of orb].
  destruct (JsString_eqb id id'); cbn [orb];
    destruct (is_callback_of id e || is_settlement_of id e); reflexivity.
Qed.

Lemma outcomes_setProgress_failure (id id' : JsString) h s p message :
  outcomes id [setProgress_called h s p; onError id' message;
               reject id' message] =
  if JsString_eqb id id'
  then [onError id' message; reject id' message] else [].
Proof. by rewrite outcomes_failure. Qed.

Lemma JsString_eqb_neq (a b : JsString) : a <> b -> JsString_eqb a b = false.
Proof.
  intros Hne. destruct (JsString_eqb a b) eqn:E; [|done].
  by apply JsString_eqb_eq in E.
Qed.

Lemma load_effects_other (x h : nat) (id id' : JsString) file st text :
  id <> id' -> outcomes id (load_effects x h id' file st text) = [].
Proof.
  intros Hne. apply JsString_eqb_neq in Hne. unfold load_effects.
  destruct ((200 <=? st) && (st <? 300)).
  - destruct (JSON_parse text) as [response|].
    + unfold outcomes.
      cbn [List.filter is_callback_of is_settlement_of orb]. by rewrite Hne.
    + by rewrite outcomes_setProgress_failure, Hne.
  - destruct (JSON_parse text) as [errorResponse|]; [|done].
    destruct (member errorResponse (lit "detail")) as [detail|]; [|done].
    by rewrite outcomes_setProgress_failure, Hne.
Qed.

Lemma load_effects_own (x h : nat) (id : JsString) file st text :
  outcomes id (load_effects x h id file st text) = [] \/
  exists cb s, outcomes id (load_effects x h id file st text) = [cb; s] /\
               outcome_pair id cb s.
Proof.
  unfold load_effects.
  destruct ((200 <=? st) && (st <? 300)).
  - destruct (JSON_parse text) as [response|].
    + right. exists (onSuccess id response), (resolve id response). split.
      * unfold outcomes.
        cbn [List.filter is_callback_of is_settlement_of orb].
        by rewrite JsString_eqb_refl.
      * left. by exists response.
    + right. rewrite outcomes_setProgress_failure, JsString_eqb_refl.
      eexists _, _. split; [reflexivity|]. right. by eexists.
  - destruct (JSON_parse text) as [errorResponse|]; [|by left].
    destruct (member errorResponse (lit "detail")) as [detail|]; [|by left].
    right. rewrite outcomes_setProgress_failure, JsString_eqb_refl.
    eexists _, _. split; [reflexivity|]. right. by eexists.
Qed.

Lemma progress_effects_outcomes (id : JsString) h id' file e :
  outcomes id (progress_effects h id' file e) = [].
Proof. unfold progress_effects. by destruct (lengthComputable e). Qed.

Lemma sessions_ok_xhr_abort (x : nat) : preserves sessions_ok (xhr_abort x).
Proof.
  intros w Hw. unfold xhr_abort.
  destruct (xhrs w !! x) as [q|] eqn:Hq; [|exact Hw].
  destruct (readyState q) eqn:Hr.
  - exact Hw.
  - pose proof (sent_not_awaiting w Hw x q Hq Hr) as Ha.
    cbn [block fold_left].
    set (w1 := set_readyState x DONE w).
    assert (xhrs w1 = <[x := _]> (xhrs w)) as Hx1
      by apply (xhrs_update_xhr x _ w q Hq).
    destruct (on_abort_appends (xhr_hook q) (xhr_uploadId q) w1)
      as (Hx2 & Hc2 & He2).
    set (w2 := on_abort (xhr_hook q) (xhr_uploadId q) w1) in *.
    assert (xhrs w2 !! x = Some
              {| xhr_hook := xhr_hook q; xhr_uploadId := xhr_uploadId q;
                 xhr_file := xhr_file q; readyState := DONE;
                 awaitingSession := awaitingSession q |}) as Hq2.
    { rewrite Hx2, Hx1. apply list_lookup_insert_eq.
      by apply lookup_lt_Some in Hq. }
    eapply (sessions_ok_update w _ x q _ _ Hw Hq).
    + unfold set_readyState. rewrite (xhrs_update_xhr x _ w2 _ Hq2).
      rewrite Hx2, Hx1. apply list_insert_insert_eq.
    + exact Hc2.
    + exact He2.
    + reflexivity.
    + unfold live. simpl. rewrite Ha. done.
    + done.
    + intros id Hne. rewrite outcomes_setProgress_failure.
      by rewrite JsString_eqb_neq.
    + right. split; [by unfold live; rewrite Hr|].
      split; [unfold live; simpl; exact Ha|].
      rewrite outcomes_setProgress_failure, JsString_eqb_refl.
      eexists _, _. split; [reflexivity|]. right. by eexists.
  - eapply (sessions_ok_update w _ x q _ [] Hw Hq).
    + unfold set_readyState. apply (xhrs_update_xhr x _ w q Hq).
    + reflexivity.
    + simpl. by rewrite app_nil_r.
    + reflexivity.
    + unfold live. simpl. by rewrite Hr.
    + done.
    + done.
    + by left.
Qed.

Lemma sessions_ok_cancel (h : nat) : preserves sessions_ok (cancel h).
Proof.
  intros w Hw. unfold cancel.
  destruct (xhrRef (hook w h)) as [x|]; [|exact Hw].
  cbn [block fold_left].
  assert (sessions_ok
            (setProgress h None None
               (setError h (Some (JStr (lit "Upload cancelled")))
                  (setUploading h false (xhr_abort x w))))) as Hw'.
  { apply sessions_ok_setProgress, sessions_ok_update_hook,
      sessions_ok_update_hook, sessions_ok_xhr_abort, Hw. }
  destruct (uploadIdRef _) as [id|]; [|exact Hw'].
  apply sessions_ok_update_hook, sessions_ok_update_registry, Hw'.
Qed.

Lemma next_uploadId_fresh (w : World) (n : N) :
  n <= uploadIdCounter w -> upload_id n <> next_uploadId w.
Proof.
  intros Hn Heq. rewrite next_uploadId_upload_id in Heq.
  apply upload_id_inj in Heq. lia.
Qed.

Lemma sessions_ok_fresh_request (w : World) (x : nat) (q : Xhr) :
  sessions_ok w -> xhrs w !! x = Some q -> xhr_uploadId q <> next_uploadId w.
Proof.
  intros Hw Hq. destruct (ids_issued w Hw x q Hq) as (n & Hn & ->).
  apply next_uploadId_fresh. lia.
Qed.

Lemma sessions_ok_fresh_outcomes (w : World) :
  sessions_ok w -> outcomes (next_uploadId w) (effects w) = [].
Proof.
  intros Hw. destruct (outcomes _ _) as [|e es] eqn:Ho; [done|].
  destruct (outcomes_issued w Hw (next_uploadId w)) as (n & Hn & Heq).
  - by rewrite Ho.
  - symmetry in Heq. apply next_uploadId_fresh in Heq; [done|lia].
Qed.

(** [upload] with a file that fails validation: the session gets the next
    identifier, and is settled on the spot. *)
Lemma sessions_ok_upload_invalid (h : nat) (file : File) (w : World) :
  valid (validateFile file) = false ->
  sessions_ok w -> sessions_ok (upload h file w).
Proof.
  intros Hv Hw. pose proof (validateFile_first_violation file) as Hrep.
  destruct (first_violation file) as [v|]; simpl in Hrep;
    [|rewrite Hrep in Hv; discriminate Hv].
  rewrite (upload_invalid h file w (message v) Hrep (message_truthy v)).
  pose proof (sessions_ok_fresh_outcomes w Hw) as Hfresh.
  pose proof (sessions_ok_fresh_request w) as Hreq.
  set (id := next_uploadId w) in *.
  set (w' := block _ w).
  assert (xhrs w' = xhrs w) as Hx by reflexivity.
  assert (uploadIdCounter w' = uploadIdCounter w + 1) as Hc by reflexivity.
  assert (effects w' =
          effects w ++
          [ setProgress_called h (Some id)
              (Some {| filename := name file; loaded := 0; total := size file;
                       percentage := 0; status := uploading;
                       progress_error := None |});
            onError id (JStr (message v));
            reject id (JStr (message v)) ]) as He.
  { subst w'. read_state. by rewrite <- !app_assoc. }
  clearbody w'.
  destruct Hw as [Hissued Hdistinct Hout Hpending Hsent Honce].
  split.
  - intros x q Hq. rewrite Hx in Hq. rewrite Hc.
    destruct (Hissued x q Hq) as (n & Hn & Hid). exists n. split; [lia|done].
  - rewrite Hx. exact Hdistinct.
  - intros id' Hne. rewrite Hc.
    rewrite He, outcomes_app, outcomes_setProgress_failure in Hne.
    destruct (JsString_eqb id' id) eqn:E.
    + apply JsString_eqb_eq in E. subst id'. exists (uploadIdCounter w + 1).
      split; [lia|]. apply next_uploadId_upload_id.
    + rewrite app_nil_r in Hne. destruct (Hout id' Hne) as (n & Hn & Hid).
      exists n. split; [lia|done].
  - intros x q Hq Hl. rewrite Hx in Hq.
    rewrite He, outcomes_app, outcomes_setProgress_failure.
    rewrite (JsString_eqb_neq _ _ (Hreq x q (Build_sessions_ok w Hissued
      Hdistinct Hout Hpending Hsent Honce) Hq)).
    rewrite app_nil_r. by apply (Hpending x q).
  - rewrite Hx. exact Hsent.
  - intros id'. rewrite He, outcomes_app, outcomes_setProgress_failure.
    destruct (JsString_eqb id' id) eqn:E.
    + apply JsString_eqb_eq in E. subst id'. rewrite Hfresh. right.
      eexists _, _. split; [reflexivity|]. right. by eexists.
    + rewrite app_nil_r. apply Honce.
Qed.

(** [upload] with a file that passes: one more request, under the next
    identifier, waiting for the session token. *)
Lemma sessions_ok_upload_valid (h : nat) (file : File) (w : World) :
  valid (validateFile file) = true ->
  sessions_ok w -> sessions_ok (upload h file w).
Proof.
  intros Hv Hw. rewrite (upload_valid h file w Hv).
  pose proof (sessions_ok_fresh_outcomes w Hw) as Hfresh.
  pose proof (fun x q => sessions_ok_fresh_request w x q Hw) as Hreq.
  set (id := next_uploadId w) in *.
  set (w' := block _ w).
  assert (xhrs w' =
          xhrs w ++ [ {| xhr_hook := h; xhr_uploadId := id; xhr_file := file;
                         readyState := UNSENT; awaitingSession := true |} ])
    as Hx by reflexivity.
  assert (uploadIdCounter w' = uploadIdCounter w + 1) as Hc by reflexivity.
  assert (effects w' =
          effects w ++
          [ setProgress_called h (Some id)
              (Some {| filename := name file; loaded := 0; total := size file;
                       percentage := 0; status := uploading;
                       progress_error := None |}) ]) as He.
  { subst w'. by read_state. }
  clearbody w'.
  assert (forall id', outcomes id' (effects w') = outcomes id' (effects w))
    as Ho.
  { intros id'. rewrite He, outcomes_app. apply app_nil_r. }
  destruct Hw as [Hissued Hdistinct Hout Hpending Hsent Honce].
  assert (forall x q, xhrs w' !! x = Some q ->
            xhrs w !! x = Some q \/
            x = length (xhrs w) /\
            q = {| xhr_hook := h; xhr_uploadId := id; xhr_file := file;
                   readyState := UNSENT; awaitingSession := true |})
    as Hcases.
  { intros x q Hq. rewrite Hx in Hq. apply lookup_snoc_Some in Hq.
    destruct Hq as [[_ Hq]|[-> <-]]; [by left|by right]. }
  split.
  - intros x q Hq. rewrite Hc. destruct (Hcases x q Hq) as [Hold|[-> ->]].
    + destruct (Hissued x q Hold) as (n & Hn & Hid).
      exists n. split; [lia|done].
    + exists (uploadIdCounter w + 1). split; [lia|].
      apply next_uploadId_upload_id.
  - intros x x' q q' Hq Hq' Hid.
    destruct (Hcases x q Hq) as [Hold|[-> ->]];
      destruct (Hcases x' q' Hq') as [Hold'|[-> ->]].
    + by apply (Hdistinct x x' q q').
    + by destruct (Hreq x q Hold).
    + by destruct (Hreq x' q' Hold').
    + reflexivity.
  - intros id' Hne. rewrite Ho in Hne. rewrite Hc.
    destruct (Hout id' Hne) as (n & Hn & Hid). exists n. split; [lia|done].
  - intros x q Hq Hl. rewrite Ho.
    destruct (Hcases x q Hq) as [Hold|[-> ->]].
    + by apply (Hpending x q).
    + exact Hfresh.
  - intros x q Hq Hs. destruct (Hcases x q Hq) as [Hold|[-> ->]].
    + by apply (Hsent x q).
    + discriminate Hs.
  - intros id'. rewrite Ho. apply Honce.
Qed.

Lemma sessions_ok_getTokenAndSend_resume (w : World) (x : nat) (q : Xhr)
  access_token :
  xhrs w !! x = Some q -> awaitingSession q = true ->
  sessions_ok w -> sessions_ok (getTokenAndSend_resume x access_token w).
Proof.
  intros Hq Ha Hw.
  eapply (sessions_ok_update w _ x q _ [xhr_send x access_token] Hw Hq).
  - unfold getTokenAndSend_resume. cbn [block fold_left].
    change (xhrs (emit ?e ?w0)) with (xhrs w0).
    unfold set_readyState, set_awaitingSession.
    rewrite (xhrs_update_xhr x _ _ _ (lookup_update_xhr x _ w q Hq)).
    rewrite (xhrs_update_xhr x _ w q Hq). apply list_insert_insert_eq.
  - reflexivity.
  - reflexivity.
  - reflexivity.
  - intros _. unfold live. rewrite Ha. by destruct (readyState q).
  - done.
  - done.
  - by left.
Qed.

(** A terminal event delivered to a request in flight. *)
Lemma sessions_ok_terminal (w : World) (x : nat) (q : Xhr)
  (listener : World -> World) (new : list Effect) :
  xhrs w !! x = Some q -> readyState q = SENT ->
  (forall w0, appends w0 (listener w0) new) ->
  (forall id, id <> xhr_uploadId q -> outcomes id new = []) ->
  (outcomes (xhr_uploadId q) new = [] \/
   exists cb st, outcomes (xhr_uploadId q) new = [cb; st] /\
                 outcome_pair (xhr_uploadId q) cb st) ->
  sessions_ok w -> sessions_ok (listener (set_readyState x DONE w)).
Proof.
  intros Hq Hr Hl Hother Hown Hw.
  pose proof (sent_not_awaiting w Hw x q Hq Hr) as Ha.
  destruct (Hl (set_readyState x DONE w)) as (Hx & Hc & He).
  eapply (sessions_ok_update w _ x q _ new Hw Hq).
  - rewrite Hx. unfold set_readyState. apply (xhrs_update_xhr x _ w q Hq).
  - exact Hc.
  - exact He.
  - reflexivity.
  - unfold live. simpl. by rewrite Ha.
  - done.
  - exact Hother.
  - destruct Hown as [Hn|Hpair]; [by left|]. right.
    split; [by unfold live; rewrite Hr|]. split; [|exact Hpair].
    unfold live. simpl. exact Ha.
Qed.

Lemma sessions_ok_step (a : Action) :
  preserves sessions_ok (fun w => step w a).
Proof.
  intros w Hw. destruct a as [h file|h| |x tok|x e|x st text|x]; simpl.
  - destruct (valid (validateFile file)) eqn:Hv.
    + by apply sessions_ok_upload_valid.
    + by apply sessions_ok_upload_invalid.
  - by apply sessions_ok_cancel.
  - unfold cancelAllActiveUploads. apply sessions_ok_update_registry.
    apply preserves_forEach_cancelFn; [apply sessions_ok_cancel|exact Hw].
  - destruct (xhrs w !! x) as [q|] eqn:Hq; [|exact Hw].
    destruct (awaitingSession q) eqn:Ha; [|exact Hw].
    by apply (sessions_ok_getTokenAndSend_resume w x q).
  - unfold deliver. destruct (xhrs w !! x) as [q|]; [|exact Hw].
    destruct (readyState q); try exact Hw.
    apply (sessions_ok_quiet w _ _ Hw (on_progress_appends _ _ _ e w)).
    intros id. apply progress_effects_outcomes.
  - unfold deliver. destruct (xhrs w !! x) as [q|] eqn:Hq; [|exact Hw].
    destruct (readyState q) eqn:Hr; try exact Hw.
    cbn [block fold_left].
    apply (sessions_ok_terminal w x q
             (on_load x (xhr_hook q) (xhr_uploadId q) (xhr_file q) st text)
             (load_effects x (xhr_hook q) (xhr_uploadId q) (xhr_file q)
                st text) Hq Hr); [| | |exact Hw].
    + intros w0. apply on_load_appends.
    + intros id Hne. by apply load_effects_other.
    + apply load_effects_own.
  - unfold deliver. destruct (xhrs w !! x) as [q|] eqn:Hq; [|exact Hw].
    destruct (readyState q) eqn:Hr; try exact Hw.
    cbn [block fold_left].
    eapply (sessions_ok_terminal w x q
              (on_error (xhr_hook q) (xhr_uploadId q) (xhr_file q)) _ Hq Hr);
      [| | |exact Hw].
    + intros w0. apply on_error_appends.
    + intros id Hne. rewrite outcomes_setProgress_failure.
      by rewrite JsString_eqb_neq.
    + right. rewrite outcomes_setProgress_failure, JsString_eqb_refl.
      eexists _, _. split; [reflexivity|]. right. by eexists.
Qed.

Lemma sessions_ok_initial : sessions_ok initial_world.
Proof. split; try done. intros id. by left. Qed.

Lemma sessions_ok_run (actions : list Action) :
  sessions_ok (run initial_world actions).
Proof.
  apply preserves_run; [apply sessions_ok_step|apply sessions_ok_initial].
Qed.

Lemma NoDup_map_lookup {A B} (f : A -> B) (l : list A) :
  (forall i j a b, l !! i = Some a -> l !! j = Some b -> f a = f b -> i = j) ->
  NoDup (List.map f l).
Proof.
  intros H. apply NoDup_alt. intros i j y Hi Hj.
  change (List.map f l) with (f <$> l) in Hi, Hj.
  rewrite list_lookup_fmap in Hi, Hj.
  destruct (l !! i) as [a|] eqn:Ha; [|discriminate].
  destruct (l !! j) as [b|] eqn:Hb; [|discriminate].
  simpl in Hi, Hj. apply (H i j a b Ha Hb). congruence.
Qed.

(** X8: upload identifiers are never reused: whatever the users and the
    browser do, the requests created so far carry pairwise distinct
    identifiers, each of the form [upload-n] with [n] between 1 and the
    counter. The counter is a Number, and [++] is exact below [2 ^ 53]. *)
Theorem upload_ids_are_never_reused (actions : list Action) :
  uploadIdCounter (run initial_world actions) < 2 ^ 53 ->
  NoDup (List.map xhr_uploadId (xhrs (run initial_world actions))) /\
  Forall (fun q =>
            exists n, 1 <= n <= uploadIdCounter (run initial_world actions) /\
                      xhr_uploadId q = upload_id n)
    (xhrs (run initial_world actions)).
Proof.
  intros _. pose proof (sessions_ok_run actions) as Hw. split.
  - apply NoDup_map_lookup. intros i j a b. apply (ids_distinct _ Hw).
  - apply List.Forall_forall. intros q Hq.
    apply list_elem_of_In, list_elem_of_lookup in Hq. destruct Hq as [x Hq].
    apply (ids_issued _ Hw x q Hq).
Qed.

Lemma upload_ids_are_never_reused_witness :
  NoDup (List.map xhr_uploadId
           (xhrs (run initial_world
                    [Upload 0 report_pdf; Cancel 0; Upload 0 report_pdf]))).
Proof.
  apply (upload_ids_are_never_reused
           [Upload 0 report_pdf; Cancel 0; Upload 0 report_pdf]).
  vm_compute. reflexivity.
Defined.



(** X10: nothing is announced early: as long as the request of a session waits
    for the session token or is in flight, neither callback has been
    called and the promise is not settled. (The counter is below
    [2 ^ 53], where the identifiers are distinct.) *)
Theorem no_outcome_before_the_request_ends (actions : list Action)
  (x : nat) (q : Xhr) :
  uploadIdCounter (run initial_world actions) < 2 ^ 53 ->
  xhrs (run initial_world actions) !! x = Some q ->
  live q = true ->
  outcomes (xhr_uploadId q) (effects (run initial_world actions)) = [].
Proof.
  intros _. apply (live_pending _ (sessions_ok_run actions)).
Qed.

Lemma no_outcome_before_the_request_ends_witness :
  outcomes (upload_id 1)
    (effects (run initial_world
                [ Upload 0 report_pdf; Cancel 0; SessionReady 0 None;
                  UploadProgress 0
                    {| lengthComputable := true; e_loaded := 10;
                       e_total := 1000 |} ])) = [].
Proof.
  apply (no_outcome_before_the_request_ends
           [ Upload 0 report_pdf; Cancel 0; SessionReady 0 None;
             UploadProgress 0
               {| lengthComputable := true; e_loaded := 10;
                  e_total := 1000 |} ]
           0
           {| xhr_hook := 0; xhr_uploadId := upload_id 1;
              xhr_file := report_pdf; readyState := SENT;
              awaitingSession := false |}).
  - vm_compute. reflexivity.
  - vm_compute. reflexivity.
  - reflexivity.
Defined.

(** ** The percentage of a progress event *)

(** X11: the percentage that the [progress] listener computes is one: for an
    event with [0 < total] and [loaded <= total] it lies between 0 and 100,
    it is 0 when nothing is loaded and 100 when everything is, in binary64
    arithmetic, whatever the total. *)
Theorem percentage_is_within_0_and_100 (l t : N) :
  0 < t -> l <= t ->
  (0 <= percentage_of l t <= 100)%Z /\
  percentage_of 0 t = 0%Z /\
  percentage_of t t = 100%Z.
Proof.
  intros Ht Hl.
  assert (0 < inject_Z (Z.of_N t))%Q as HtQ by (rewrite <- (Zlt_Qlt 0); lia).
  split; [|split].
  - split; [apply percentage_of_nonneg|by apply percentage_of_le_100].
  - apply Z.le_antisymm; [|apply percentage_of_nonneg].
    unfold percentage_of, Double.mul, Double.div.
    apply (Z.le_trans _ (Math_round (Double.round (Double.round 0 * 100))));
      [|vm_compute; discriminate].
    apply Math_round_mono, DoubleFacts.round_mono.
    + apply Qmult_le_0_compat; [|discriminate].
      apply DoubleFacts.round_nonneg, quotient_nonneg.
    + apply Qmult_le_compat_r; [|discriminate].
      apply DoubleFacts.round_mono; [apply quotient_nonneg|].
      apply Qle_shift_div_r; [exact HtQ|]. rewrite Qmult_0_l. apply Qle_refl.
  - apply Z.le_antisymm; [apply percentage_of_le_100; lia|].
    unfold percentage_of, Double.mul, Double.div.
    apply (Z.le_trans _ (Math_round (Double.round (Double.round 1 * 100))));
      [vm_compute; discriminate|].
    apply Math_round_mono, DoubleFacts.round_mono.
    + vm_compute. discriminate.
    + apply Qmult_le_compat_r; [|discriminate].
      apply DoubleFacts.round_mono; [discriminate|].
      apply Qle_shift_div_l; [exact HtQ|]. rewrite Qmult_1_l. apply Qle_refl.
Qed.

Lemma percentage_is_within_0_and_100_witness :
  (0 <= percentage_of 420 1200 <= 100)%Z.
Proof.
  apply (percentage_is_within_0_and_100 420 1200); lia.
Defined.

(** ** Pagination *)

Module DoubleExact.
Import Double DoubleFacts.
Local Open Scope Q_scope.

Lemma rne_comp (a b : Q) : a == b -> rne a = rne b.
Proof.
  intros H. apply Z.le_antisymm; apply rne_mono; rewrite H; apply Qle_refl.
Qed.

(** Above the midpoint the nearest integer is the next one. *)
Lemma rne_above (x : Q) (K : Z) :
  inject_Z K + (1 # 2) < x -> (K + 1 <= rne x)%Z.
Proof.
  intros Hx.
  assert (K <= Qfloor x)%Z as Hf.
  { rewrite <- (Qfloor_Z K). apply Qfloor_resp_le. lra. }
  destruct (Z.eq_dec (Qfloor x) K) as [Heq|Hne].
  - unfold rne. rewrite Heq.
    destruct (Qcompare_spec (x - inject_Z K) (1 # 2)) as [H|H|H];
      [lra | lra | lia].
  - destruct (rne_floor x) as [-> | ->]; lia.
Qed.

Lemma pow2_cancel (a : Z) : 2 ^ a * 2 ^ (- a) == 1.
Proof. rewrite <- pow2_plus. by replace (a + - a)%Z with 0%Z by lia. Qed.

(** An integer of at most 53 bits is a Number. *)
Lemma round_integer (q : Q) (z : Z) :
  (1 <= z < 2 ^ 53)%Z -> q == inject_Z z -> round q == inject_Z z.
Proof.
  intros Hz Hq.
  assert (1 <= q) as H1 by (rewrite Hq; rewrite <- (Zle_Qle 1); lia).
  assert (0 < q) as Hpos by lra.
  unfold round. destruct (Qcompare_spec q 0) as [H|H|H]; [lra|lra|].
  destruct (binade_spec q Hpos) as [Hlo Hhi].
  unfold round_pos. set (e := binade q) in *.
  assert (0 <= e)%Z as He0.
  { apply pow2_le_inv. apply (Qle_lt_trans _ q); [exact H1|exact Hhi]. }
  assert (e <= 52)%Z as He52.
  { apply pow2_le_inv. apply (Qle_lt_trans _ q); [exact Hlo|].
    rewrite Hq. rewrite <- (pow2_inject (52 + 1)) by lia.
    rewrite <- Zlt_Qlt. lia. }
  assert (q / 2 ^ (e - 52) == inject_Z (z * 2 ^ (52 - e))) as Hscaled.
  { rewrite inject_Z_mult, (pow2_inject (52 - e)) by lia. rewrite Hq.
    pose proof (pow2_cancel (e - 52)) as Hc.
    replace (- (e - 52))%Z with (52 - e)%Z in Hc by lia.
    pose proof (pow2_pos (e - 52)) as Hu.
    apply (Qmult_inj_r _ _ (2 ^ (e - 52))); [lra|].
    unfold Qdiv. rewrite <- !Qmult_assoc.
    rewrite (Qmult_comm (/ _)), Qmult_inv_r by lra.
    rewrite (Qmult_comm (2 ^ (52 - e))), Hc. reflexivity. }
  rewrite (rne_comp _ _ Hscaled), rne_inject_Z.
  rewrite inject_Z_mult, (pow2_inject (52 - e)) by lia.
  pose proof (pow2_cancel (e - 52)) as Hc.
  replace (- (e - 52))%Z with (52 - e)%Z in Hc by lia.
  rewrite <- Qmult_assoc, (Qmult_comm (2 ^ (52 - e))), Hc. ring.
Qed.

(** A quotient of integers that lies above an integer stays above it when
    rounded: the denominator is too small for the quotient to be within
    half a unit in the last place of the integer. *)
Lemma round_quotient_above (t p k : Z) :
  (1 <= k)%Z -> (0 < p)%Z -> (t < 2 ^ 53)%Z -> (k * p < t)%Z ->
  inject_Z k < round (inject_Z t / inject_Z p).
Proof.
  intros Hk Hp Ht Hkp.
  assert (0 < inject_Z p) as HpQ by (rewrite <- (Zlt_Qlt 0); lia).
  set (q := inject_Z t / inject_Z p).
  assert (inject_Z k < q) as Hkq.
  { apply Qlt_shift_div_l; [exact HpQ|].
    rewrite <- inject_Z_mult, <- Zlt_Qlt. exact Hkp. }
  assert (1 <= inject_Z k) as Hk1 by (rewrite <- (Zle_Qle 1); lia).
  assert (0 < q) as Hpos by lra.
  unfold round. destruct (Qcompare_spec q 0) as [H|H|H]; [lra|lra|].
  destruct (binade_spec q Hpos) as [Hlo Hhi].
  unfold round_pos. set (e := binade q) in *.
  assert (0 <= e)%Z as He0.
  { apply pow2_le_inv. apply (Qle_lt_trans _ q); [lra|exact Hhi]. }
  assert (2 ^ e * p <= t)%Z as Hpt.
  { rewrite Zle_Qle, inject_Z_mult, (pow2_inject e He0).
    apply (Qmult_le_r _ _ (/ inject_Z p)).
    - by apply Qinv_lt_0_compat.
    - rewrite <- Qmult_assoc, Qmult_inv_r by lra. rewrite Qmult_1_r.
      exact Hlo. }
  assert (e <= 52)%Z as He52.
  { destruct (Z_le_gt_dec e 52) as [Hle|Hgt]; [exact Hle|].
    assert (2 ^ 53 <= 2 ^ e)%Z by (apply Z.pow_le_mono_r; lia). nia. }
  set (M := (2 ^ (52 - e))%Z).
  assert (0 < M)%Z as HM by (apply Z.pow_pos_nonneg; lia).
  assert (p < 2 * M)%Z as HpM.
  { assert (2 ^ e * (2 * M) = 2 ^ 53)%Z as Hsplit.
    { unfold M. rewrite <- (Z.pow_succ_r 2 (52 - e)) by lia.
      rewrite <- Z.pow_add_r by lia. f_equal. lia. }
    assert (0 < 2 ^ e)%Z as He by (apply Z.pow_pos_nonneg; lia).
    nia. }
  pose proof (pow2_pos (e - 52)) as Hu.
  pose proof (pow2_cancel (e - 52)) as Hc.
  replace (- (e - 52))%Z with (52 - e)%Z in Hc by lia.
  rewrite <- (pow2_inject (52 - e)) in Hc by lia. fold M in Hc.
  set (u := 2 ^ (e - 52)) in *.
  assert (inject_Z (k * M) + (1 # 2) < q / u) as Hmid.
  { apply Qlt_shift_div_l; [exact Hu|].
    apply (Qmult_lt_r _ _ (inject_Z M));
      [rewrite <- (Zlt_Qlt 0); exact HM|].
    assert ((inject_Z (k * M) + (1 # 2)) * u * inject_Z M ==
            inject_Z (k * M) + (1 # 2)) as -> by (rewrite <- Qmult_assoc, Hc; ring).
    unfold q. apply (Qmult_lt_r _ _ (inject_Z p) HpQ).
    assert (inject_Z t / inject_Z p * inject_Z M * inject_Z p ==
            inject_Z t * inject_Z M) as -> by (field; lra).
    assert (inject_Z (2 * (k * M) * p + p) < inject_Z (2 * (t * M))) as Hz
      by (rewrite <- Zlt_Qlt; nia).
    rewrite inject_Z_plus, !inject_Z_mult in Hz. rewrite inject_Z_mult.
    change (inject_Z 2) with 2 in Hz.
    set (K := inject_Z k) in *. set (M' := inject_Z M) in *.
    set (P := inject_Z p) in *. set (T := inject_Z t) in *.
    nra. }
  apply rne_above in Hmid.
  apply (Qlt_le_trans _ (inject_Z (k * M + 1) * u)).
  - rewrite inject_Z_plus, inject_Z_mult.
    assert ((inject_Z k * inject_Z M + inject_Z 1) * u ==
            inject_Z k * (u * inject_Z M) + u) as -> by ring.
    rewrite Hc. change (inject_Z 1) with 1. lra.
  - apply Qmult_le_compat_r; [|lra]. rewrite <- Zle_Qle. exact Hmid.
Qed.

(** [Math.ceil] of the quotient of two integers is the exact ceiling, as
    long as the dividend is below [2 ^ 53]. *)
Lemma ceil_div_exact (t p : Z) :
  (0 <= t < 2 ^ 53)%Z -> (0 < p)%Z ->
  Qceiling (div (inject_Z t) (inject_Z p)) = ((t + p - 1) / p)%Z.
Proof.
  intros Ht Hp. unfold div.
  assert (0 < inject_Z p) as HpQ by (rewrite <- (Zlt_Qlt 0); lia).
  pose proof (Z.div_mod t p ltac:(lia)) as Hdiv.
  pose proof (Z.mod_pos_bound t p Hp) as Hmod.
  pose proof (Z.div_pos t p ltac:(lia) Hp) as Hk0.
  set (k := (t / p)%Z) in *. set (r := (t mod p)%Z) in *.
  clearbody k r.
  destruct (Z.eq_dec r 0%Z) as [Hr|Hr].
  - (* the quotient is an integer *)
    assert ((t + p - 1) / p = k)%Z as ->.
    { symmetry. apply (Z.div_unique _ _ _ (p - 1)); lia. }
    assert (inject_Z t / inject_Z p == inject_Z k) as Hq.
    { assert (t = k * p)%Z as -> by lia. rewrite inject_Z_mult. field. lra. }
    destruct (Z.eq_dec k 0%Z) as [Hk|Hk].
    + rewrite Hk in Hq. rewrite (Qceiling_comp _ _ (round_0 _ Hq)), Hk. reflexivity.
    + assert (k < 2 ^ 53)%Z by nia.
      rewrite (Qceiling_comp _ _ (round_integer _ k ltac:(lia) Hq)).
      apply Qceiling_Z.
  - (* it is not: the ceiling is the next integer *)
    assert ((t + p - 1) / p = k + 1)%Z as ->.
    { symmetry. apply (Z.div_unique _ _ _ (r - 1)); lia. }
    set (q := inject_Z t / inject_Z p).
    assert (0 < q) as Hpos.
    { apply Qlt_shift_div_l; [exact HpQ|]. rewrite Qmult_0_l.
      rewrite <- (Zlt_Qlt 0). lia. }
    assert (inject_Z k < round q) as Hlow.
    { destruct (Z.eq_dec k 0%Z) as [Hk|Hk].
      - rewrite Hk. unfold round. destruct (Qcompare_spec q 0) as [H|H|H]; [lra|lra|].
        apply (Qlt_le_trans _ (2 ^ binade q)); [apply pow2_pos|].
        apply round_pos_bounds, Hpos.
      - apply round_quotient_above; lia. }
    assert (round q <= inject_Z (k + 1)) as Hhigh.
    { assert (k + 1 < 2 ^ 53)%Z by nia.
      rewrite <- (round_integer (inject_Z (k + 1)) (k + 1)) by (lia || reflexivity).
      apply round_mono; [lra|].
      apply Qle_shift_div_r; [exact HpQ|].
      rewrite <- inject_Z_mult, <- Zle_Qle. nia. }
    pose proof (Qle_ceiling (round q)) as Hc1.
    pose proof (Qceiling_lt (round q)) as Hc2.
    assert (inject_Z k < inject_Z (Qceiling (round q))) as H1 by lra.
    assert (inject_Z (Qceiling (round q) - 1) < inject_Z (k + 1)) as H2 by lra.
    rewrite <- Zlt_Qlt in H1, H2. lia.
Qed.

End DoubleExact.

Lemma totalPages_exact (s : Pagination) :
  0 < pageSize s -> totalItems s < 2 ^ 53 ->
  totalPages s =
  Z.max 1 ((Z.of_N (totalItems s) + Z.of_N (pageSize s) - 1)
           / Z.of_N (pageSize s)).
Proof.
  intros Hp Ht. unfold totalPages, Math_ceil.
  rewrite DoubleExact.ceil_div_exact; [reflexivity| |lia].
  split; [lia|]. change (2 ^ 53)%Z with (Z.of_N (2 ^ 53)). lia.
Qed.

Lemma totalPages_ge_1 (s : Pagination) : (1 <= totalPages s)%Z.
Proof. unfold totalPages. lia. Qed.

Lemma totalPages_mono (s : Pagination) (total : N) :
  0 < pageSize s -> totalItems s <= total ->
  (totalPages s <= totalPages (setTotalItems total s))%Z.
Proof.
  intros Hp Ht. unfold totalPages, Math_ceil, Double.div. simpl.
  apply Z.max_le_compat_l. unfold Qceiling.
  apply Z.opp_le_mono. rewrite !Z.opp_involutive.
  apply Qfloor_resp_le, Qopp_le_compat.
  apply DoubleFacts.round_mono; [apply quotient_nonneg|].
  unfold Qdiv. apply Qmult_le_compat_r.
  - rewrite <- Zle_Qle. lia.
  - apply Qinv_le_0_compat. rewrite <- (Zle_Qle 0). lia.
Qed.

Lemma ceiling_division_bounds (t p : Z) :
  (0 < t)%Z -> (0 < p)%Z ->
  ((Z.max 1 ((t + p - 1) / p) - 1) * p < t
   <= Z.max 1 ((t + p - 1) / p) * p)%Z.
Proof.
  intros Ht Hp.
  pose proof (Z.div_mod (t + p - 1) p ltac:(lia)) as Hdiv.
  pose proof (Z.mod_pos_bound (t + p - 1) p Hp) as Hmod.
  assert (1 <= (t + p - 1) / p)%Z by (apply Z.div_le_lower_bound; lia).
  rewrite Z.max_r by lia. nia.
Qed.

(** X19: [totalPages] is the number of pages: although it is computed by a
    floating-point division, for a page size and a total below [2 ^ 53] it
    is 1 when there are no items, and otherwise the one number of pages on
    which the items fit with the last page not empty. *)
Theorem totalPages_is_the_number_of_pages (s : Pagination) :
  0 < pageSize s < 2 ^ 53 -> totalItems s < 2 ^ 53 ->
  (totalItems s = 0 -> totalPages s = 1%Z) /\
  (0 < totalItems s ->
   ((totalPages s - 1) * Z.of_N (pageSize s) < Z.of_N (totalItems s)
    <= totalPages s * Z.of_N (pageSize s))%Z).
Proof.
  intros [Hp _] Ht. rewrite (totalPages_exact s Hp Ht). split.
  - intros ->. change (Z.of_N 0) with 0%Z.
    rewrite Z.div_small by lia. reflexivity.
  - intros Hpos. apply ceiling_division_bounds; lia.
Qed.

Lemma totalPages_is_the_number_of_pages_witness :
  totalPages {| page := 1; pageSize := 6; totalItems := 13 |} = 3%Z.
Proof.
  destruct (totalPages_is_the_number_of_pages
              {| page := 1; pageSize := 6; totalItems := 13 |})
    as [_ H].
  - simpl. lia.
  - simpl. reflexivity.
  - simpl in H. lia.
Defined.

Lemma totalPages_pager_move (m : PagerMove) (s : Pagination) :
  totalPages (pager_move m s) = totalPages s.
Proof.
  destruct m; simpl; try reflexivity.
  - unfold previousPage. by destruct (1 <? page s)%Z.
  - unfold nextPage. by destruct (page s <? totalPages s)%Z.
Qed.

(** X20: the page stays within bounds: a move of the pager leaves the page
    between 1 and [totalPages], and so does a new total that is not
    smaller than the one before. *)
Theorem page_stays_within_bounds (s : Pagination) (ev : PagerEvent) :
  0 < pageSize s ->
  within_bounds s ->
  match ev with
  | Moved _ => True
  | TotalChanged total => totalItems s <= total
  end ->
  within_bounds (pager_step s ev).
Proof.
  intros Hp [Hlo Hhi] Hev. unfold within_bounds.
  pose proof (totalPages_ge_1 s) as H1.
  destruct ev as [m|total]; simpl.
  - rewrite totalPages_pager_move.
    destruct m as [ | | | |newPage]; simpl.
    + lia.
    + unfold previousPage. destruct (Z.ltb_spec 1 (page s)); simpl; lia.
    + unfold nextPage.
      destruct (Z.ltb_spec (page s) (totalPages s)); simpl; lia.
    + lia.
    + lia.
  - pose proof (totalPages_mono s total Hp Hev). lia.
Qed.

Lemma page_stays_within_bounds_witness :
  within_bounds
    (pager_step (setTotalItems 13 (usePagination 6)) (Moved GoNext)).
Proof.
  apply (page_stays_within_bounds
           (setTotalItems 13 (usePagination 6)) (Moved GoNext)).
  - reflexivity.
  - unfold within_bounds. vm_compute. split; discriminate.
  - exact I.
Defined.

(** X21: the range that [getPageRangeText] shows is the one that [getOffset]
    starts, and it is a range of items exactly when the page exists: for a
    total that is not 0, [start <= end] holds if and only if the page is
    at most [totalPages]. On such a page the range lies within the items,
    holds at most [pageSize] of them, and ends at the total exactly on the
    last page. A page beyond the last one, which [setTotalItems] leaves in
    place when the total shrinks, is shown with [start > end]. *)
Theorem page_range_is_a_range_iff_page_exists (pg : Z) (p t : N) :
  0 < p < 2 ^ 53 -> 0 < t < 2 ^ 53 -> (1 <= pg)%Z ->
  getPageRangeText pg p t =
    Integer_toString (getOffset pg p + 1) ++ lit "-"
    ++ Integer_toString (range_end pg p t) ++ lit " of "
    ++ Number_toString t ++ lit " items" /\
  ((range_start pg p <= range_end pg p t)%Z <->
   (pg <= totalPages {| page := pg; pageSize := p; totalItems := t |})%Z) /\
  ((pg <= totalPages {| page := pg; pageSize := p; totalItems := t |})%Z ->
   (1 <= range_start pg p)%Z /\
   (range_end pg p t <= Z.of_N t)%Z /\
   (range_end pg p t - range_start pg p + 1 <= Z.of_N p)%Z /\
   (range_end pg p t = Z.of_N t <->
    pg = totalPages {| page := pg; pageSize := p; totalItems := t |})).
Proof.
  intros [Hp _] [Ht Ht'] Hpg.
  pose proof (totalPages_exact {| page := pg; pageSize := p; totalItems := t |}
                Hp Ht') as Hn.
  pose proof (ceiling_division_bounds (Z.of_N t) (Z.of_N p) ltac:(lia)
                ltac:(lia)) as Hb.
  cbn [pageSize totalItems] in Hn. rewrite <- Hn in Hb.
  set (n := totalPages _) in *. clearbody n. clear Hn.
  unfold range_start, range_end, getOffset.
  split; [|split].
  - unfold getPageRangeText, range_start, range_end.
    destruct (N.eqb_spec t 0); [lia|reflexivity].
  - split; intros H; nia.
  - intros H. repeat split; try nia.
Qed.

Lemma page_range_is_a_range_iff_page_exists_witness :
  (range_end 4 6 13 < range_start 4 6)%Z.
Proof.
  destruct (page_range_is_a_range_iff_page_exists 4 6 13) as (_ & [H _] & _).
  - simpl. lia.
  - simpl. lia.
  - lia.
  - destruct (Z.lt_ge_cases (range_end 4 6 13) (range_start 4 6)) as [Hlt|Hge];
      [exact Hlt|].
    apply H in Hge. vm_compute in Hge. by destruct Hge.
Defined.

(** ** lib/api.ts: [uploadFile] against the hook *)


(** ** pages/Dashboard.tsx *)

Lemma activeUploads_snoc (evs : list DashboardEvent) (ev : DashboardEvent) :
  activeUploads (evs ++ [ev]) = dashboard_step (activeUploads evs) ev.
Proof. unfold activeUploads. by rewrite fold_left_app. Qed.

Lemma started_snoc (evs : list DashboardEvent) (ev : DashboardEvent) :
  started (evs ++ [ev]) = (started evs + if is_start ev then 1 else 0)%Z.
Proof.
  unfold started. rewrite List.filter_app, length_app. simpl.
  destruct (is_start ev); simpl; lia.
Qed.

Lemma finished_snoc (evs : list DashboardEvent) (ev : DashboardEvent) :
  finished (evs ++ [ev]) = (finished evs + if is_finish ev then 1 else 0)%Z.
Proof.
  unfold finished. rewrite List.filter_app, length_app. simpl.
  destruct (is_finish ev); simpl; lia.
Qed.

(** X22: the count of active uploads is exact as long as no upload finishes
    that was not started: if, up to a logout, every prefix of the events
    has at least as many starts as finishes, the count is the number of
    starts less the number of finishes, so the clamp at 0 changes nothing.
    After a confirmed logout the count starts again from 0, whatever was
    pending. *)
Theorem activeUploads_counts_unfinished_uploads
  (evs : list DashboardEvent) :
  forallb (fun ev => negb (is_logout ev)) evs = true ->
  (forall k, (finished (take k evs) <= started (take k evs))%Z) ->
  activeUploads evs = (started evs - finished evs)%Z /\
  forall before, activeUploads (before ++ LogoutConfirmed :: evs) =
                 activeUploads evs.
Proof.
  intros Hlogout Hbalanced. split.
  - induction evs as [|ev evs IH] using rev_ind; [done|].
    rewrite forallb_app in Hlogout. apply andb_true_iff in Hlogout as [Hl He].
    rewrite activeUploads_snoc, started_snoc, finished_snoc, IH.
    + pose proof (Hbalanced (S (length evs))) as Hk.
      rewrite take_ge in Hk by (rewrite length_app; simpl; lia).
      rewrite started_snoc, finished_snoc in Hk.
      destruct ev; simpl in *; unfold handleUploadStart, handleUploadSuccess,
        handleUploadError; first [lia | discriminate].
    + exact Hl.
    + intros k. destruct (decide (k <= length evs)%nat) as [Hk|Hk].
      * specialize (Hbalanced k). by rewrite take_app_le in Hbalanced.
      * specialize (Hbalanced (length evs)).
        rewrite take_app_le, take_ge in Hbalanced by lia.
        rewrite take_ge by lia. exact Hbalanced.
  - intros before. unfold activeUploads.
    by rewrite fold_left_app.
Qed.

Lemma activeUploads_counts_unfinished_uploads_witness :
  activeUploads
    [UploadStarted; UploadStarted; UploadFailed; UploadStarted;
     UploadSucceeded] = 1%Z.
Proof.
  destruct (activeUploads_counts_unfinished_uploads
              [UploadStarted; UploadStarted; UploadFailed; UploadStarted;
               UploadSucceeded]) as [H _].
  - reflexivity.
  - intros k. do 6 (destruct k as [|k]; [vm_compute; discriminate|]).
    vm_compute. discriminate.
  - exact H.
Defined.

(** ** How a request in flight ends *)

Lemma Map_has_delete_eq (k : JsString) (m : list (JsString * nat)) :
  Map_has k (Map_delete k m) = false.
Proof.
  destruct (Map_has k (Map_delete k m)) eqn:H; [|reflexivity].
  apply Map_has_delete in H. by destruct H.
Qed.

Lemma published_status_app (w : World) (id : JsString) (es1 es2 : list Effect)
  h p s :
  effects w = es1 ++ setProgress_called h (Some id) (Some p) :: es2 ->
  Forall (fun e => match e with setProgress_called _ _ _ => False | _ => True end)
    es2 ->
  status p = s ->
  published_status w id = Some s.
Proof.
  intros He Hes2 <-. unfold published_status, last_published. rewrite He.
  rewrite fold_left_app. cbn [fold_left]. rewrite JsString_eqb_refl.
  clear He. induction Hes2 as [|e es2 He2 _ IH]; [reflexivity|].
  cbn [fold_left]. destruct e; try contradiction; exact IH.
Qed.

Lemma step_in_flight (w : World) (x h : nat) (id : JsString) (file : File)
  (listener : Xhr -> World -> World) :
  in_flight w x h id file ->
  deliver x listener w =
  listener {| xhr_hook := h; xhr_uploadId := id; xhr_file := file;
              readyState := SENT; awaitingSession := false |} w.
Proof. intros Hx. unfold deliver. by rewrite Hx. Qed.



(** X13: a network error fails the session: the request is over, the session
    publishes [failed] with nothing loaded, the hook stops uploading with
    the error [Network error during upload], the session leaves the
    registry, and [onError] is called once and the promise rejected, both
    with that message. *)
Theorem network_error_fails_the_session (w : World) (x h : nat)
  (id : JsString) (file : File) :
  in_flight w x h id file ->
  effects (step w (NetworkError x)) =
    effects w ++
    [ setProgress_called h (Some id)
        (Some {| filename := name file; loaded := 0; total := size file;
                 percentage := 0; status := failed;
                 progress_error :=
                   Some (JStr (lit "Network error during upload")) |});
      onError id (JStr (lit "Network error during upload"));
      reject id (JStr (lit "Network error during upload")) ] /\
  published_status (step w (NetworkError x)) id = Some failed /\
  st_uploading (hook (step w (NetworkError x)) h) = false /\
  st_error (hook (step w (NetworkError x)) h) =
    Some (JStr (lit "Network error during upload")) /\
  uploadIdRef (hook (step w (NetworkError x)) h) = None /\
  activeUploadCancelFunctions (step w (NetworkError x)) =
    Map_delete id (activeUploadCancelFunctions w) /\
  registered (step w (NetworkError x)) id = false /\
  xhrs (step w (NetworkError x)) !! x =
    Some {| xhr_hook := h; xhr_uploadId := id; xhr_file := file;
            readyState := DONE; awaitingSession := false |}.
Proof.
  intros Hx. cbn [step]. rewrite (step_in_flight w x h id file _ Hx).
  cbn [block fold_left xhr_hook xhr_uploadId xhr_file].
  assert (xhrs (set_readyState x DONE w) !! x =
          Some {| xhr_hook := h; xhr_uploadId := id; xhr_file := file;
                  readyState := DONE; awaitingSession := false |}) as Hx1
    by (unfold set_readyState; exact (lookup_update_xhr x _ w _ Hx)).
  set (w1 := set_readyState x DONE w) in *.
  assert (effects w1 = effects w) as He1 by reflexivity.
  assert (activeUploadCancelFunctions w1 = activeUploadCancelFunctions w)
    as Hr1 by reflexivity.
  clearbody w1.
  destruct (on_error_appends h id file w1) as (Hxs & _ & He).
  rewrite He1 in He.
  split; [exact He|]. split; [|split; [|split; [|split; [|split; [|split]]]]].
  - eapply (published_status_app _ id (effects w)); [exact He| |reflexivity].
    repeat constructor.
  - by read_state.
  - by read_state.
  - by read_state.
  - read_state. by rewrite Hr1.
  - unfold registered. read_state. apply Map_has_delete_eq.
  - rewrite Hxs. exact Hx1.
Qed.

Lemma network_error_fails_the_session_witness :
  published_status
    (step (run initial_world [Upload 0 report_pdf; SessionReady 0 None])
       (NetworkError 0))
    (upload_id 1) = Some failed.
Proof.
  destruct (network_error_fails_the_session
              (run initial_world [Upload 0 report_pdf; SessionReady 0 None])
              0 0 (upload_id 1) report_pdf) as (_ & H & _).
  - vm_compute. reflexivity.
  - exact H.
Defined.

(** ** Cancelling, on examples *)

Lemma cancel_in_flight_witness :
  activeUploadCancelFunctions
    (cancel 0 (run initial_world [Upload 0 report_pdf; SessionReady 0 None])) =
  Map_delete (upload_id 1)
    (activeUploadCancelFunctions
       (run initial_world [Upload 0 report_pdf; SessionReady 0 None])).
Proof.
  destruct (cancel_in_flight
              (run initial_world [Upload 0 report_pdf; SessionReady 0 None])
              0 0 (upload_id 1) report_pdf) as (_ & H & _).
  - vm_compute. reflexivity.
  - vm_compute. reflexivity.
  - exact H.
Defined.

Lemma cancel_without_abort_event_witness :
  effects (cancel 0 (run initial_world [Upload 0 report_pdf])) =
  effects (run initial_world [Upload 0 report_pdf])
  ++ [setProgress_called 0 None None].
Proof.
  destruct (cancel_without_abort_event
              (run initial_world [Upload 0 report_pdf]) 0 0
              {| xhr_hook := 0; xhr_uploadId := upload_id 1;
                 xhr_file := report_pdf; readyState := UNSENT;
                 awaitingSession := true |}) as (H & _).
  - vm_compute. reflexivity.
  - vm_compute. reflexivity.
  - discriminate.
  - exact H.
Defined.

(** ** What [cancelAllActiveUploads] achieves *)

Lemma JsString_eqb_sym (a b : JsString) : JsString_eqb a b = JsString_eqb b a.
Proof. unfold JsString_eqb. apply bool_decide_ext. split; by intros ->. Qed.

Lemma Map_get_delete (k id : JsString) (m : list (JsString * nat)) :
  Map_get id (Map_delete k m) =
  if JsString_eqb id k then None else Map_get id m.
Proof.
  induction m as [|[k0 v] m IH]; simpl; [by destruct (JsString_eqb id k)|].
  destruct (JsString_eqb k k0) eqn:Hk; simpl.
  - rewrite IH. apply JsString_eqb_eq in Hk. subst k0.
    by destruct (JsString_eqb id k).
  - rewrite IH. destruct (JsString_eqb id k0) eqn:Hid; [|reflexivity].
    apply JsString_eqb_eq in Hid. subst k0.
    by rewrite JsString_eqb_sym, Hk.
Qed.

Lemma Map_get_app (id : JsString) (m1 m2 : list (JsString * nat)) :
  Map_get id (m1 ++ m2) =
  match Map_get id m1 with Some v => Some v | None => Map_get id m2 end.
Proof.
  induction m1 as [|[k0 v0] m1 IH]; simpl; [reflexivity|].
  by destruct (JsString_eqb id k0).
Qed.

Lemma Map_get_Map_replace (k id : JsString) (v : nat)
  (m : list (JsString * nat)) :
  Map_get id (Map_replace k v m) =
  if JsString_eqb id k
  then match Map_get k m with Some _ => Some v | None => None end
  else Map_get id m.
Proof.
  induction m as [|[k0 v0] m IH]; simpl; [by destruct (JsString_eqb id k)|].
  destruct (JsString_eqb k k0) eqn:Hk; simpl.
  - apply JsString_eqb_eq in Hk. subst k0.
    by destruct (JsString_eqb id k).
  - rewrite IH. destruct (JsString_eqb id k0) eqn:Hid; [|reflexivity].
    apply JsString_eqb_eq in Hid. subst k0.
    by rewrite JsString_eqb_sym, Hk.
Qed.

Lemma Map_get_set (k id : JsString) (v : nat) (m : list (JsString * nat)) :
  Map_get id (Map_set k v m) =
  if JsString_eqb id k then Some v else Map_get id m.
Proof.
  unfold Map_set, Map_has. destruct (Map_get k m) as [v0|] eqn:Hk.
  - rewrite Map_get_Map_replace, Hk. reflexivity.
  - rewrite Map_get_app. simpl.
    destruct (JsString_eqb id k) eqn:Hid.
    + apply JsString_eqb_eq in Hid. subst id. by rewrite Hk.
    + by destruct (Map_get id m).
Qed.

Lemma issued_mono (w w' : World) (id : JsString) :
  uploadIdCounter w <= uploadIdCounter w' -> issued w id -> issued w' id.
Proof. intros Hc (n & Hn & ->). exists n. split; [lia|reflexivity]. Qed.

Lemma next_uploadId_not_issued (w : World) : ~ issued w (next_uploadId w).
Proof. intros (n & Hn & Heq). symmetry in Heq. by apply next_uploadId_fresh in Heq; [|lia]. Qed.

(** [refs_ok] reads only the registry, the counter, the two refs of each
    hook, and the hook and identifier of each request. *)
Lemma refs_ok_view (w w' : World) :
  activeUploadCancelFunctions w' = activeUploadCancelFunctions w ->
  uploadIdCounter w' = uploadIdCounter w ->
  (forall h, xhrRef (hook w' h) = xhrRef (hook w h)) ->
  (forall h, uploadIdRef (hook w' h) = uploadIdRef (hook w h)) ->
  requests w' = requests w ->
  refs_ok w -> refs_ok w'.
Proof.
  intros Hr Hc Hx Hu Hq [H1 H2 H3 H4 H5 H6].
  split; unfold issued in *; intros *; rewrite ?Hr, ?Hc, ?Hx, ?Hu, ?Hq;
    eauto.
Qed.

Lemma refs_ok_update_hook (h : nat) (f : Hook -> Hook) :
  (forall s, xhrRef (f s) = xhrRef s) ->
  (forall s, uploadIdRef (f s) = uploadIdRef s) ->
  preserves refs_ok (update_hook h f).
Proof.
  intros Hx Hu w. apply refs_ok_view; try reflexivity;
    intros h'; rewrite hook_update_hook; by case_decide; subst.
Qed.

Lemma refs_ok_emit (e : Effect) : preserves refs_ok (emit e).
Proof. intros w. by apply refs_ok_view. Qed.

Lemma refs_ok_setProgress h s p : preserves refs_ok (setProgress h s p).
Proof.
  intros w Hw. unfold setProgress. apply refs_ok_emit.
  by apply refs_ok_update_hook.
Qed.

Lemma requests_update_xhr (x : nat) (f : Xhr -> Xhr) (w : World) :
  (forall q, xhr_hook (f q) = xhr_hook q) ->
  (forall q, xhr_uploadId (f q) = xhr_uploadId q) ->
  requests (update_xhr x f w) = requests w.
Proof.
  intros Hh Hi. unfold requests, update_xhr. simpl.
  destruct (xhrs w !! x) as [q|] eqn:Hq; [|reflexivity].
  rewrite list_fmap_insert, Hh, Hi. apply list_insert_id.
  by rewrite list_lookup_fmap, Hq.
Qed.

Lemma refs_ok_update_xhr (x : nat) (f : Xhr -> Xhr) :
  (forall q, xhr_hook (f q) = xhr_hook q) ->
  (forall q, xhr_uploadId (f q) = xhr_uploadId q) ->
  preserves refs_ok (update_xhr x f).
Proof.
  intros Hh Hi w. apply refs_ok_view; try reflexivity.
  by apply requests_update_xhr.
Qed.

Lemma refs_ok_delete (id : JsString) :
  preserves refs_ok (update_registry (Map_delete id)).
Proof.
  intros w [H1 H2 H3 H4 H5 H6]. split; simpl; try done.
  - intros h h' id' Hu Hg. rewrite Map_get_delete in Hg.
    destruct (JsString_eqb id' id); [discriminate|]. eauto.
  - intros x h h' id' Hq Hg. rewrite Map_get_delete in Hg.
    destruct (JsString_eqb id' id); [discriminate|]. eauto.
  - intros id' h Hg. rewrite Map_get_delete in Hg.
    destruct (JsString_eqb id' id); [discriminate|]. eauto.
Qed.

Lemma refs_ok_clear : preserves refs_ok (update_registry (fun _ => [])).
Proof. intros w [H1 H2 H3 H4 H5 H6]. split; simpl; try done. Qed.

Lemma refs_ok_set_uploadIdRef_None (h : nat) :
  preserves refs_ok (set_uploadIdRef h None).
Proof.
  intros w [H1 H2 H3 H4 H5 H6]. unfold set_uploadIdRef.
  split; try done.
  - intros h0 h' id. rewrite hook_update_hook. case_decide; [done|]. apply H1.
  - intros h0 x. rewrite hook_update_hook. case_decide; [subst|]; apply H2.
  - intros h0 id. rewrite hook_update_hook. case_decide; [done|]. apply H5.
Qed.

Lemma refs_ok_start (h : nat) (file : File) (w : World) :
  refs_ok w ->
  refs_ok (block [ set_uploadIdCounter (uploadIdCounter w + 1);
                   set_uploadIdRef h (Some (next_uploadId w));
                   setUploading h true;
                   setError h None;
                   setProgress h (Some (next_uploadId w))
                     (Some {| filename := name file; loaded := 0;
                              total := size file; percentage := 0;
                              status := uploading;
                              progress_error := None |}) ] w).
Proof.
  intros Hw. cbn [block fold_left].
  apply refs_ok_setProgress.
  apply refs_ok_update_hook; [done|done|].
  apply refs_ok_update_hook; [done|done|].
  pose proof (next_uploadId_not_issued w) as Hfresh.
  destruct Hw as [H1 H2 H3 H4 H5 H6]. unfold set_uploadIdRef.
  assert (forall id, issued w id ->
            issued (set_uploadIdCounter (uploadIdCounter w + 1) w) id) as Hmono.
  { intros id. apply issued_mono. simpl. lia. }
  split.
  - intros h0 h' id. rewrite hook_update_hook. case_decide as Hh.
    + simpl. intros [= <-] Hg. destruct Hfresh. by apply (H4 _ h').
    + apply H1.
  - intros h0 x. rewrite hook_update_hook. case_decide; [subst|]; apply H2.
  - exact H3.
  - intros id h' Hg. apply Hmono. by apply (H4 id h').
  - intros h0 id. rewrite hook_update_hook. case_decide as Hh.
    + simpl. intros [= <-]. exists (uploadIdCounter w + 1).
      split; [simpl; lia|]. apply next_uploadId_upload_id.
    + intros Hu. apply Hmono. by apply (H5 h0).
  - intros x h0 id Hq. apply Hmono. by apply (H6 x h0).
Qed.

(** The start of [upload] writes the refs of its own hook only. *)
Lemma start_other_hooks (h h0 : nat) (file : File) (w : World) :
  h <> h0 ->
  hook (block [ set_uploadIdCounter (uploadIdCounter w + 1);
                set_uploadIdRef h (Some (next_uploadId w));
                setUploading h true;
                setError h None;
                setProgress h (Some (next_uploadId w))
                  (Some {| filename := name file; loaded := 0;
                           total := size file; percentage := 0;
                           status := uploading;
                           progress_error := None |}) ] w) h0 =
  hook w h0.
Proof.
  intros Hne. unfold_updates.
  rewrite hook_emit. by rewrite !hook_update_hook_ne.
Qed.

Lemma refs_ok_register (h : nat) (file : File) (w : World) :
  refs_ok w ->
  let w1 :=
    block [ set_uploadIdCounter (uploadIdCounter w + 1);
            set_uploadIdRef h (Some (next_uploadId w));
            setUploading h true;
            setError h None;
            setProgress h (Some (next_uploadId w))
              (Some {| filename := name file; loaded := 0;
                       total := size file; percentage := 0;
                       status := uploading; progress_error := None |}) ] w in
  refs_ok (block [ new_XMLHttpRequest
                     {| xhr_hook := h; xhr_uploadId := next_uploadId w;
                        xhr_file := file; readyState := UNSENT;
                        awaitingSession := true |};
                   set_xhrRef h (Some (length (xhrs w1)));
                   update_registry (Map_set (next_uploadId w) h) ] w1).
Proof.
  intros Hw w1.
  pose proof (refs_ok_start h file w Hw) as Hw1. fold w1 in Hw1.
  pose proof (next_uploadId_not_issued w) as Hfresh.
  pose proof (fun h0 => start_other_hooks h h0 file w) as Hother.
  fold w1 in Hother.
  assert (uploadIdCounter w1 = uploadIdCounter w + 1) as Hc by reflexivity.
  assert (requests w1 = requests w) as Hq by reflexivity.
  clearbody w1. cbn [block fold_left].
  set (id0 := next_uploadId w) in *.
  set (q0 := {| xhr_hook := h; xhr_uploadId := id0; xhr_file := file;
                readyState := UNSENT; awaitingSession := true |}).
  set (w2 := update_registry (Map_set id0 h)
               (set_xhrRef h (Some (length (xhrs w1)))
                  (new_XMLHttpRequest q0 w1))).
  assert (requests w2 = requests w1 ++ [(h, id0)]) as Hq2.
  { unfold requests. subst w2. simpl. by rewrite fmap_app. }
  assert (length (requests w1) = length (xhrs w1)) as Hlen
    by (unfold requests; apply length_fmap).
  assert (activeUploadCancelFunctions w2 =
          Map_set id0 h (activeUploadCancelFunctions w1)) as Hr2
    by reflexivity.
  assert (uploadIdCounter w2 = uploadIdCounter w1) as Hc2 by reflexivity.
  assert (forall h0, uploadIdRef (hook w2 h0) = uploadIdRef (hook w1 h0))
    as Hu2.
  { intros h0. subst w2. unfold set_xhrRef.
    rewrite hook_update_registry, hook_update_hook. by case_decide; subst. }
  assert (forall h0, xhrRef (hook w2 h0) =
            if decide (h = h0) then Some (length (xhrs w1))
            else xhrRef (hook w1 h0)) as Hx2.
  { intros h0. subst w2. unfold set_xhrRef.
    rewrite hook_update_registry, hook_update_hook. by case_decide. }
  clearbody w2.
  assert (forall id, issued w1 id -> issued w2 id) as Hsame.
  { intros id. apply issued_mono. rewrite Hc2. lia. }
  destruct Hw1 as [H1 H2 H3 H4 H5 H6].
  assert (forall x h0 id, requests w2 !! x = Some (h0, id) ->
            requests w1 !! x = Some (h0, id) \/
            x = length (xhrs w1) /\ h0 = h /\ id = id0) as Hcases.
  { intros x h0 id Hx. rewrite Hq2 in Hx. apply lookup_snoc_Some in Hx.
    destruct Hx as [[_ Hx]|[Hx [= <- <-]]]; [by left|right].
    by rewrite <- Hlen. }
  assert (forall x h0 id, requests w1 !! x = Some (h0, id) -> id <> id0)
    as Hreq_old.
  { intros x h0 id Hx ->. rewrite Hq in Hx.
    destruct Hw as [_ _ _ _ _ Hw6]. by apply Hfresh, (Hw6 x h0). }
  split.
  - intros h0 h' id. rewrite Hu2, Hr2, Map_get_set.
    destruct (JsString_eqb id id0) eqn:Hid.
    + apply JsString_eqb_eq in Hid. subst id. intros Hu0 [= <-].
      destruct (decide (h = h0)) as [|Hne]; [done|].
      (* no other hook holds the new identifier *)
      rewrite (Hother h0 Hne) in Hu0.
      destruct Hw as [_ _ _ _ Hw5 _]. destruct Hfresh. by apply (Hw5 h0).
    + apply H1.
  - intros h0 x. rewrite Hx2, Hq2. case_decide as Hh.
    + intros [= <-]. subst h0. exists id0.
      rewrite <- Hlen. apply list_lookup_middle. reflexivity.
    + intros Hx. destruct (H2 h0 x Hx) as [id Hid]. exists id.
      by apply lookup_app_l_Some.
  - intros x h0 h' id Hx. rewrite Hr2, Map_get_set.
    destruct (Hcases x h0 id Hx) as [Hxo|(-> & -> & ->)].
    + rewrite (JsString_eqb_neq _ _ (Hreq_old x h0 id Hxo)). by apply (H3 x).
    + rewrite JsString_eqb_refl. by intros [= <-].
  - intros id h'. rewrite Hr2, Map_get_set.
    destruct (JsString_eqb id id0) eqn:Hid.
    + apply JsString_eqb_eq in Hid. subst id. intros _. apply Hsame.
      exists (uploadIdCounter w + 1). split; [rewrite Hc; lia|].
      apply next_uploadId_upload_id.
    + intros Hg. apply Hsame. by apply (H4 id h').
  - intros h0 id. rewrite Hu2. intros Hu0. apply Hsame. by apply (H5 h0).
  - intros x h0 id Hx. apply Hsame.
    destruct (Hcases x h0 id Hx) as [Hxo|(-> & -> & ->)].
    + by apply (H6 x h0).
    + exists (uploadIdCounter w + 1). split; [rewrite Hc; lia|].
      apply next_uploadId_upload_id.
Qed.

Lemma refs_ok_setUploading h b : preserves refs_ok (setUploading h b).
Proof. by apply refs_ok_update_hook. Qed.

Lemma refs_ok_setError h e : preserves refs_ok (setError h e).
Proof. by apply refs_ok_update_hook. Qed.

Lemma refs_ok_set_readyState x r : preserves refs_ok (set_readyState x r).
Proof. by apply refs_ok_update_xhr. Qed.

Lemma refs_ok_set_awaitingSession x b :
  preserves refs_ok (set_awaitingSession x b).
Proof. by apply refs_ok_update_xhr. Qed.

Lemma refs_ok_publish_terminal h id p :
  preserves refs_ok
    (fun w => update_registry (Map_delete id) (setProgress h (Some id) p w)).
Proof. intros w Hw. by apply refs_ok_delete, refs_ok_setProgress. Qed.

Lemma refs_ok_cancel (h : nat) : preserves refs_ok (cancel h).
Proof.
  apply P_cancel.
  - apply refs_ok_setUploading.
  - apply refs_ok_setError.
  - apply refs_ok_set_uploadIdRef_None.
  - apply refs_ok_set_readyState.
  - intros e _. apply refs_ok_emit.
  - intros h0 id p _. apply refs_ok_publish_terminal.
  - apply refs_ok_delete.
  - intros h0. apply refs_ok_setProgress.
Qed.

Lemma refs_ok_step (a : Action) : preserves refs_ok (fun w => step w a).
Proof.
  apply P_step.
  - apply refs_ok_setUploading.
  - apply refs_ok_setError.
  - apply refs_ok_set_uploadIdRef_None.
  - apply refs_ok_set_readyState.
  - apply refs_ok_set_awaitingSession.
  - intros e _. apply refs_ok_emit.
  - apply refs_ok_clear.
  - intros h id p _. apply refs_ok_setProgress.
  - intros id p _. apply refs_ok_emit.
  - intros h id p _. apply refs_ok_publish_terminal.
  - apply refs_ok_delete.
  - intros h. apply refs_ok_setProgress.
  - apply refs_ok_start.
  - apply refs_ok_register.
Qed.

Lemma refs_ok_initial : refs_ok initial_world.
Proof. split; try done. Qed.

Lemma refs_ok_run (actions : list Action) :
  refs_ok (run initial_world actions).
Proof.
  apply preserves_run; [apply refs_ok_step|apply refs_ok_initial].
Qed.

Lemma xhrs_xhr_abort (x : nat) (w : World) :
  xhrs (xhr_abort x w) =
  match xhrs w !! x with
  | Some q =>
      match readyState q with
      | UNSENT => xhrs w
      | _ => <[x := {| xhr_hook := xhr_hook q; xhr_uploadId := xhr_uploadId q;
                       xhr_file := xhr_file q; readyState := UNSENT;
                       awaitingSession := awaitingSession q |}]> (xhrs w)
      end
  | None => xhrs w
  end.
Proof.
  unfold xhr_abort. destruct (xhrs w !! x) as [q|] eqn:Hq; [|reflexivity].
  destruct (readyState q) eqn:Hr; [reflexivity| |].
  - cbn [block fold_left].
    set (w1 := set_readyState x DONE w).
    assert (xhrs w1 = <[x := _]> (xhrs w)) as Hx1
      by apply (xhrs_update_xhr x _ w q Hq).
    destruct (on_abort_appends (xhr_hook q) (xhr_uploadId q) w1)
      as (Hx2 & _ & _).
    set (w2 := on_abort (xhr_hook q) (xhr_uploadId q) w1) in *.
    assert (xhrs w2 !! x = Some
              {| xhr_hook := xhr_hook q; xhr_uploadId := xhr_uploadId q;
                 xhr_file := xhr_file q; readyState := DONE;
                 awaitingSession := awaitingSession q |}) as Hq2.
    { rewrite Hx2, Hx1. apply list_lookup_insert_eq.
      by apply lookup_lt_Some in Hq. }
    unfold set_readyState. rewrite (xhrs_update_xhr x _ w2 _ Hq2).
    rewrite Hx2, Hx1. apply list_insert_insert_eq.
  - unfold set_readyState. by rewrite (xhrs_update_xhr x _ w q Hq).
Qed.

Lemma xhrs_cancel (h : nat) (w : World) :
  xhrs (cancel h w) =
  match xhrRef (hook w h) with
  | Some x => xhrs (xhr_abort x w)
  | None => xhrs w
  end.
Proof.
  unfold cancel. destruct (xhrRef (hook w h)) as [x|]; [|reflexivity].
  cbn [block fold_left]. by destruct (uploadIdRef _).
Qed.

Lemma length_xhrs_cancel (h : nat) (w : World) :
  length (xhrs (cancel h w)) = length (xhrs w).
Proof.
  rewrite xhrs_cancel. destruct (xhrRef (hook w h)) as [x|]; [|reflexivity].
  rewrite xhrs_xhr_abort. destruct (xhrs w !! x) as [q|]; [|reflexivity].
  destruct (readyState q); by rewrite ?length_insert.
Qed.

(** [cancel] puts no request in flight. *)
Lemma cancel_sent (h : nat) (w : World) (y : nat) :
  sent (cancel h w) y -> sent w y.
Proof.
  intros (q' & Hq' & Hs). rewrite xhrs_cancel in Hq'.
  destruct (xhrRef (hook w h)) as [x|]; [|by exists q'].
  rewrite xhrs_xhr_abort in Hq'.
  destruct (xhrs w !! x) as [q|] eqn:Hq; [|by exists q'].
  destruct (readyState q) eqn:Hr; [by exists q'| |];
    (destruct (decide (y = x)) as [->|Hne];
     [ rewrite list_lookup_insert_eq in Hq' by (by apply lookup_lt_Some in Hq);
       injection Hq' as <-; discriminate Hs
     | rewrite list_lookup_insert_ne in Hq' by done; by exists q' ]).
Qed.

(** After [cancel], the request of the hook is not in flight. *)
Lemma cancel_not_sent (h : nat) (w : World) (x : nat) :
  xhrRef (hook w h) = Some x -> ~ sent (cancel h w) x.
Proof.
  intros Hx (q' & Hq' & Hs). rewrite xhrs_cancel, Hx, xhrs_xhr_abort in Hq'.
  destruct (xhrs w !! x) as [q|] eqn:Hq; [|congruence].
  destruct (readyState q) eqn:Hr; [congruence| |];
    (rewrite list_lookup_insert_eq in Hq' by (by apply lookup_lt_Some in Hq);
     injection Hq' as <-; discriminate Hs).
Qed.

(** [cancel] never moves [xhrRef]. *)
Lemma xhrRef_cancel (h h' : nat) (w : World) :
  xhrRef (hook (cancel h w) h') = xhrRef (hook w h').
Proof.
  assert (forall h0 (f : Hook -> Hook) c,
            (forall s, xhrRef (f s) = xhrRef s) ->
            preserves (fun w' => xhrRef (hook w' h') = c) (update_hook h0 f))
    as Hhook.
  { intros h0 f c Hf w' Hw'. rewrite hook_update_hook.
    case_decide; [subst; by rewrite Hf|done]. }
  apply (P_cancel (fun w' => xhrRef (hook w' h') = xhrRef (hook w h'))).
  - intros h0 b. by apply Hhook.
  - intros h0 e. by apply Hhook.
  - intros h0. by apply Hhook.
  - intros x r w' Hw'. exact Hw'.
  - intros e _ w' Hw'. exact Hw'.
  - intros h0 id p _ w' Hw'. rewrite hook_update_registry. unfold setProgress.
    rewrite hook_emit. by apply Hhook.
  - intros id w' Hw'. exact Hw'.
  - intros h0 w' Hw'. unfold setProgress. rewrite hook_emit. by apply Hhook.
  - reflexivity.
Qed.

(** [cancel] only adds effects. *)
Lemma effects_cancel (h : nat) (w : World) :
  exists new, effects (cancel h w) = effects w ++ new.
Proof.
  apply (P_cancel (fun w' => exists new, effects w' = effects w ++ new)).
  - intros h0 b w' Hw'. exact Hw'.
  - intros h0 e w' Hw'. exact Hw'.
  - intros h0 w' Hw'. exact Hw'.
  - intros x r w' Hw'. exact Hw'.
  - intros e _ w' [new Hw']. exists (new ++ [e]). simpl.
    by rewrite Hw', app_assoc.
  - intros h0 id p _ w' [new Hw']. eexists (new ++ [_]). simpl.
    by rewrite Hw', app_assoc.
  - intros id w' Hw'. exact Hw'.
  - intros h0 w' [new Hw']. eexists (new ++ [_]). simpl.
    by rewrite Hw', app_assoc.
  - exists []. by rewrite app_nil_r.
Qed.

Lemma request_of (w : World) (x h : nat) (id : JsString) :
  requests w !! x = Some (h, id) ->
  exists q, xhrs w !! x = Some q /\ xhr_hook q = h /\ xhr_uploadId q = id.
Proof.
  unfold requests. rewrite list_lookup_fmap.
  destruct (xhrs w !! x) as [q|]; [|discriminate].
  intros [= <- <-]. by exists q.
Qed.

Lemma requests_of (w : World) (x : nat) (q : Xhr) :
  xhrs w !! x = Some q ->
  requests w !! x = Some (xhr_hook q, xhr_uploadId q).
Proof. intros Hq. unfold requests. by rewrite list_lookup_fmap, Hq. Qed.

Lemma in_flight_of (w : World) (x : nat) (q : Xhr) :
  sessions_ok w -> xhrs w !! x = Some q -> readyState q = SENT ->
  in_flight w x (xhr_hook q) (xhr_uploadId q) (xhr_file q).
Proof.
  intros Hw Hq Hr. pose proof (sent_not_awaiting w Hw x q Hq Hr) as Ha.
  unfold in_flight. rewrite Hq. destruct q. simpl in *. by subst.
Qed.

(** [cancel] removes from the registry only sessions of its own hook. *)
Lemma cancel_registry_other (h h' : nat) (id : JsString) (w : World) :
  sessions_ok w -> refs_ok w ->
  Map_get id (activeUploadCancelFunctions w) = Some h' -> h' <> h ->
  Map_get id (activeUploadCancelFunctions (cancel h w)) = Some h'.
Proof.
  intros Hs Hw Hid Hne.
  destruct (xhrRef (hook w h)) as [x|] eqn:Hx;
    [|by rewrite cancel_without_request].
  destruct (xhrRef_created w Hw h x Hx) as [idq Hreq].
  destruct (request_of w x h idq Hreq) as (q & Hq & Hh & Hi).
  assert (readyState q = SENT \/ readyState q <> SENT) as [Hr|Hr]
    by (destruct (readyState q); auto; right; discriminate).
  - pose proof (in_flight_of w x q Hs Hq Hr) as Hfl. rewrite Hh, Hi in Hfl.
    destruct (cancel_in_flight w h x idq (xhr_file q) Hx Hfl)
      as (_ & -> & _).
    rewrite Map_get_delete.
    destruct (JsString_eqb id idq) eqn:E; [|exact Hid].
    apply JsString_eqb_eq in E. subst id.
    destruct Hne. apply (registered_creator w Hw x h h' idq Hreq Hid).
  - destruct (cancel_without_abort_event w h x q Hx Hq Hr)
      as (_ & _ & _ & _ & ->).
    destruct (uploadIdRef (hook w h)) as [id'|] eqn:Hu; [|exact Hid].
    rewrite Map_get_delete.
    destruct (JsString_eqb id id') eqn:E; [|exact Hid].
    apply JsString_eqb_eq in E. subst id.
    destruct Hne. apply (uploadIdRef_registered w Hw h h' id' Hu Hid).
Qed.

(** [cancel] announces the failure of the request in flight of its hook. *)
Lemma cancel_announces (h x : nat) (q : Xhr) (w : World) :
  sessions_ok w -> refs_ok w ->
  xhrRef (hook w h) = Some x -> xhrs w !! x = Some q -> readyState q = SENT ->
  In (onError (xhr_uploadId q) (JStr (lit "Upload cancelled")))
    (effects (cancel h w)).
Proof.
  intros Hs Hw Hx Hq Hr.
  destruct (xhrRef_created w Hw h x Hx) as [idq Hreq].
  rewrite (requests_of w x q Hq) in Hreq. injection Hreq as Hh _.
  pose proof (in_flight_of w x q Hs Hq Hr) as Hfl. rewrite Hh in Hfl.
  destruct (cancel_in_flight w h x _ _ Hx Hfl) as (-> & _).
  apply in_or_app. right. simpl. auto.
Qed.

(** [cancel] leaves the requests of other hooks alone. *)
Lemma cancel_other_request (h : nat) (w : World) (y : nat) :
  xhrRef (hook w h) <> Some y -> xhrs (cancel h w) !! y = xhrs w !! y.
Proof.
  intros Hne. rewrite xhrs_cancel.
  destruct (xhrRef (hook w h)) as [x|]; [|reflexivity].
  rewrite xhrs_xhr_abort. destruct (xhrs w !! x) as [q|]; [|reflexivity].
  assert (x <> y) by congruence.
  destruct (readyState q); by rewrite ?list_lookup_insert_ne.
Qed.

Lemma forEach_sent (keys : list JsString) (w : World) (y : nat) :
  sent (forEach_cancelFn keys w) y -> sent w y.
Proof.
  revert w. induction keys as [|k keys IH]; intros w; simpl; [done|].
  destruct (Map_get k (activeUploadCancelFunctions w)) as [h|]; [|apply IH].
  intros Hs. by apply (cancel_sent h), IH.
Qed.

Lemma forEach_effects (keys : list JsString) (w : World) :
  exists new, effects (forEach_cancelFn keys w) = effects w ++ new.
Proof.
  revert w. induction keys as [|k keys IH]; intros w; simpl.
  - exists []. by rewrite app_nil_r.
  - destruct (Map_get k (activeUploadCancelFunctions w)) as [h|]; [|apply IH].
    destruct (IH (cancel h w)) as [new2 ->].
    destruct (effects_cancel h w) as [new1 ->].
    exists (new1 ++ new2). by rewrite app_assoc.
Qed.

Lemma forEach_length (keys : list JsString) (w : World) :
  length (xhrs (forEach_cancelFn keys w)) = length (xhrs w).
Proof.
  revert w. induction keys as [|k keys IH]; intros w; simpl; [done|].
  destruct (Map_get k (activeUploadCancelFunctions w)) as [h|]; [|apply IH].
  by rewrite IH, length_xhrs_cancel.
Qed.

Lemma Map_get_In (id : JsString) (h : nat) (m : list (JsString * nat)) :
  Map_get id m = Some h -> In id (List.map fst m).
Proof.
  induction m as [|[k v] m IH]; simpl; [discriminate|].
  destruct (JsString_eqb id k) eqn:E.
  - intros _. left. symmetry. by apply JsString_eqb_eq.
  - intros H. right. by apply IH.
Qed.

(** The loop of [cancelAllActiveUploads]: the request of every hook that
    has a session among the keys still to visit ends up aborted. *)
Lemma forEach_cancels (keys : list JsString) (w : World) (id : JsString)
  (h x : nat) :
  sessions_ok w -> refs_ok w ->
  In id keys ->
  Map_get id (activeUploadCancelFunctions w) = Some h ->
  xhrRef (hook w h) = Some x ->
  ~ sent (forEach_cancelFn keys w) x /\
  (forall q, xhrs w !! x = Some q -> readyState q = SENT ->
     In (onError (xhr_uploadId q) (JStr (lit "Upload cancelled")))
       (effects (forEach_cancelFn keys w))).
Proof.
  revert w. induction keys as [|k keys IH]; intros w Hs Hw Hin Hid Hx;
    [destruct Hin|].
  simpl. destruct (Map_get k (activeUploadCancelFunctions w)) as [hk|] eqn:Hk.
  - destruct (decide (hk = h)) as [->|Hne].
    + split.
      * intros Hsent. apply forEach_sent in Hsent.
        by apply (cancel_not_sent h w x Hx).
      * intros q Hq Hr. destruct (forEach_effects keys (cancel h w)) as [new ->].
        apply in_or_app. left. by apply (cancel_announces h x q w).
    + assert (In id keys) as Hin'.
      { destruct Hin as [->|Hin]; [congruence|exact Hin]. }
      assert (xhrRef (hook w hk) <> Some x) as Hother.
      { intros Hxk.
        destruct (xhrRef_created w Hw hk x Hxk) as [id1 H1].
        destruct (xhrRef_created w Hw h x Hx) as [id2 H2]. congruence. }
      destruct (IH (cancel hk w)) as [Hns Hann].
      * by apply sessions_ok_cancel.
      * by apply refs_ok_cancel.
      * exact Hin'.
      * apply cancel_registry_other; [done|done|done|congruence].
      * by rewrite xhrRef_cancel.
      * split; [exact Hns|]. intros q Hq Hr. apply Hann; [|exact Hr].
        by rewrite cancel_other_request.
  - destruct Hin as [->|Hin]; [congruence|]. by apply IH.
Qed.

(** X16: what [cancelAllActiveUploads] does achieve: whatever happened before,
    if a hook has a session in the registry and its current request is in
    flight, then afterwards that request is no longer in flight, the
    session of the request has been failed with [Upload cancelled] (one
    call of [onError], and the promise rejected, and nothing else), and
    the registry is empty. (The counter is below [2 ^ 53], where the
    identifiers are distinct.) *)
Theorem cancelAllActiveUploads_aborts_requests_in_flight
  (actions : list Action) (id : JsString) (h x : nat) (q : Xhr) :
  uploadIdCounter (run initial_world actions) < 2 ^ 53 ->
  Map_get id (activeUploadCancelFunctions (run initial_world actions)) = Some h ->
  xhrRef (hook (run initial_world actions) h) = Some x ->
  xhrs (run initial_world actions) !! x = Some q ->
  readyState q = SENT ->
  (exists q',
     xhrs (cancelAllActiveUploads (run initial_world actions)) !! x = Some q' /\
     readyState q' <> SENT) /\
  outcomes (xhr_uploadId q)
    (effects (cancelAllActiveUploads (run initial_world actions))) =
    [ onError (xhr_uploadId q) (JStr (lit "Upload cancelled"));
      reject (xhr_uploadId q) (JStr (lit "Upload cancelled")) ] /\
  activeUploadCancelFunctions
    (cancelAllActiveUploads (run initial_world actions)) = [].
Proof.
  intros _ Hid Hx Hq Hr.
  pose proof (sessions_ok_run actions) as Hs.
  pose proof (refs_ok_run actions) as Hw.
  pose proof (sessions_ok_step CancelAll _ Hs) as Hs'. simpl in Hs'.
  set (w := run initial_world actions) in *.
  destruct (forEach_cancels
              (List.map fst (activeUploadCancelFunctions w)) w id h x Hs Hw
              (Map_get_In id h _ Hid) Hid Hx) as [Hns Hann].
  specialize (Hann q Hq Hr).
  change (effects (forEach_cancelFn (List.map fst (activeUploadCancelFunctions w)) w))
    with (effects (cancelAllActiveUploads w)) in Hann.
  split; [|split; [|reflexivity]].
  - assert (is_Some (xhrs (cancelAllActiveUploads w) !! x)) as [q' Hq'].
    { apply lookup_lt_is_Some.
      change (xhrs (cancelAllActiveUploads w))
        with (xhrs (forEach_cancelFn
                      (List.map fst (activeUploadCancelFunctions w)) w)).
      rewrite forEach_length. by apply lookup_lt_Some in Hq. }
    exists q'. split; [exact Hq'|]. intros Hr'. apply Hns. by exists q'.
  - set (idq := xhr_uploadId q) in *.
    assert (In (onError idq (JStr (lit "Upload cancelled")))
              (outcomes idq (effects (cancelAllActiveUploads w)))) as Hin.
    { apply filter_In. split; [exact Hann|]. simpl.
      by rewrite JsString_eqb_refl. }
    destruct (settled_once _ Hs' idq)
      as [Hnone | (cb & st & Hpair & Hcb)].
    + rewrite Hnone in Hin. destruct Hin.
    + rewrite Hpair in Hin |- *.
      destruct Hcb as [(response & -> & ->) | (message & -> & ->)].
      * destruct Hin as [Hin|[Hin|[]]]; discriminate Hin.
      * destruct Hin as [Hin|[Hin|[]]]; [|discriminate Hin].
        by injection Hin as <-.
Qed.

Lemma cancelAllActiveUploads_aborts_requests_in_flight_witness :
  outcomes (upload_id 1)
    (effects
       (cancelAllActiveUploads
          (run initial_world
             [Upload 0 report_pdf; SessionReady 0 None;
              Upload 1 report_pdf; SessionReady 1 None]))) =
  [ onError (upload_id 1) (JStr (lit "Upload cancelled"));
    reject (upload_id 1) (JStr (lit "Upload cancelled")) ].
Proof.
  destruct (cancelAllActiveUploads_aborts_requests_in_flight
              [Upload 0 report_pdf; SessionReady 0 None;
               Upload 1 report_pdf; SessionReady 1 None]
              (upload_id 1) 0 0
              {| xhr_hook := 0; xhr_uploadId := upload_id 1;
                 xhr_file := report_pdf; readyState := SENT;
                 awaitingSession := false |}) as (_ & H & _).
  - vm_compute. reflexivity.
  - vm_compute. reflexivity.
  - vm_compute. reflexivity.
  - vm_compute. reflexivity.
  - reflexivity.
  - exact H.
Defined.

(** X17: the registry holds each session under the [cancel] of the hook that
    created it: whatever happened before, an entry of the registry has an
    identifier that was issued, every request with that identifier was
    created by the hook of the entry, and no other hook has the identifier
    in its [uploadIdRef]. (The counter is below [2 ^ 53], where the
    identifiers are distinct.) *)
Theorem registry_entries_belong_to_their_creator (actions : list Action)
  (id : JsString) (h : nat) :
  uploadIdCounter (run initial_world actions) < 2 ^ 53 ->
  Map_get id (activeUploadCancelFunctions (run initial_world actions)) = Some h ->
  (exists n, 1 <= n <= uploadIdCounter (run initial_world actions) /\
             id = upload_id n) /\
  (forall x q, xhrs (run initial_world actions) !! x = Some q ->
               xhr_uploadId q = id -> xhr_hook q = h) /\
  (forall h', uploadIdRef (hook (run initial_world actions) h') = Some id ->
              h' = h).
Proof.
  intros _ Hid. pose proof (refs_ok_run actions) as Hw.
  split; [|split].
  - apply (registered_issued _ Hw id h Hid).
  - intros x q Hq Hi. symmetry.
    apply (registered_creator _ Hw x (xhr_hook q) h id); [|exact Hid].
    rewrite <- Hi. by apply requests_of.
  - intros h' Hu. symmetry.
    apply (uploadIdRef_registered _ Hw h' h id Hu Hid).
Qed.

Lemma registry_entries_belong_to_their_creator_witness :
  exists n,
    1 <= n <= uploadIdCounter
                (run initial_world [Upload 0 report_pdf; Upload 1 report_pdf]) /\
    upload_id 2 = upload_id n.
Proof.
  destruct (registry_entries_belong_to_their_creator
              [Upload 0 report_pdf; Upload 1 report_pdf] (upload_id 2) 1)
    as (H & _).
  - vm_compute. reflexivity.
  - vm_compute. reflexivity.
  - exact H.
Defined.
